(** * ZipToRepo: archive analysis, absolute-path fixing and deployment

    A shallow embedding of [src/lib/github.ts] ([analyzeZip],
    [fixAbsolutePaths], [deployZipToGitHub]) and of [deployZipToFirebase],
    followed by the properties of the specification that concern them.

    Conventions of the embedding.
    - A JavaScript string is the list of its code units; code units are
      [ascii], so the development covers the 8-bit range.  String literals
      are read through [list_ascii_of_string].
    - JavaScript numbers that hold sizes, lengths and indices are [Z] or
      [nat]; the sums taken by the code are exact as long as they stay below
      2^53, which is assumed.
    - A zip entry is given by what its accessors return.
    - A deployment is a pure function of the provider's answers; it returns
      the ordered trace of what it did (events handed to the sink, requests
      sent, timers awaited) and either the thrown error or the result. *)

From Stdlib Require Import String Ascii ZArith Lia Bool.
From Stdlib Require Import DecimalString.
From stdpp Require Import base list sorting strings gmap.

Abbreviation jsstring := (list ascii).
Coercion list_ascii_of_string : string >-> list.

Open Scope string_scope.
Open Scope list_scope.
Open Scope bool_scope.

(** ** JavaScript string primitives *)

Module Js.

Definition dquote : ascii := ascii_of_nat 34.
Definition squote : ascii := ascii_of_nat 39.
Definition slash : ascii := ascii_of_nat 47.

(** [s.startsWith(t)] *)
Fixpoint startsWith (s t : jsstring) {struct t} : bool :=
  match t, s with
  | [], _ => true
  | c :: t', d :: s' => Ascii.eqb c d && startsWith s' t'
  | _ :: _, [] => false
  end.

(** [s.endsWith(t)] *)
Definition endsWith (s t : jsstring) : bool :=
  startsWith (rev s) (rev t).

(** [s.includes(t)] *)
Fixpoint includes (s t : jsstring) : bool :=
  startsWith s t ||
  match s with
  | [] => false
  | _ :: s' => includes s' t
  end.

(** [s === t] *)
Definition strictEq (s t : jsstring) : bool := bool_decide (s = t).

(** [s.lastIndexOf(c)] for a one-character needle; [-1] when absent. *)
Fixpoint lastIndexOfFrom (i : Z) (c : ascii) (s : jsstring) (found : Z) : Z :=
  match s with
  | [] => found
  | d :: s' =>
      lastIndexOfFrom (i + 1) c s' (if Ascii.eqb d c then i else found)
  end.

Definition lastIndexOf (s : jsstring) (c : ascii) : Z :=
  lastIndexOfFrom 0 c s (-1).

(** [s.substring(0, n)] and [s.substring(n)] for [0 <= n]. *)
Definition substringTo (s : jsstring) (n : nat) : jsstring := take n s.
Definition substringFrom (s : jsstring) (n : nat) : jsstring := drop n s.

(** [s.split(c)[0]]: the part of [s] before the first [c]. *)
Fixpoint splitHead (s : jsstring) (c : ascii) : jsstring :=
  match s with
  | [] => []
  | d :: s' => if Ascii.eqb d c then [] else d :: splitHead s' c
  end.

(** [arr.includes(w)] on an array of strings. *)
Definition arrIncludes (arr : list jsstring) (w : jsstring) : bool :=
  existsb (fun x => strictEq x w) arr.

(** Truthiness of a string, and [s || d]. *)
Definition truthy (s : jsstring) : bool :=
  match s with [] => false | _ :: _ => true end.

Definition orElse (s : option jsstring) (d : jsstring) : jsstring :=
  match s with
  | Some (c :: s') => c :: s'
  | _ => d
  end.

(** Decimal rendering of a non-negative integer inside a template. *)
Definition ofNat (n : nat) : jsstring :=
  list_ascii_of_string (NilZero.string_of_uint (Nat.to_uint n)).

(** The default comparison of [Array.prototype.sort]: code units compared
    left to right, a proper prefix first. *)
Fixpoint leb (s t : jsstring) : bool :=
  match s, t with
  | [], _ => true
  | _ :: _, [] => false
  | c :: s', d :: t' =>
      if Ascii.eqb c d then leb s' t' else Ascii.ltb c d
  end.

Definition le (s t : jsstring) : Prop := leb s t = true.

#[global] Instance le_dec : RelDecision le.
Proof. intros s t. unfold le. apply bool_eq_dec. Defined.

(** [arr.sort()] on strings.  The order is total and equal strings are
    indistinguishable, so the result does not depend on the algorithm. *)
Definition sort (arr : list jsstring) : list jsstring :=
  merge_sort le arr.

(** Case folding of the [i] flag, as far as it concerns the ASCII letters
    of the patterns below: a pattern letter matches exactly its two
    cases. *)
Definition toUpper (c : ascii) : ascii :=
  let n := nat_of_ascii c in
  if (97 <=? n)%nat && (n <=? 122)%nat then ascii_of_nat (n - 32) else c.

Definition eqCI (c d : ascii) : bool :=
  Ascii.eqb (toUpper c) (toUpper d).

Fixpoint startsWithCI (s t : jsstring) {struct t} : bool :=
  match t, s with
  | [], _ => true
  | c :: t', d :: s' => eqCI c d && startsWithCI s' t'
  | _ :: _, [] => false
  end.

Definition isQuote (c : ascii) : bool :=
  Ascii.eqb c dquote || Ascii.eqb c squote.

(** The greedy run of characters other than the two quotes at the head of
    [s]. *)
Fixpoint spanNonQuote (s : jsstring) : jsstring * jsstring :=
  match s with
  | [] => ([], [])
  | c :: s' =>
      if isQuote c then ([], s)
      else let '(run, rest) := spanNonQuote s' in (c :: run, rest)
  end.

End Js.

(** ** The three regular expressions of [github.ts]

    Each pattern is matched at the head of a string by a function that
    follows the pattern from left to right.  An alternation is tried in the
    order written and falls back to the next alternative when the rest of the
    pattern fails.  The greedy character class before the closing quote
    cannot give characters back: one character less and the next one is not
    a quote. *)

Module Re.

Fixpoint altThen {A : Type} (ignoreCase : bool) (alts : list jsstring)
    (s : jsstring) (k : jsstring -> jsstring -> option A) : option A :=
  match alts with
  | [] => None
  | a :: alts' =>
      if (if ignoreCase then Js.startsWithCI s a else Js.startsWith s a)
      then match k (take (length a) s) (drop (length a) s) with
           | Some r => Some r
           | None => altThen ignoreCase alts' s k
           end
      else altThen ignoreCase alts' s k
  end.

(** A match of the root-absolute reference pattern: the whole match, the
    attribute name as written, and the captured path after the slash. *)
Record AbsRef := mkAbsRef {
  matched : jsstring;
  attr : jsstring;
  refPath : jsstring
}.

(** The pattern after the attribute name: an equals sign, a quote, a slash
    not followed by a slash, characters other than quotes, a quote. *)
Definition absRefTail (a rest : jsstring) : option AbsRef :=
  match rest with
  | e :: q :: sl :: rest' =>
      if Ascii.eqb e "="%char && Js.isQuote q && Ascii.eqb sl Js.slash
         && negb (Js.startsWith rest' "/")
      then
        let '(p, rest'') := Js.spanNonQuote rest' in
        match rest'' with
        | q' :: _ => Some (mkAbsRef (a ++ e :: q :: sl :: p ++ [q']) a p)
        | [] => None
        end
      else None
  | _ => None
  end.

(** The pattern of [analyzeZip], flag [i]: href or src first. *)
Definition absolutePathRegex (s : jsstring) : option AbsRef :=
  altThen true ["href" : jsstring; "src" : jsstring] s absRefTail.

(** The pattern of [fixAbsolutePaths], flags [gi]: src or href, with the
    attribute and the path captured. *)
Definition fixRegex (s : jsstring) : option AbsRef :=
  altThen true ["src" : jsstring; "href" : jsstring] s absRefTail.

(** A match of the reference pattern of the asset check: the whole match and
    the captured reference. *)
Record Ref := mkRef {
  refMatched : jsstring;
  ref : jsstring
}.

Definition refTail (a rest : jsstring) : option Ref :=
  match rest with
  | e :: q :: rest' =>
      if Ascii.eqb e "="%char && Js.isQuote q
      then
        let '(r, rest'') := Js.spanNonQuote rest' in
        match r, rest'' with
        | _ :: _, q' :: _ => Some (mkRef (a ++ e :: q :: r ++ [q']) r)
        | _, _ => None
        end
      else None
  | _ => None
  end.

(** The pattern of the asset check, flag [g]: src or href, case-sensitive,
    at least one character between the quotes. *)
Definition refRegex (s : jsstring) : option Ref :=
  altThen false ["src" : jsstring; "href" : jsstring] s refTail.

Definition refLen (m : Ref) : nat := length (refMatched m).

(** [regex.test(s)] from index 0: some position of [s] matches. *)
Fixpoint test {A : Type} (m : jsstring -> option A) (s : jsstring) : bool :=
  match m s with
  | Some _ => true
  | None =>
      match s with
      | [] => false
      | _ :: s' => test m s'
      end
  end.

(** The left-to-right scan of a global pattern: the string is cut into the
    characters no match covers and the successive matches; after a match of
    [len] characters the scan resumes behind it.  [skip] counts the
    characters of the current match still to pass. *)
Fixpoint scan {A : Type} (m : jsstring -> option A) (len : A -> nat)
    (skip : nat) (s : jsstring) : list (ascii + A) :=
  match s with
  | [] => []
  | c :: s' =>
      match skip with
      | S k => scan m len k s'
      | O =>
          match m s with
          | Some a => inr a :: scan m len (len a - 1) s'
          | None => inl c :: scan m len 0 s'
          end
      end
  end.

(** [s.matchAll(regex)] *)
Definition matchAll {A : Type} (m : jsstring -> option A) (len : A -> nat)
    (s : jsstring) : list A :=
  omap (fun x => match x with inr a => Some a | inl _ => None end)
       (scan m len 0 s).

(** [s.replace(regex, f)] for a global pattern. *)
Definition replace {A : Type} (m : jsstring -> option A) (len : A -> nat)
    (f : A -> jsstring) (s : jsstring) : jsstring :=
  concat (map (fun x => match x with inr a => f a | inl c => [c] end)
              (scan m len 0 s)).

End Re.

(** ** Data model *)

(** A [JSZipObject], by what the code reads from it. *)
Record ZipEntry := mkEntry {
  dir : bool;
  uncompressedSize : option Z;     (* [entry._data?.uncompressedSize] *)
  asString : jsstring;             (* [entry.async("string")] *)
  asBytes : list Byte.byte         (* [entry.async("uint8array")] *)
}.

(** The loaded archive: [zip.forEach] visits the entries in this order. *)
Definition Archive := list (jsstring * ZipEntry).

Inductive ProjectType :=
| StaticWebsite | NodeJsProject | Vite | CreateReactApp
| NextJs | Angular | Vue | Unknown.

#[global] Instance ProjectType_eq_dec : EqDecision ProjectType.
Proof. solve_decision. Defined.

Record ManifestFile := mkFile {
  path : jsstring;
  size : Z;
  entry : ZipEntry
}.

Record IgnoredFile := mkIgnored {
  ignoredPath : jsstring;
  reason : jsstring
}.

Record ZipAnalysis := mkAnalysis {
  zip : Archive;
  fileCount : nat;
  totalSize : Z;
  projectType : ProjectType;
  files : list ManifestFile;
  warnings : list jsstring;
  ignoredFiles : list IgnoredFile
}.

Record AutoFixPatch := mkPatch {
  patchPath : jsstring;
  patchContent : jsstring;
  description : jsstring
}.

(** ** [analyzeZip] *)

Record RawFile := mkRaw {
  rawPath : jsstring;
  rawEntry : ZipEntry
}.

(** Step 1: the entries that are not directories and whose name does not
    contain the resource-fork marker. *)
Definition collectRawFiles (z : Archive) : list RawFile :=
  omap (fun '(relativePath, fileEntry) =>
          if negb (dir fileEntry) && negb (Js.includes relativePath "__MACOSX")
          then Some (mkRaw relativePath fileEntry)
          else None) z.

(** The [while] loop of step 2: the number of leading positions at which
    [first] and [last] carry the same character. *)
Fixpoint commonLength (first last : jsstring) : nat :=
  match first, last with
  | c :: first', d :: last' =>
      if Ascii.eqb c d then S (commonLength first' last') else O
  | _, _ => O
  end.

(** Step 2 on the paths of the raw files. *)
Definition detectCommonPrefix (paths : list jsstring) : jsstring :=
  match Js.sort paths with
  | [] => []
  | first :: rest =>
      let last := List.last rest first in
      let i := commonLength first last in
      let prefix := Js.substringTo first i in
      let lastSlash := Js.lastIndexOf prefix Js.slash in
      if negb (lastSlash =? -1)%Z then
        let potentialPrefix := Js.substringTo prefix (Z.to_nat (lastSlash + 1)) in
        if forallb (fun p => Js.startsWith p potentialPrefix) paths
        then potentialPrefix
        else []
      else []
  end.

Definition stripPrefix (commonPrefix p : jsstring) : jsstring :=
  if Js.truthy commonPrefix
  then Js.substringFrom p (length commonPrefix)
  else p.

Definition ignoreReasonOf (finalPath : jsstring) : jsstring :=
  if Js.includes finalPath ".DS_Store" || Js.includes finalPath "Thumbs.db"
  then "System file"
  else if Js.includes finalPath "node_modules/"
  then "Dependency folder (should be built)"
  else if Js.startsWith finalPath ".git/" then "Git metadata"
  else if Js.endsWith finalPath ".log" then "Log file"
  else if Js.endsWith finalPath ".env" then "Environment file (security risk)"
  else if Js.includes finalPath ".vscode/" || Js.includes finalPath ".idea/"
  then "Editor config"
  else "".

Definition absolutePathsWarning : jsstring :=
  "Absolute paths detected (e.g., src=" ++ [Js.dquote] ++ "/script.js"
  ++ [Js.dquote] ++ "). This breaks GitHub Pages.".

Definition missingAssetWarning (r : jsstring) : jsstring :=
  "Missing asset referenced in index.html: '" ++ r ++ "'".

(** [if (!warnings.includes(w)) warnings.push(w)] *)
Definition pushOnce (ws : list jsstring) (w : jsstring) : list jsstring :=
  if Js.arrIncludes ws w then ws else ws ++ [w].

(** The variables the loop of step 3 updates. *)
Record Scan := mkScan {
  s_files : list ManifestFile;
  s_ignoredFiles : list IgnoredFile;
  s_totalSize : Z;
  s_hasIndexHtml : bool;
  s_hasPackageJson : bool;
  s_hasDistOrBuild : bool;
  s_indexHtmlContent : jsstring;
  s_warnings : list jsstring
}.

Definition initialScan : Scan := mkScan [] [] 0 false false false [] [].

(** One iteration of the loop of step 3. *)
Definition scanFile (commonPrefix : jsstring) (st : Scan) (rf : RawFile) : Scan :=
  let finalPath := stripPrefix commonPrefix (rawPath rf) in
  let sz := default 0%Z (uncompressedSize (rawEntry rf)) in
  let ignoreReason := ignoreReasonOf finalPath in
  if Js.truthy ignoreReason then
    mkScan (s_files st)
           (s_ignoredFiles st ++ [mkIgnored finalPath ignoreReason])
           (s_totalSize st) (s_hasIndexHtml st) (s_hasPackageJson st)
           (s_hasDistOrBuild st) (s_indexHtmlContent st) (s_warnings st)
  else
    let isIndex := Js.strictEq finalPath "index.html" in
    let scanned :=
      (Js.endsWith finalPath ".html" || Js.endsWith finalPath ".css"
       || Js.endsWith finalPath ".js")
      && (sz <? 1024 * 1024)%Z
      && Re.test Re.absolutePathRegex (asString (rawEntry rf)) in
    mkScan (s_files st ++ [mkFile finalPath sz (rawEntry rf)])
           (s_ignoredFiles st)
           (s_totalSize st + sz)
           (if isIndex then true else s_hasIndexHtml st)
           (if Js.strictEq finalPath "package.json" then true
            else s_hasPackageJson st)
           (if Js.startsWith finalPath "dist/" || Js.startsWith finalPath "build/"
               || Js.startsWith finalPath "out/"
            then true else s_hasDistOrBuild st)
           (if isIndex && (sz <? 500 * 1024)%Z then asString (rawEntry rf)
            else s_indexHtmlContent st)
           (if scanned then pushOnce (s_warnings st) absolutePathsWarning
            else s_warnings st).

(** Step 4, the classification: an [if]/[else if] chain over the kept files
    and the two flags of the loop. *)
Definition classify (fs : list ManifestFile) (hasIndexHtml hasPackageJson : bool)
  : ProjectType :=
  if existsb (fun f => Js.includes (path f) "vite.config.js"
                       || Js.includes (path f) "vite.config.ts") fs
  then Vite
  else if existsb (fun f => Js.includes (path f) "next.config.js"
                            || Js.includes (path f) "next.config.mjs"
                            || Js.includes (path f) "next.config.ts") fs
  then NextJs
  else if existsb (fun f => Js.strictEq (path f) "angular.json") fs then Angular
  else if existsb (fun f => Js.includes (path f) "vue.config.js") fs then Vue
  else if hasPackageJson
          && existsb (fun f => Js.includes (path f) "react-scripts") fs
  then CreateReactApp
  else if hasIndexHtml then StaticWebsite
  else if hasPackageJson then NodeJsProject
  else Unknown.

(** The test before [continue] in the asset check. *)
Definition skippedRef (r : jsstring) : bool :=
  Js.startsWith r "http" || Js.startsWith r "//" || Js.startsWith r "#"
  || Js.startsWith r "/".

(** The two assignments to [ref] in the asset check. *)
Definition normalizeRef (r : jsstring) : jsstring :=
  let r1 := Js.splitHead (Js.splitHead r "?"%char) "#"%char in
  if Js.startsWith r1 "./" then Js.substringFrom r1 2 else r1.

(** One iteration of the asset check over the references of [index.html]. *)
Definition checkRef (fs : list ManifestFile) (ws : list jsstring) (m : Re.Ref)
  : list jsstring :=
  if skippedRef (Re.ref m) then ws
  else
    let r := normalizeRef (Re.ref m) in
    if existsb (fun f => Js.strictEq (path f) r) fs then ws
    else pushOnce ws (missingAssetWarning r).

Definition checkAssets (fs : list ManifestFile) (hasIndexHtml : bool)
    (indexHtmlContent : jsstring) (ws : list jsstring) : list jsstring :=
  if hasIndexHtml && Js.truthy indexHtmlContent
  then fold_left (checkRef fs)
         (Re.matchAll Re.refRegex Re.refLen indexHtmlContent)
         ws
  else ws.

Definition sourceUploadWarnings (hasIndexHtml hasPackageJson hasDistOrBuild : bool)
    (pt : ProjectType) (ws : list jsstring) : list jsstring :=
  if hasPackageJson && negb hasIndexHtml && bool_decide (pt = Unknown)
  then
    if hasDistOrBuild
    then ws ++ ["Found 'package.json' and 'dist/build' folder. You likely uploaded the source code. Please upload ONLY the contents of the 'dist' or 'build' folder." : jsstring]
    else ws ++ ["Detected 'package.json' but no 'index.html' at root. Are you uploading source code? You must build your project first (npm run build) and upload the output folder." : jsstring]
  else ws.

Definition nestedIndexWarnings (fs : list ManifestFile)
    (hasIndexHtml hasPackageJson : bool) (pt : ProjectType)
    (ws : list jsstring) : list jsstring :=
  if negb hasIndexHtml && negb hasPackageJson && bool_decide (pt = Unknown)
  then
    match find (fun f => Js.endsWith (path f) "/index.html") fs with
    | Some nestedIndex =>
        ws ++ ["'index.html' found at '" ++ path nestedIndex
               ++ "'. It must be at the root level. Please unzip, go into the folder, and zip the CONTENTS."]
    | None => ws ++ ["No 'index.html' found. Your site will not load." : jsstring]
    end
  else ws.

Definition analyzeZip (z : Archive) : ZipAnalysis :=
  let rawFiles := collectRawFiles z in
  let commonPrefix := detectCommonPrefix (map rawPath rawFiles) in
  let st := fold_left (scanFile commonPrefix) rawFiles initialScan in
  let pt := classify (s_files st) (s_hasIndexHtml st) (s_hasPackageJson st) in
  let w1 := checkAssets (s_files st) (s_hasIndexHtml st)
                        (s_indexHtmlContent st) (s_warnings st) in
  let w2 := sourceUploadWarnings (s_hasIndexHtml st) (s_hasPackageJson st)
                                 (s_hasDistOrBuild st) pt w1 in
  let w3 := nestedIndexWarnings (s_files st) (s_hasIndexHtml st)
                                (s_hasPackageJson st) pt w2 in
  mkAnalysis z (length (s_files st)) (s_totalSize st) pt (s_files st) w3
             (s_ignoredFiles st).

(** ** [fixAbsolutePaths] *)

(** [TextEncoder.encode] on code units of the 8-bit range. *)
Definition utf8 (s : jsstring) : list Byte.byte :=
  flat_map (fun c =>
              let n := N_of_ascii c in
              if (n <? 128)%N then [byte_of_ascii c]
              else [byte_of_ascii (ascii_of_N (192 + n / 64));
                    byte_of_ascii (ascii_of_N (128 + n mod 64))]) s.

(** [newZip.file(path, content)] read back with [newZip.file(path)]: a file
    entry that holds [content] and carries no recorded size. *)
Definition newEntry (content : jsstring) : ZipEntry :=
  mkEntry false None content (utf8 content).

(** The extension test of [fixAbsolutePaths]: the path ends, in any case,
    with one of the three extensions. *)
Definition hasFixableExtension (p : jsstring) : bool :=
  Js.startsWithCI (rev p) (rev (".html" : jsstring))
  || Js.startsWithCI (rev p) (rev (".css" : jsstring))
  || Js.startsWithCI (rev p) (rev (".js" : jsstring)).

(** The callback of [content.replace]. *)
Definition rewriteRef (m : Re.AbsRef) : jsstring :=
  let quote := if Js.includes (Re.matched m) [Js.dquote]
               then Js.dquote else Js.squote in
  Re.attr m ++ "=" ++ [quote] ++ "./" ++ Re.refPath m ++ [quote].

Definition fixLen (m : Re.AbsRef) : nat := length (Re.matched m).

(** The body of the [map] callback once the content is read: the new
    content and the [modified] flag, which the replace callback sets on
    every call. *)
Definition fixContent (content : jsstring) : jsstring * bool :=
  if Re.test Re.fixRegex content
  then (Re.replace Re.fixRegex fixLen rewriteRef content,
        match Re.matchAll Re.fixRegex fixLen content with
        | [] => false
        | _ :: _ => true
        end)
  else (content, false).

Definition fixFile (file : ManifestFile) : ManifestFile :=
  if negb (hasFixableExtension (path file)) then file
  else if (size file >? 1024 * 1024)%Z then file
  else
    let '(content, modified) := fixContent (asString (entry file)) in
    if modified
    then mkFile (path file) (Z.of_nat (length content)) (newEntry content)
    else file.

Definition fixAbsolutePaths (analysis : ZipAnalysis) : ZipAnalysis :=
  let newFiles := map fixFile (files analysis) in
  let newWarnings :=
    filter (fun w => negb (Js.includes w "Absolute paths detected"))
           (warnings analysis) in
  mkAnalysis (zip analysis) (fileCount analysis) (totalSize analysis)
             (projectType analysis) newFiles newWarnings
             (ignoredFiles analysis).

(** ** Deployment: events, errors and the trace of a run *)

Inductive StatusType := info | success | error.

#[global] Instance StatusType_eq_dec : EqDecision StatusType.
Proof. solve_decision. Defined.

Record DeployStatus := mkStatus {
  step : jsstring;
  details : option jsstring;
  type : StatusType;
  progress : option Z
}.

(** A thrown value: the HTTP status of a failed request when it has one, and
    the message. *)
Record JsError := mkError {
  status : option Z;
  message : option jsstring
}.

Inductive Outcome (A : Type) :=
| Threw (e : JsError)
| Returned (a : A).
Arguments Threw {A} e.
Arguments Returned {A} a.

Record TreeItem := mkTreeItem {
  itemPath : jsstring;
  itemMode : jsstring;
  itemType : jsstring;
  itemSha : jsstring
}.

(** The requests of the two backends, with the parameters the code sets. *)
Inductive Request :=
| GetAuthenticated
| CreateForAuthenticatedUser (name descr : jsstring) (private autoInit : bool)
| ReposGet (owner repo : jsstring)
| GetRef (owner repo ref : jsstring)
| GetCommit (owner repo commitSha : jsstring)
| CreateBlob (owner repo : jsstring) (content : list Byte.byte)
| CreateTree (owner repo : jsstring) (tree : list TreeItem)
    (baseTree : option jsstring)
| CreateCommit (owner repo msg tree : jsstring) (parents : option (list jsstring))
| UpdateRef (owner repo ref sha : jsstring) (force : bool)
| CreatePagesSite (owner repo branch sourcePath : jsstring)
| GetPages (owner repo : jsstring)
| CreateVersion (siteId : jsstring)
| PopulateFiles (versionName : jsstring) (filesByPath : gmap jsstring jsstring)
| UploadFile (uploadUrl : option jsstring) (content : option (list Byte.byte))
| FinalizeVersion (versionName : jsstring)
| CreateRelease (siteId versionName : jsstring).

Inductive Action :=
| Emit (s : DeployStatus)      (* [onStatus(s)] *)
| Send (r : Request)           (* a request leaves *)
| Wait (ms : Z).               (* [setTimeout] awaited *)

(** A run: what was done, in order, and how it ended. *)
Definition Run (A : Type) : Type := list Action * Outcome A.

#[global] Instance Run_ret : MRet Run := fun A a => ([], Returned a).

#[global] Instance Run_bind : MBind Run := fun A B k m =>
  match m with
  | (tr, Threw e) => (tr, Threw e)
  | (tr, Returned a) => let '(tr', r) := k a in (tr ++ tr', r)
  end.

Definition throw {A : Type} (e : JsError) : Run A := ([], Threw e).

Definition onStatus (s : DeployStatus) : Run unit := ([Emit s], Returned tt).

Definition send {A : Type} (r : Request) (answer : Outcome A) : Run A :=
  ([Send r], answer).

Definition wait (ms : Z) : Run unit := ([Wait ms], Returned tt).

(** [try { m } catch (e) { h(e) }] *)
Definition tryCatch {A : Type} (m : Run A) (h : JsError -> Run A) : Run A :=
  match m with
  | (tr, Threw e) => let '(tr', r) := h e in (tr ++ tr', r)
  | (tr, Returned a) => (tr, Returned a)
  end.

(** [Promise.all(tasks)]: the join fulfils with all results or rejects with
    the error of a task that rejects, while the other tasks run on to their
    end.  The trace lists the actions of the tasks one after the other and
    before what follows the join, and of several rejections the first in
    list order is taken.  The tasks of the code hand nothing to the sink and
    send requests of one step only, so the sequence of events and the steps
    of the requests, which the statements below are about, are those of
    every interleaving. *)
Fixpoint promiseAll {A : Type} (tasks : list (Run A)) : Run (list A) :=
  match tasks with
  | [] => ([], Returned [])
  | (tr, r) :: tasks' =>
      let '(tr', rs) := promiseAll tasks' in
      (tr ++ tr',
       match r, rs with
       | Threw e, _ => Threw e
       | Returned _, Threw e => Threw e
       | Returned a, Returned l => Returned (a :: l)
       end)
  end.

(** A [for] loop whose body may throw. *)
Fixpoint forEach {A : Type} (l : list A) (body : A -> Run unit) : Run unit :=
  match l with
  | [] => mret tt
  | x :: l' => body x ;; forEach l' body
  end.

(** The values [i] of [for (let i = 0; i < n; i += BATCH_SIZE)]. *)
Definition batchStarts (batchSize n : nat) : list nat :=
  map (fun k => k * batchSize) (seq 0 (Nat.div (n + (batchSize - 1)) batchSize)).

(** [arr.slice(i, i + BATCH_SIZE)] *)
Definition slice {A : Type} (l : list A) (i j : nat) : list A :=
  take (j - i) (drop i l).

Definition events (tr : list Action) : list DeployStatus :=
  omap (fun a => match a with Emit s => Some s | _ => None end) tr.

Definition requests (tr : list Action) : list Request :=
  omap (fun a => match a with Send r => Some r | _ => None end) tr.

Definition isError (s : DeployStatus) : bool := bool_decide (type s = error).

(** ** [deployZipToGitHub] *)

(** What the provider answers to each request of one deployment.  A blob
    request is identified by the position of its file in the upload list and
    by the number of earlier attempts for that file. *)
Record GitHub := mkGitHub {
  getAuthenticated : Outcome jsstring;             (* [user.login] *)
  createForAuthenticatedUser : Outcome jsstring;   (* [repo.default_branch] *)
  reposGet : Outcome jsstring;                     (* [repo.default_branch] *)
  getRef : Outcome jsstring;                       (* [refData.object.sha] *)
  getCommit : Outcome jsstring;                    (* [commitData.tree.sha] *)
  createBlob : nat -> nat -> Outcome jsstring;     (* [blob.sha] *)
  createTree : Outcome jsstring;                   (* [tree.sha] *)
  createCommit : Outcome jsstring;                 (* [newCommit.sha] *)
  updateRef : Outcome unit;
  createPagesSite : Outcome (option jsstring);     (* [pages.html_url] *)
  getPages : Outcome (option jsstring)             (* [existingPages.html_url] *)
}.

Record Upload := mkUpload {
  upPath : jsstring;
  upContent : list Byte.byte;
  upMode : jsstring
}.

(** One iteration of the patch loop: [findIndex] by path, then either the
    content of the entry found is overwritten or a new entry is pushed. *)
Definition applyPatch (filesToUpload : list Upload) (patch : AutoFixPatch)
  : list Upload :=
  let content := utf8 (patchContent patch) in
  match list_find (fun f => upPath f = patchPath patch) filesToUpload with
  | Some (existingIndex, _) =>
      alter (fun f => mkUpload (upPath f) content (upMode f))
            existingIndex filesToUpload
  | None => filesToUpload ++ [mkUpload (patchPath patch) content "100644"]
  end.

(** Step 3 without its events: the list [filesToUpload] when the blob phase
    starts. *)
Definition prepareFiles (analysis : ZipAnalysis)
    (customDomain : option jsstring) (patches : option (list AutoFixPatch))
  : list Upload :=
  let fromAnalysis :=
    map (fun file => mkUpload (path file) (asBytes (entry file)) "100644")
        (files analysis) in
  let patched :=
    match patches with
    | Some (p :: ps) => fold_left applyPatch (p :: ps) fromAnalysis
    | _ => fromAnalysis
    end in
  match customDomain with
  | Some (c :: d) => patched ++ [mkUpload "CNAME" (utf8 (c :: d)) "100644"]
  | _ => patched
  end.

Definition quoted (s : jsstring) : jsstring := [Js.dquote] ++ s ++ [Js.dquote].

Definition statusOf (s : jsstring) (t : StatusType) : DeployStatus :=
  mkStatus s None t None.

Section Deploy.

(** [Math.round((k / n) * 100)], computed by the platform in floating
    point. *)
Variable percent : nat -> nat -> Z.

(** [crypto.subtle.digest("SHA-256", content)] rendered in hexadecimal. *)
Variable calculateSHA256 : list Byte.byte -> jsstring.

(** The retry loop around one blob: [retries] is the loop variable,
    [attempt] counts the requests already made for this file. *)
Fixpoint uploadBlob (api : GitHub) (owner repoName : jsstring) (idx : nat)
    (file : Upload) (retries attempt : nat) : Run (option TreeItem) :=
  match retries with
  | O => mret None
  | S retries' =>
      tryCatch
        (sha ← send (CreateBlob owner repoName (upContent file))
                    (createBlob api idx attempt);
         mret (Some (mkTreeItem (upPath file) (upMode file) "blob" sha)))
        (fun err =>
           match retries' with
           | O => throw err
           | S _ =>
               wait 1000;;
               uploadBlob api owner repoName idx file retries' (S attempt)
           end)
  end.

(** Step 5: the batches, one after the other, with a progress event after
    each; the result is [treeItems]. *)
Fixpoint uploadBatches (api : GitHub) (owner repoName : jsstring)
    (filesToUpload : list Upload) (starts : list nat) : Run (list TreeItem) :=
  match starts with
  | [] => mret []
  | i :: starts' =>
      let n := length filesToUpload in
      let batch := slice filesToUpload i (i + 5) in
      pushed ← promiseAll
                 (imap (fun k file =>
                          uploadBlob api owner repoName (i + k) file 3 0)
                       batch);
      onStatus (mkStatus
                  ("Uploaded " ++ Js.ofNat (Nat.min (i + 5) n) ++ "/"
                   ++ Js.ofNat n ++ " files...")
                  None info (Some (percent (Nat.min (i + 5) n) n)));;
      others ← uploadBatches api owner repoName filesToUpload starts';
      mret (omap id pushed ++ others)
  end.

(** Step 2: create the repository, or fetch it when the name is taken. *)
Definition setUpRepository (api : GitHub) (owner repoName descr : jsstring)
    (isPrivate : bool) : Run jsstring :=
  tryCatch
    (defaultBranch ← send (CreateForAuthenticatedUser repoName
                             (Js.orElse (Some descr) "Deployed via ZipToRepo")
                             isPrivate true)
                          (createForAuthenticatedUser api);
     onStatus (statusOf "Repository created successfully." success);;
     mret defaultBranch)
    (fun err =>
       if bool_decide (status err = Some 422%Z)
       then
         onStatus (statusOf ("Repository " ++ quoted repoName
                             ++ " already exists. Fetching details...") info);;
         send (ReposGet owner repoName) (reposGet api)
       else throw err).

(** Step 4: the head commit and its tree; any failure means a fresh start
    with what was read so far. *)
Definition readHead (api : GitHub) (owner repoName defaultBranch : jsstring)
  : Run (jsstring * jsstring) :=
  let fresh :=
    onStatus (statusOf "No existing commit found. Starting fresh..." info) in
  tryCatch
    (latestCommitSha ← send (GetRef owner repoName ("heads/" ++ defaultBranch))
                            (getRef api);
     tryCatch
       (baseTreeSha ← send (GetCommit owner repoName latestCommitSha)
                           (getCommit api);
        mret (latestCommitSha, baseTreeSha))
       (fun _ => fresh;; mret (latestCommitSha, [])))
    (fun _ => fresh;; mret ([], [])).

(** Step 9: enable Pages; the result is [pagesUrl]. *)
Definition enablePages (api : GitHub) (owner repoName defaultBranch : jsstring)
  : Run jsstring :=
  let pagesUrl := "https://" ++ owner ++ ".github.io/" ++ repoName ++ "/" in
  tryCatch
    (pages ← send (CreatePagesSite owner repoName defaultBranch "/")
                  (createPagesSite api);
     onStatus (statusOf "GitHub Pages enabled successfully!" success);;
     mret (Js.orElse pages pagesUrl))
    (fun err =>
       if bool_decide (status err = Some 409%Z)
       then
         onStatus (statusOf "GitHub Pages already enabled." info);;
         tryCatch
           (existingPages ← send (GetPages owner repoName) (getPages api);
            mret (Js.orElse existingPages pagesUrl))
           (fun _ => mret pagesUrl)
       else
         onStatus (statusOf
                     "Could not auto-enable Pages (Check Settings manually)."
                     info);;
         mret pagesUrl).

(** The outer [catch]: one error event, then the error is thrown again. *)
Definition reportFailure {A : Type} (err : JsError) : Run A :=
  onStatus (mkStatus "Deployment failed"
              (Some (Js.orElse (message err) "Unknown error occurred"))
              error None);;
  throw err.

Definition deployZipToGitHub (api : GitHub) (token repoName descr : jsstring)
    (isPrivate : bool) (analysis : ZipAnalysis)
    (customDomain : option jsstring) (patches : option (list AutoFixPatch))
  : Run jsstring :=
  tryCatch
    (onStatus (statusOf "Authenticating..." info);;
     owner ← send GetAuthenticated (getAuthenticated api);
     onStatus (statusOf ("Authenticated as " ++ owner) success);;
     onStatus (statusOf ("Setting up repository " ++ quoted repoName ++ "...")
                        info);;
     defaultBranch ← setUpRepository api owner repoName descr isPrivate;
     onStatus (statusOf "Preparing files from analysis..." info);;
     match patches with
     | Some (p :: ps) =>
         onStatus (statusOf ("Applying " ++ Js.ofNat (length (p :: ps))
                             ++ " auto-fixes...") info)
     | _ => mret tt
     end;;
     match customDomain with
     | Some (c :: d) =>
         onStatus (statusOf ("Adding CNAME for " ++ (c :: d) ++ "...") info)
     | _ => mret tt
     end;;
     let filesToUpload := prepareFiles analysis customDomain patches in
     onStatus (statusOf ("Prepared " ++ Js.ofNat (length filesToUpload)
                         ++ " files for upload.") info);;
     '(latestCommitSha, baseTreeSha) ← readHead api owner repoName defaultBranch;
     onStatus (statusOf "Uploading files..." info);;
     treeItems ← uploadBatches api owner repoName filesToUpload
                   (batchStarts 5 (length filesToUpload));
     onStatus (statusOf "Creating file tree..." info);;
     tree ← send (CreateTree owner repoName treeItems
                    (if Js.truthy baseTreeSha then Some baseTreeSha else None))
                 (createTree api);
     onStatus (statusOf "Creating commit..." info);;
     newCommit ← send (CreateCommit owner repoName
                         "Deploy project via ZipToRepo" tree
                         (if Js.truthy latestCommitSha
                          then Some [latestCommitSha] else None))
                      (createCommit api);
     onStatus (statusOf "Updating repository reference..." info);;
     send (UpdateRef owner repoName ("heads/" ++ defaultBranch) newCommit true)
          (updateRef api);;
     onStatus (statusOf "Enabling GitHub Pages..." info);;
     wait 2000;;
     pagesUrl ← enablePages api owner repoName defaultBranch;
     onStatus (mkStatus "Deployment complete!" (Some pagesUrl) success None);;
     mret pagesUrl)
    reportFailure.

(** ** [deployZipToFirebase] *)

(** The parsed body of a response, by the fields the code reads. *)
Record Body := mkBody {
  errorMessage : option jsstring;                  (* [err.error?.message] *)
  name : option jsstring;
  uploadUrlMap : option (gmap jsstring jsstring);
  uploadRequiredHashes : option (list jsstring)
}.

(** A response of [fetch]. *)
Record Response := mkResponse {
  ok : bool;
  statusText : jsstring;
  json : Outcome Body                              (* [res.json()] *)
}.

(** What the provider answers to each request of one deployment; [fetch]
    itself may reject.  An upload is identified by the position of its hash
    in the list of required hashes. *)
Record Firebase := mkFirebase {
  createVersion : Outcome Response;
  populateFiles : Outcome Response;
  uploadFile : nat -> Outcome Response;
  finalizeVersion : Outcome Response;
  createRelease : Outcome Response
}.

(** [new Error(msg)] *)
Definition newError (msg : jsstring) : JsError := mkError None (Some msg).

(** The error of calling a method on [undefined]. *)
Definition typeError : JsError :=
  mkError None (Some ("Cannot read properties of undefined" : jsstring)).

(** [if (!res.ok) { const err = await res.json(); throw new Error(...) }] *)
Definition ensureOk (what : jsstring) (res : Response) : Run unit :=
  if ok res then mret tt
  else
    err ← (([], json res) : Run Body);
    throw (newError (what ++ Js.orElse (errorMessage err) (statusText res))).

(** [s.split("/").pop()]: the part of [s] behind its last slash. *)
Definition lastSegment (s : jsstring) : jsstring :=
  Js.substringFrom s (Z.to_nat (Js.lastIndexOf s Js.slash + 1)).

(** Step 3: the two indexes, filled file by file. *)
Definition hashFiles (fs : list ManifestFile)
  : gmap jsstring jsstring * gmap jsstring (list Byte.byte) :=
  fold_left
    (fun '(filesByPath, contentByHash) file =>
       let cleanPath :=
         if Js.startsWith (path file) "/"
         then Js.substringFrom (path file) 1 else path file in
       let content := asBytes (entry file) in
       let hash := calculateSHA256 content in
       (<[cleanPath := hash]> filesByPath, <[hash := content]> contentByHash))
    fs (∅, ∅).

(** Step 5: the batches of required uploads, with a progress event after
    each. *)
Definition uploadRequired (api : Firebase)
    (contentByHash : gmap jsstring (list Byte.byte))
    (urls : gmap jsstring jsstring) (requiredHashes : list jsstring)
  : Run unit :=
  let n := length requiredHashes in
  forEach (batchStarts 5 n)
    (fun i =>
       let batch := slice requiredHashes i (i + 5) in
       promiseAll
         (imap (fun k hash =>
                  uploadRes ← send (UploadFile (urls !! hash)
                                               (contentByHash !! hash))
                                   (uploadFile api (i + k));
                  if ok uploadRes then mret tt
                  else throw (newError ("Failed to upload file with hash "
                                        ++ hash)))
               batch);;
       onStatus (mkStatus
                   ("Uploaded " ++ Js.ofNat (Nat.min (i + 5) n) ++ "/"
                    ++ Js.ofNat n ++ " files...")
                   None info (Some (percent (Nat.min (i + 5) n) n)))).

Definition deployZipToFirebase (api : Firebase) (token siteId : jsstring)
    (analysis : ZipAnalysis) : Run jsstring :=
  tryCatch
    (onStatus (statusOf "Creating new version..." info);;
     versionRes ← send (CreateVersion siteId) (createVersion api);
     ensureOk "Failed to create version: " versionRes;;
     versionData ← (([], json versionRes) : Run Body);
     versionName ← match name versionData with
                   | Some v => mret v
                   | None => throw typeError
                   end;
     onStatus (statusOf ("Version created: " ++ lastSegment versionName)
                        success);;
     onStatus (statusOf "Calculating file hashes..." info);;
     let '(filesByPath, contentByHash) := hashFiles (files analysis) in
     onStatus (statusOf "Registering files..." info);;
     populateRes ← send (PopulateFiles versionName filesByPath)
                        (populateFiles api);
     ensureOk "Failed to populate files: " populateRes;;
     populateData ← (([], json populateRes) : Run Body);
     let urls := default ∅ (uploadUrlMap populateData) in
     let requiredHashes := default [] (uploadRequiredHashes populateData) in
     match requiredHashes with
     | _ :: _ =>
         onStatus (statusOf ("Uploading " ++ Js.ofNat (length requiredHashes)
                             ++ " new files...") info);;
         uploadRequired api contentByHash urls requiredHashes
     | [] => onStatus (statusOf "All files already exist on Firebase." info)
     end;;
     onStatus (statusOf "Finalizing version..." info);;
     finalizeRes ← send (FinalizeVersion versionName) (finalizeVersion api);
     ensureOk "Failed to finalize version: " finalizeRes;;
     onStatus (statusOf "Releasing to live..." info);;
     releaseRes ← send (CreateRelease siteId versionName) (createRelease api);
     ensureOk "Failed to release: " releaseRes;;
     let defaultUrl := "https://" ++ siteId ++ ".web.app" in
     onStatus (mkStatus "Deployment complete!" (Some defaultUrl) success None);;
     mret defaultUrl)
    reportFailure.

End Deploy.

(** ** The specification's wording, for comparison with the code *)

(** The ordered rules of the classifier: a signal over the kept files and
    the type it selects. *)
Definition hasRootFile (nm : jsstring) (fs : list ManifestFile) : bool :=
  existsb (fun f => Js.strictEq (path f) nm) fs.

Definition hasViteConfig (fs : list ManifestFile) : bool :=
  existsb (fun f => Js.includes (path f) "vite.config.js"
                    || Js.includes (path f) "vite.config.ts") fs.

Definition hasNextConfig (fs : list ManifestFile) : bool :=
  existsb (fun f => Js.includes (path f) "next.config.js"
                    || Js.includes (path f) "next.config.mjs"
                    || Js.includes (path f) "next.config.ts") fs.

Definition hasAngularWorkspace (fs : list ManifestFile) : bool :=
  hasRootFile "angular.json" fs.

Definition hasVueConfig (fs : list ManifestFile) : bool :=
  existsb (fun f => Js.includes (path f) "vue.config.js") fs.

Definition hasCraFingerprint (fs : list ManifestFile) : bool :=
  existsb (fun f => Js.includes (path f) "react-scripts") fs.

Definition decisionList : list ((list ManifestFile -> bool) * ProjectType) :=
  [ (hasViteConfig, Vite);
    (hasNextConfig, NextJs);
    (hasAngularWorkspace, Angular);
    (hasVueConfig, Vue);
    (fun fs => hasRootFile "package.json" fs && hasCraFingerprint fs,
     CreateReactApp);
    (hasRootFile "index.html", StaticWebsite);
    (hasRootFile "package.json", NodeJsProject) ].

(** First match wins; [Unknown] when no rule applies. *)
Fixpoint firstMatch (rules : list ((list ManifestFile -> bool) * ProjectType))
    (fs : list ManifestFile) : ProjectType :=
  match rules with
  | [] => Unknown
  | (signal, t) :: rules' => if signal fs then t else firstMatch rules' fs
  end.

(** The sum of the [size] fields of a manifest. *)
Definition sumSizes (fs : list ManifestFile) : Z :=
  foldr (fun f acc => (size f + acc)%Z) 0%Z fs.

(** The content of the root [index.html] that the analysis keeps for the
    asset check: that of the last kept file of that name below 500 KB, and
    the empty string when there is none. *)
Definition capturedIndexHtml (fs : list ManifestFile) : jsstring :=
  fold_left (fun acc f =>
               if Js.strictEq (path f) "index.html" && (size f <? 500 * 1024)%Z
               then asString (entry f) else acc) fs [].

(** A kept file on which the absolute-path test of the loop fires. *)
Definition flaggedAbsolute (f : ManifestFile) : bool :=
  (Js.endsWith (path f) ".html" || Js.endsWith (path f) ".css"
   || Js.endsWith (path f) ".js")
  && (size f <? 1024 * 1024)%Z
  && Re.test Re.absolutePathRegex (asString (entry f)).

(** What the loop of step 3 maintains between its variables. *)
Record ScanInv (st : Scan) : Prop := mkScanInv {
  inv_index : s_hasIndexHtml st = hasRootFile "index.html" (s_files st);
  inv_package : s_hasPackageJson st = hasRootFile "package.json" (s_files st);
  inv_total : s_totalSize st = sumSizes (s_files st);
  inv_captured : s_indexHtmlContent st = capturedIndexHtml (s_files st);
  inv_warnings : s_warnings st =
                 if existsb flaggedAbsolute (s_files st)
                 then [absolutePathsWarning] else []
}.

(** A URL with a scheme: a letter, then letters, digits, plus, minus or
    dot, then a colon. *)
Definition isSchemeChar (c : ascii) : bool :=
  let n := nat_of_ascii (Js.toUpper c) in
  ((65 <=? n)%nat && (n <=? 90)%nat)
  || ((48 <=? nat_of_ascii c)%nat && (nat_of_ascii c <=? 57)%nat)
  || Ascii.eqb c "+" || Ascii.eqb c "-" || Ascii.eqb c ".".

Fixpoint schemeRest (s : jsstring) : bool :=
  match s with
  | [] => false
  | c :: s' => Ascii.eqb c ":" || (isSchemeChar c && schemeRest s')
  end.

Definition isAbsoluteUrl (r : jsstring) : bool :=
  match r with
  | c :: r' =>
      let n := nat_of_ascii (Js.toUpper c) in
      (65 <=? n)%nat && (n <=? 90)%nat && schemeRest r'
  | [] => false
  end.

(** The references the asset check passes over, in the specification's
    words: absolute URLs, protocol-relative URLs, fragment-only references
    and root-absolute references. *)
Definition skippedBySpec (r : jsstring) : bool :=
  isAbsoluteUrl r || Js.startsWith r "//" || Js.startsWith r "#"
  || Js.startsWith r "/".

(** The asset check in the specification's words: every reference of the
    captured [index.html] that is not passed over and names no manifest file
    is warned about by name. *)
Definition warnsEveryMissingAsset (z : Archive) : Prop :=
  forall m,
    In m (Re.matchAll Re.refRegex Re.refLen
            (capturedIndexHtml (files (analyzeZip z)))) ->
    skippedBySpec (Re.ref m) = false ->
    hasRootFile (normalizeRef (Re.ref m)) (files (analyzeZip z)) = false ->
    In (missingAssetWarning (normalizeRef (Re.ref m)))
       (warnings (analyzeZip z)).

(** ** Example inputs *)

(** An entry of a text file, its recorded size being its length. *)
Definition textEntry (s : jsstring) : ZipEntry :=
  mkEntry false (Some (Z.of_nat (length s))) s (utf8 s).

(** An archive with a Vite config and an Angular workspace file. *)
Definition viteAngularArchive : Archive :=
  [ ("app/vite.config.ts" : jsstring, textEntry "export default {}");
    ("app/angular.json" : jsstring, textEntry "{}");
    ("app/package.json" : jsstring, textEntry "{}") ].

(** A page with one root-absolute script reference. *)
Definition absolutePage : jsstring :=
  "<script src=" ++ quoted "/app.js" ++ "></script>".

Definition onePageArchive : Archive :=
  [ ("index.html" : jsstring, textEntry absolutePage) ].

(** Fifty pages, each with a root-absolute reference. *)
Definition fiftyPages : Archive :=
  map (fun k => ("page" ++ Js.ofNat k ++ ".html",
                 textEntry ("<img src=" ++ quoted "/x" ++ ">")))
      (seq 0 50).

(** A root page that refers to a missing style sheet and to a script on
    another host. *)
Definition assetArchive : Archive :=
  [ ("index.html" : jsstring,
     textEntry ("<link href=" ++ quoted "css/app.css" ++ "><script src="
                ++ quoted "https://cdn.example/x.js" ++ "></script>")) ].

(** A root page that refers to a missing relative file whose name starts
    with http, and to a mail address. *)
Definition httpdArchive : Archive :=
  [ ("index.html" : jsstring,
     textEntry ("<script src=" ++ quoted "httpd.js" ++ "></script><a href="
                ++ quoted "mailto:team@example.org" ++ ">")) ].

(** ** The shape of a match of the fix pattern *)

(** Equality of two strings up to the case of letters. *)
Definition eqStrCI (u t : jsstring) : bool :=
  (length u =? length t)%nat && Js.startsWithCI u t.

(** [s] ends with [t] up to case: some suffix of [s] equals [t] up to
    case. *)
Fixpoint endsWithCI (s t : jsstring) : bool :=
  eqStrCI s t ||
  match s with
  | [] => false
  | _ :: s' => endsWithCI s' t
  end.

(** An attribute name of the pattern followed by the equals sign. *)
Definition isAttrEq (u : jsstring) : bool :=
  eqStrCI u "src=" || eqStrCI u "href=".

Definition hasQuote (w : jsstring) : bool :=
  match snd (Js.spanNonQuote w) with
  | [] => false
  | _ :: _ => true
  end.

(** The fix pattern matches at the head of [s]: the characters before the
    first quote are an attribute name and the equals sign, a slash follows
    the quote, no second slash follows, and there is a later quote. *)
Definition matchesAtHead (s : jsstring) : bool :=
  let '(u, v) := Js.spanNonQuote s in
  isAttrEq u
  && match v with
     | _ :: sl :: w =>
         Ascii.eqb sl Js.slash && negb (Js.startsWith w "/") && hasQuote w
     | _ => false
     end.

(** A content is stable under the fix when no captured path of its matches
    ends, up to case, with an attribute name and the equals sign. *)
Definition stablePath (p : jsstring) : bool :=
  negb (endsWithCI p "src=") && negb (endsWithCI p "href=").

Definition stableRefs (content : jsstring) : bool :=
  forallb (fun m => stablePath (Re.refPath m))
          (Re.matchAll Re.fixRegex fixLen content).

(** The files whose content [fixAbsolutePaths] reads. *)
Definition readByFix (f : ManifestFile) : bool :=
  hasFixableExtension (path f) && negb (size f >? 1024 * 1024)%Z.

(** A page on which the path of the first reference ends with an attribute
    name and the rest of the text continues like a reference. *)
Definition unstablePage : jsstring :=
  "src=" ++ quoted "/xsrc=" ++ "/y" ++ [Js.dquote].

Definition unstableArchive : Archive :=
  [ ("index.html" : jsstring, textEntry unstablePage) ].

Definition nonQuote (c : ascii) : Prop := Js.isQuote c = false.

(** A character that a letter of the pattern matches is neither a quote nor
    a slash nor a dot. *)
Definition plain (d : ascii) : Prop :=
  Js.isQuote d = false /\ d <> Js.slash /\ d <> "."%char.

(** The content after the replacement of [fixAbsolutePaths]. *)
Definition fixed (s : jsstring) : jsstring :=
  Re.replace Re.fixRegex fixLen rewriteRef s.

(** ** The upload list in the specification's words *)

(** The patch that decides a path: the last one of the list for it. *)
Definition patchFor (q : jsstring) (ps : list AutoFixPatch) : option AutoFixPatch :=
  last (filter (fun p => patchPath p = q) ps).

(** An entry under the patches: the content of the deciding patch when
    there is one for its path. *)
Definition overlay (ps : list AutoFixPatch) (u : Upload) : Upload :=
  match patchFor (upPath u) ps with
  | Some p => mkUpload (upPath u) (utf8 (patchContent p)) (upMode u)
  | None => u
  end.

(** The paths of the patches that are not among [seen], each once, in the
    order of their first patch. *)
Fixpoint newPaths (seen : list jsstring) (ps : list AutoFixPatch) : list jsstring :=
  match ps with
  | [] => []
  | p :: ps' =>
      if bool_decide (patchPath p ∈ seen) then newPaths seen ps'
      else patchPath p :: newPaths (patchPath p :: seen) ps'
  end.

(** Manifest entries overridden in place, then the new files. *)
Definition overlaySpec (base : list Upload) (ps : list AutoFixPatch) : list Upload :=
  map (overlay ps) base
  ++ map (fun q => overlay ps (mkUpload q [] "100644"))
         (newPaths (map upPath base) ps).

Definition manifestUploads (analysis : ZipAnalysis) : list Upload :=
  map (fun file => mkUpload (path file) (asBytes (entry file)) "100644")
      (files analysis).

(** The custom-domain marker file, when a domain is given. *)
Definition cnameEntry (customDomain : option jsstring) : list Upload :=
  match customDomain with
  | Some (c :: d) => [mkUpload "CNAME" (utf8 (c :: d)) "100644"]
  | _ => []
  end.

Definition preparedSpec (analysis : ZipAnalysis)
    (customDomain : option jsstring) (patches : option (list AutoFixPatch))
  : list Upload :=
  overlaySpec (manifestUploads analysis) (default [] patches)
  ++ cnameEntry customDomain.

(** A manifest of two files, a patch for one of them and a patch for a new
    file. *)
Definition twoFileAnalysis : ZipAnalysis :=
  mkAnalysis [] 2 9 StaticWebsite
    [ mkFile "index.html" 6 (textEntry "<html>");
      mkFile "a.css" 3 (textEntry "a{}") ]
    [] [].

Definition twoPatches : list AutoFixPatch :=
  [ mkPatch "a.css" "b{}" "restyle";
    mkPatch ".github/workflows/deploy.yml" "name: Deploy" "workflow" ].

(** ** Phases and the failure rule of the two backends *)

Definition isThrew {A : Type} (o : Outcome A) : bool :=
  match o with Threw _ => true | Returned _ => false end.

Definition isReturned {A : Type} (o : Outcome A) : bool :=
  match o with Threw _ => false | Returned _ => true end.

(** The step of the code a request belongs to, by the numbered comments of
    the two deployment functions. *)
Definition phaseOf (r : Request) : nat :=
  match r with
  | GetAuthenticated => 1
  | CreateForAuthenticatedUser _ _ _ _ | ReposGet _ _ => 2
  | GetRef _ _ _ | GetCommit _ _ _ => 4
  | CreateBlob _ _ _ => 5
  | CreateTree _ _ _ _ => 6
  | CreateCommit _ _ _ _ _ => 7
  | UpdateRef _ _ _ _ _ => 8
  | CreatePagesSite _ _ _ _ | GetPages _ _ => 9
  | CreateVersion _ => 2
  | PopulateFiles _ _ => 4
  | UploadFile _ _ => 5
  | FinalizeVersion _ => 6
  | CreateRelease _ _ => 7
  end.

(** An action of a run that stays within step [k] and reports no error. *)
Definition okAction (k : nat) (a : Action) : Prop :=
  match a with
  | Emit s => type s <> error
  | Send r => phaseOf r <= k
  | Wait _ => True
  end.

Definition Within {A : Type} (k : nat) (m : Run A) : Prop :=
  Forall (okAction k) (fst m).

(** A run that throws without a request beyond step [k] and without an
    error event of its own. *)
Definition Aborts {A : Type} (k : nat) (m : Run A) : Prop :=
  isThrew (snd m) = true /\ Within k m.

(** A run that returns without an error event. *)
Definition Completes {A : Type} (m : Run A) : Prop :=
  isReturned (snd m) = true /\ Within 9 m.

(** The event of the outer [catch]. *)
Definition failureEvent (err : JsError) : DeployStatus :=
  mkStatus "Deployment failed"
    (Some (Js.orElse (message err) "Unknown error occurred")) error None.

Definition errorCount (tr : list Action) : nat :=
  length (List.filter isError (events tr)).

(** The repository step fails: creation is refused for another reason than
    a taken name, or the name is taken and the repository cannot be read. *)
Definition repositoryFails (api : GitHub) : bool :=
  match createForAuthenticatedUser api with
  | Returned _ => false
  | Threw e =>
      if bool_decide (status e = Some 422%Z) then isThrew (reposGet api)
      else true
  end.

(** One of the three attempts for the blob of file [idx] succeeds. *)
Definition blobOk (api : GitHub) (idx : nat) : bool :=
  isReturned (createBlob api idx 0) || isReturned (createBlob api idx 1)
  || isReturned (createBlob api idx 2).

Definition allBlobsOk (api : GitHub) (n : nat) : bool :=
  forallb (blobOk api) (seq 0 n).

(** The first step of the Git backend that ends the deployment, if any, for
    [n] files to upload.  Reading the head commit and enabling Pages are not
    among them. *)
Definition gitHubFatalStep (api : GitHub) (n : nat) : option nat :=
  if isThrew (getAuthenticated api) then Some 1
  else if repositoryFails api then Some 2
  else if negb (allBlobsOk api n) then Some 5
  else if isThrew (createTree api) then Some 6
  else if isThrew (createCommit api) then Some 7
  else if isThrew (updateRef api) then Some 8
  else None.







(** ** Example providers *)

(** Rounding of [100 k / n] to the nearest integer, standing in for the
    floating-point computation in the examples. *)
Definition roundedPercent (k n : nat) : Z :=
  Z.of_nat (Nat.div (200 * k + n) (2 * n)).

Definition serverError : JsError :=
  mkError (Some 500%Z) (Some ("Internal Server Error" : jsstring)).

(** A provider on which every request succeeds. *)
Definition healthyGitHub : GitHub :=
  mkGitHub (Returned ("octocat" : jsstring)) (Returned ("main" : jsstring))
           (Returned ("main" : jsstring)) (Returned ("c0ffee" : jsstring))
           (Returned ("7ree" : jsstring))
           (fun _ _ => Returned ("b10b" : jsstring))
           (Returned ("7ree2" : jsstring)) (Returned ("c0ffee2" : jsstring))
           (Returned tt) (Returned (Some ("https://octocat.github.io/site/" : jsstring)))
           (Returned None).


(** The blob of the first file fails twice and then succeeds. *)
Definition flakyGitHub : GitHub :=
  mkGitHub (getAuthenticated healthyGitHub)
           (createForAuthenticatedUser healthyGitHub) (reposGet healthyGitHub)
           (getRef healthyGitHub) (getCommit healthyGitHub)
           (fun idx attempt =>
              if (idx =? 0)%nat && (attempt <? 2)%nat then Threw serverError
              else Returned ("b10b" : jsstring))
           (createTree healthyGitHub)
           (createCommit healthyGitHub) (updateRef healthyGitHub)
           (createPagesSite healthyGitHub) (getPages healthyGitHub).

(** The blob of the first file fails on every attempt. *)
Definition brokenGitHub : GitHub :=
  mkGitHub (getAuthenticated healthyGitHub)
           (createForAuthenticatedUser healthyGitHub) (reposGet healthyGitHub)
           (getRef healthyGitHub) (getCommit healthyGitHub)
           (fun idx attempt =>
              if (idx =? 0)%nat then Threw serverError
              else Returned ("b10b" : jsstring))
           (createTree healthyGitHub)
           (createCommit healthyGitHub) (updateRef healthyGitHub)
           (createPagesSite healthyGitHub) (getPages healthyGitHub).

(** The contract of the event sink on failure: one error event exactly when
    the run throws, none when it returns, and the error event is the last
    event the sink receives; it carries the message of the error thrown. *)
Definition reportsItsFailure (run : Run jsstring) : Prop :=
  (isThrew (snd run) = true <-> errorCount (fst run) = 1)
  /\ (isReturned (snd run) = true -> errorCount (fst run) = 0)
  /\ (forall e,
        snd run = Threw e ->
        last (events (fst run)) = Some (failureEvent e)).

(** [k] attempts with a wait of one second between two of them. *)
Fixpoint attemptsTrace (attempt : Action) (k : nat) : list Action :=
  match k with
  | O => []
  | S O => [attempt]
  | S k' => attempt :: Wait 1000 :: attemptsTrace attempt k'
  end.



(** The raw files the loop of step 3 keeps. *)
Definition keptRaw (commonPrefix : jsstring) (rf : RawFile) : bool :=
  negb (Js.truthy (ignoreReasonOf (stripPrefix commonPrefix (rawPath rf)))).

(** ** Further parts of the analysis *)

(** Lines 250-262 of [analyzeZip]: the candidate of step 2, before it is
    tested against every path; [None] stands for the two ways of having no
    candidate. *)
Definition potentialPrefix (paths : list jsstring) : option jsstring :=
  match Js.sort paths with
  | [] => None
  | first :: rest =>
      let last := List.last rest first in
      let i := commonLength first last in
      let prefix := Js.substringTo first i in
      let lastSlash := Js.lastIndexOf prefix Js.slash in
      if negb (lastSlash =? -1)%Z
      then Some (Js.substringTo prefix (Z.to_nat (lastSlash + 1)))
      else None
  end.

(** The texts of the warnings pushed after the asset check. *)
Definition sourceWithBuildWarning : jsstring :=
  "Found 'package.json' and 'dist/build' folder. You likely uploaded the source code. Please upload ONLY the contents of the 'dist' or 'build' folder.".

Definition sourceWithoutBuildWarning : jsstring :=
  "Detected 'package.json' but no 'index.html' at root. Are you uploading source code? You must build your project first (npm run build) and upload the output folder.".

Definition nestedIndexWarning (p : jsstring) : jsstring :=
  "'index.html' found at '" ++ p
  ++ "'. It must be at the root level. Please unzip, go into the folder, and zip the CONTENTS.".

Definition noIndexWarning : jsstring :=
  "No 'index.html' found. Your site will not load.".

(** The warning about the place of [index.html] that fits a manifest. *)
Definition placementWarning (fs : list ManifestFile) : jsstring :=
  match find (fun f => Js.endsWith (path f) "/index.html") fs with
  | Some nestedIndex => nestedIndexWarning (path nestedIndex)
  | None => noIndexWarning
  end.

(** An archive with a system file beside the folder of the site. *)
Definition strayFileArchive : Archive :=
  [ (".DS_Store" : jsstring, textEntry "x");
    ("site/index.html" : jsstring, textEntry "<html>") ].

(** What the loop of step 3 pushes for a raw file: the manifest file of a
    kept one, the record of an ignored one. *)
Definition manifestOf (commonPrefix : jsstring) (rf : RawFile) : ManifestFile :=
  mkFile (stripPrefix commonPrefix (rawPath rf))
         (default 0%Z (uncompressedSize (rawEntry rf))) (rawEntry rf).

Definition ignoredOf (commonPrefix : jsstring) (rf : RawFile) : IgnoredFile :=
  mkIgnored (stripPrefix commonPrefix (rawPath rf))
            (ignoreReasonOf (stripPrefix commonPrefix (rawPath rf))).

(** A path the filter of step 3 lets through. *)
Definition passesFilter (p : jsstring) : Prop :=
  Js.includes p ".DS_Store" = false /\ Js.includes p "Thumbs.db" = false
  /\ Js.includes p "node_modules/" = false /\ Js.startsWith p ".git/" = false
  /\ Js.endsWith p ".log" = false /\ Js.endsWith p ".env" = false
  /\ Js.includes p ".vscode/" = false /\ Js.includes p ".idea/" = false.

(** ** [generateAutoFixes] *)

Definition newline : ascii := ascii_of_nat 10.

(** [arr.join(sep)]; a template literal of several lines is the join of its
    lines with the line feed. *)
Fixpoint join (sep : jsstring) (arr : list jsstring) : jsstring :=
  match arr with
  | [] => []
  | [x] => x
  | x :: arr' => x ++ sep ++ join sep arr'
  end.

(** [s.indexOf(t)] as a cut: the part of [s] before the first occurrence of
    [t] and the part behind it. *)
Fixpoint splitAtFirst (s t : jsstring) {struct s} : option (jsstring * jsstring) :=
  if Js.startsWith s t then Some ([], drop (length t) s)
  else
    match s with
    | [] => None
    | c :: s' =>
        match splitAtFirst s' t with
        | Some (before, after) => Some (c :: before, after)
        | None => None
        end
    end.

(** The replacement text of [replace] for a string pattern: a dollar sign
    followed by a dollar sign, an ampersand, a backtick or an apostrophe
    stands for a dollar sign, the match, the text before it or the text
    behind it; there are no groups, so every other dollar sign stands for
    itself. *)
Fixpoint getSubstitution (matched before after template : jsstring) : jsstring :=
  match template with
  | [] => []
  | c :: rest =>
      if Ascii.eqb c "$" then
        match rest with
        | d :: rest' =>
            if Ascii.eqb d "$"
            then c :: getSubstitution matched before after rest'
            else if Ascii.eqb d "&"
            then matched ++ getSubstitution matched before after rest'
            else if Ascii.eqb d "`"
            then before ++ getSubstitution matched before after rest'
            else if Ascii.eqb d "'"
            then after ++ getSubstitution matched before after rest'
            else c :: getSubstitution matched before after rest
        | [] => [c]
        end
      else c :: getSubstitution matched before after rest
  end.

(** [s.replace(pattern, replacement)] with two strings: the first occurrence
    only. *)
Definition replaceString (s pattern replacement : jsstring) : jsstring :=
  match splitAtFirst s pattern with
  | Some (before, after) =>
      before ++ getSubstitution pattern before after replacement ++ after
  | None => s
  end.

(** The value of [projectType] as the string the code compares and
    prints. *)
Definition typeName (t : ProjectType) : jsstring :=
  match t with
  | StaticWebsite => "Static Website"
  | NodeJsProject => "Node.js Project"
  | Vite => "Vite"
  | CreateReactApp => "Create React App"
  | NextJs => "Next.js"
  | Angular => "Angular"
  | Vue => "Vue"
  | Unknown => "Unknown"
  end.

Definition workflowPath : jsstring := ".github/workflows/deploy.yml".

(** The template of the workflow file. *)
Definition workflowContent (buildCommand outputDir : jsstring) : jsstring :=
  join [newline]
    [ ("name: Deploy to GitHub Pages" : jsstring);
      ([] : jsstring);
      ("on:" : jsstring);
      ("  push:" : jsstring);
      ("    branches: [" ++ quoted "main" ++ "]" : jsstring);
      ("  workflow_dispatch:" : jsstring);
      ([] : jsstring);
      ("permissions:" : jsstring);
      ("  contents: read" : jsstring);
      ("  pages: write" : jsstring);
      ("  id-token: write" : jsstring);
      ([] : jsstring);
      ("concurrency:" : jsstring);
      ("  group: " ++ quoted "pages" : jsstring);
      ("  cancel-in-progress: false" : jsstring);
      ([] : jsstring);
      ("jobs:" : jsstring);
      ("  build:" : jsstring);
      ("    runs-on: ubuntu-latest" : jsstring);
      ("    steps:" : jsstring);
      ("      - name: Checkout" : jsstring);
      ("        uses: actions/checkout@v4" : jsstring);
      ("      - name: Setup Node" : jsstring);
      ("        uses: actions/setup-node@v4" : jsstring);
      ("        with:" : jsstring);
      ("          node-version: " ++ quoted "20" : jsstring);
      ("          cache: 'npm'" : jsstring);
      ("      - name: Install dependencies" : jsstring);
      ("        run: npm ci" : jsstring);
      ("      - name: Build" : jsstring);
      ("        run: " ++ buildCommand : jsstring);
      ("      - name: Upload artifact" : jsstring);
      ("        uses: actions/upload-pages-artifact@v3" : jsstring);
      ("        with:" : jsstring);
      ("          path: ./" ++ outputDir : jsstring);
      ([] : jsstring);
      ("  deploy:" : jsstring);
      ("    environment:" : jsstring);
      ("      name: github-pages" : jsstring);
      ("      url: ${{ steps.deployment.outputs.page_url }}" : jsstring);
      ("    runs-on: ubuntu-latest" : jsstring);
      ("    needs: build" : jsstring);
      ("    steps:" : jsstring);
      ("      - name: Deploy to GitHub Pages" : jsstring);
      ("        id: deployment" : jsstring);
      ("        uses: actions/deploy-pages@v4" : jsstring);
      ([] : jsstring) ].

Definition uploadStep : jsstring := "      - name: Upload artifact".

(** The replacement of the last step: a step that copies the page to the
    404 page, then the upload step again. *)
Definition fallbackStep (copyCmd : jsstring) : jsstring :=
  join [newline]
    [ ("      - name: Create 404 fallback" : jsstring);
      ("        run: " ++ copyCmd : jsstring);
      ("      - name: Upload artifact" : jsstring) ].

(** The configuration pushed when a Vite project has no config file. *)
Definition minimalViteConfig (repoName : jsstring) : jsstring :=
  join [newline]
    [ ("import { defineConfig } from 'vite'" : jsstring);
      ("import react from '@vitejs/plugin-react'" : jsstring);
      ([] : jsstring);
      ("// https://vitejs.dev/config/" : jsstring);
      ("export default defineConfig({" : jsstring);
      ("  plugins: [react()]," : jsstring);
      ("  base: " ++ quoted ("/" ++ repoName ++ "/") ++ "," : jsstring);
      ("})" : jsstring) ].

(** [["Vite", "Create React App", "Vue", "Angular"].includes(projectType)] *)
Definition isSpa (t : ProjectType) : bool :=
  match t with
  | Vite | CreateReactApp | Vue | Angular => true
  | _ => false
  end.

(** Step 1: the workflow, for every type but the static site and the
    unknown one. *)
Definition workflowStep (t : ProjectType) (repoName : jsstring)
  : list AutoFixPatch :=
  if negb (bool_decide (t = StaticWebsite)) && negb (bool_decide (t = Unknown))
  then
    let buildCommand : jsstring := "npm run build" in
    let outputDir : jsstring :=
      if bool_decide (t = CreateReactApp) then "build"
      else if bool_decide (t = NextJs) then "out"
      else if bool_decide (t = Angular) then "dist/" ++ repoName
      else "dist" in
    [ mkPatch workflowPath (workflowContent buildCommand outputDir)
              ("Create GitHub Actions workflow for " ++ typeName t) ]
  else [].

(** Step 2: the base path of a Vite project. *)
Definition viteStep (t : ProjectType) (fs : list ManifestFile)
    (repoName : jsstring) : list AutoFixPatch :=
  if bool_decide (t = Vite) then
    match find (fun f => Js.endsWith (path f) "vite.config.js"
                         || Js.endsWith (path f) "vite.config.ts") fs with
    | Some viteConfig =>
        let content := asString (entry viteConfig) in
        if negb (Js.includes content "base:")
           && Js.includes content "defineConfig({"
        then
          [ mkPatch (path viteConfig)
              (replaceString content "defineConfig({"
                 (join [newline]
                    [ ("defineConfig({" : jsstring);
                      ("  base: " ++ quoted ("/" ++ repoName ++ "/") ++ ","
                       : jsstring) ]))
              ("Update vite.config to set base path to "
               ++ quoted ("/" ++ repoName ++ "/")) ]
        else []
    | None =>
        [ mkPatch "vite.config.js" (minimalViteConfig repoName)
                  "Create vite.config.js with correct base path" ]
    end
  else [].

(** Step 3: the static export of a Next.js project. *)
Definition nextStep (t : ProjectType) (fs : list ManifestFile)
  : list AutoFixPatch :=
  if bool_decide (t = NextJs) then
    match find (fun f => Js.endsWith (path f) "next.config.js"
                         || Js.endsWith (path f) "next.config.mjs"
                         || Js.endsWith (path f) "next.config.ts") fs with
    | Some nextConfig =>
        let content := asString (entry nextConfig) in
        if negb (Js.includes content "output: 'export'")
           && negb (Js.includes content ("output: " ++ quoted "export"))
           && Js.includes content "nextConfig = {"
        then
          [ mkPatch (path nextConfig)
              (replaceString content "nextConfig = {"
                 (join [newline]
                    [ ("nextConfig = {" : jsstring);
                      ("  output: 'export'," : jsstring) ]))
              "Update next.config to enable static export" ]
        else []
    | None => []
    end
  else [].

(** The last step: the 404 page in the workflow of a single-page
    application.  [find] gives the patch object itself, so the assignment
    changes the entry of [patches] in place. *)
Definition fallbackStepOf (t : ProjectType) (repoName : jsstring)
    (patches : list AutoFixPatch) : list AutoFixPatch :=
  match list_find (fun p => patchPath p = workflowPath) patches with
  | Some (i, _) =>
      if isSpa t then
        let outputDir : jsstring := "dist" in
        let outputDir : jsstring :=
          if bool_decide (t = CreateReactApp) then "build" else outputDir in
        let outputDir : jsstring :=
          if bool_decide (t = Angular) then "dist/" ++ repoName
          else outputDir in
        let copyCmd : jsstring :=
          "cp " ++ outputDir ++ "/index.html " ++ outputDir
          ++ "/404.html || true" in
        alter (fun workflowPatch =>
                 mkPatch (patchPath workflowPatch)
                         (replaceString (patchContent workflowPatch) uploadStep
                                        (fallbackStep copyCmd))
                         (description workflowPatch))
              i patches
      else patches
  | None => patches
  end.

(** Steps 4 and 5 read [package.json] and compute a new text for it, but
    push no patch and change no file, so they leave no trace in the
    result. *)
Definition generateAutoFixes (analysis : ZipAnalysis) (repoName : jsstring)
  : list AutoFixPatch :=
  let t := projectType analysis in
  let fs := files analysis in
  let patches :=
    workflowStep t repoName ++ viteStep t fs repoName ++ nextStep t fs in
  fallbackStepOf t repoName patches.

(** The directory the workflow uploads, by type. *)
Definition outputDirOf (t : ProjectType) (repoName : jsstring) : jsstring :=
  match t with
  | CreateReactApp => "build"
  | NextJs => "out"
  | Angular => "dist/" ++ repoName
  | _ => "dist"
  end.

(** The path of a patch for a configuration file. *)
Definition isConfigPath (p : jsstring) : bool :=
  Js.endsWith p "vite.config.js" || Js.endsWith p "vite.config.ts"
  || Js.endsWith p "next.config.js" || Js.endsWith p "next.config.mjs"
  || Js.endsWith p "next.config.ts".

(** No occurrence of [t] starts within [h] in a text that begins with
    [h ++ t]. *)
Definition firstAt (h t : jsstring) : bool :=
  forallb (fun i => negb (Js.startsWith (drop i (h ++ t)) t))
          (seq 0 (length h)).

(** A Vite project whose config has no base path. *)
Definition viteAnalysis : ZipAnalysis :=
  mkAnalysis [] 2 50 Vite
    [ mkFile "index.html" 6 (textEntry "<html>");
      mkFile "vite.config.ts" 44
        (textEntry "export default defineConfig({ plugins: [] })") ]
    [] [].

(** A Next.js project whose config has no export setting. *)
Definition nextAnalysis : ZipAnalysis :=
  mkAnalysis [] 1 39 NextJs
    [ mkFile "next.config.js" 39
        (textEntry "const nextConfig = { reactStrictMode: 1 }") ]
    [] [].

(** The text of the workflow before the upload step and behind it. *)
Definition workflowHead (buildCommand : jsstring) : jsstring :=
  join [newline]
    [ ("name: Deploy to GitHub Pages" : jsstring);
      ([] : jsstring);
      ("on:" : jsstring);
      ("  push:" : jsstring);
      ("    branches: [" ++ quoted "main" ++ "]" : jsstring);
      ("  workflow_dispatch:" : jsstring);
      ([] : jsstring);
      ("permissions:" : jsstring);
      ("  contents: read" : jsstring);
      ("  pages: write" : jsstring);
      ("  id-token: write" : jsstring);
      ([] : jsstring);
      ("concurrency:" : jsstring);
      ("  group: " ++ quoted "pages" : jsstring);
      ("  cancel-in-progress: false" : jsstring);
      ([] : jsstring);
      ("jobs:" : jsstring);
      ("  build:" : jsstring);
      ("    runs-on: ubuntu-latest" : jsstring);
      ("    steps:" : jsstring);
      ("      - name: Checkout" : jsstring);
      ("        uses: actions/checkout@v4" : jsstring);
      ("      - name: Setup Node" : jsstring);
      ("        uses: actions/setup-node@v4" : jsstring);
      ("        with:" : jsstring);
      ("          node-version: " ++ quoted "20" : jsstring);
      ("          cache: 'npm'" : jsstring);
      ("      - name: Install dependencies" : jsstring);
      ("        run: npm ci" : jsstring);
      ("      - name: Build" : jsstring);
      ("        run: " ++ buildCommand : jsstring);
      ([] : jsstring) ].

Definition workflowTail (outputDir : jsstring) : jsstring :=
  join [newline]
    [ ([] : jsstring);
      ("        uses: actions/upload-pages-artifact@v3" : jsstring);
      ("        with:" : jsstring);
      ("          path: ./" ++ outputDir : jsstring);
      ([] : jsstring);
      ("  deploy:" : jsstring);
      ("    environment:" : jsstring);
      ("      name: github-pages" : jsstring);
      ("      url: ${{ steps.deployment.outputs.page_url }}" : jsstring);
      ("    runs-on: ubuntu-latest" : jsstring);
      ("    needs: build" : jsstring);
      ("    steps:" : jsstring);
      ("      - name: Deploy to GitHub Pages" : jsstring);
      ("        id: deployment" : jsstring);
      ("        uses: actions/deploy-pages@v4" : jsstring);
      ([] : jsstring) ].

(** A text without a dollar sign. *)
Definition plainText (s : jsstring) : bool :=
  forallb (fun c => negb (Ascii.eqb c "$")) s.

(** ** Requests and results of a deployment *)

(** Every request of a run meets [R]. *)
Definition Sends (R : Request -> Prop) {A : Type} (m : Run A) : Prop :=
  Forall (fun a => match a with Send r => R r | _ => True end) (fst m).

(** A run that returns [a] leaves a trace that meets [Q a]. *)
Definition Ends {A : Type} (Q : A -> list Action -> Prop) (m : Run A) : Prop :=
  forall a, snd m = Returned a -> Q a (fst m).

(** The last event of a deployment that succeeds. *)
Definition completionEvent (url : jsstring) : DeployStatus :=
  mkStatus "Deployment complete!" (Some url) success None.

(** The address step 9 of the Git backend arrives at: the one the provider
    gives for the site when it gives one, and the default otherwise. *)
Definition pagesUrlOf (api : GitHub) (owner repoName : jsstring) : jsstring :=
  let pagesUrl := "https://" ++ owner ++ ".github.io/" ++ repoName ++ "/" in
  match createPagesSite api with
  | Returned pages => Js.orElse pages pagesUrl
  | Threw err =>
      if bool_decide (status err = Some 409%Z)
      then match getPages api with
           | Returned existingPages => Js.orElse existingPages pagesUrl
           | Threw _ => pagesUrl
           end
      else pagesUrl
  end.

Definition isBlobRequest (a : Action) : bool :=
  match a with
  | Send (CreateBlob _ _ _) => true
  | _ => false
  end.

Definition blobCount (tr : list Action) : nat :=
  length (List.filter isBlobRequest tr).

Definition notBlob (r : Request) : Prop :=
  match r with
  | CreateBlob _ _ _ => False
  | _ => True
  end.

Definition itemKey (it : TreeItem) : jsstring * jsstring :=
  (itemPath it, itemMode it).

Definition uploadKey (u : Upload) : jsstring * jsstring :=
  (upPath u, upMode u).

(** A tree request lists one blob for each upload, under its path and with
    its mode. *)
Definition treeHolds (uploads : list Upload) (r : Request) : Prop :=
  match r with
  | CreateTree _ _ tree _ =>
      map itemKey tree ≡ₚ map uploadKey uploads
      /\ Forall (fun it => itemType it = ("blob" : jsstring)) tree
  | _ => True
  end.

(** The files of the batches that start at [starts]. *)
Definition batched {A : Type} (l : list A) (starts : list nat) : list A :=
  concat (map (fun i => slice l i (i + 5)) starts).

Definition okResponse (b : Body) : Response :=
  mkResponse true "OK" (Returned b).

(** A provider of the content-addressed backend on which every request
    succeeds and that asks for no upload. *)
Definition healthyFirebase : Firebase :=
  mkFirebase
    (Returned (okResponse (mkBody None (Some ("sites/demo/versions/v1" : jsstring))
                                  None None)))
    (Returned (okResponse (mkBody None None None None)))
    (fun _ => Returned (okResponse (mkBody None None None None)))
    (Returned (okResponse (mkBody None None None None)))
    (Returned (okResponse (mkBody None None None None))).

(** ** The hashes of the content-addressed backend *)


(** [n.toString(16)] for a digit. *)
Definition hexDigit (n : N) : ascii :=
  if (n <? 10)%N then ascii_of_N (48 + n) else ascii_of_N (87 + n).

(** [b.toString(16)] for a byte. *)
Definition toString16 (b : Byte.byte) : jsstring :=
  let n := Byte.to_N b in
  if (n <? 16)%N then [hexDigit n]
  else [hexDigit (n / 16); hexDigit (n mod 16)].

(** [s.padStart(2, "0")] *)
Definition padStart2 (s : jsstring) : jsstring :=
  repeat "0"%char (2 - length s) ++ s.

(** The last line of [calculateSHA256]: the bytes of the digest, each as two
    hexadecimal digits, joined. *)
Definition hexOf (hashArray : list Byte.byte) : jsstring :=
  concat (map (fun b => padStart2 (toString16 b)) hashArray).

(** [calculateSHA256] over the digest function of the platform. *)
Definition calculateSHA256 (digest : list Byte.byte -> list Byte.byte)
    (content : list Byte.byte) : jsstring :=
  hexOf (digest content).

(** The value of a hexadecimal digit, and the byte of two digits. *)
Definition hexValue (c : ascii) : N :=
  let n := N_of_ascii c in
  if (n <? 58)%N then (n - 48)%N else (n - 87)%N.

Definition byteOfHex (hi lo : ascii) : Byte.byte :=
  default Byte.x00 (Byte.of_N (16 * hexValue hi + hexValue lo)).

Fixpoint unhex (s : jsstring) : list Byte.byte :=
  match s with
  | hi :: lo :: s' => byteOfHex hi lo :: unhex s'
  | _ => []
  end.

(** ** The page: the handlers of [App] *)

Module App.

(** A dropped [File], by what the handlers read from it; [loadAsync] is what
    loading it as an archive gives. *)
Record File := mkDomFile {
  fileName : jsstring;
  webkitRelativePath : jsstring;
  loadAsync : Outcome Archive
}.

Inductive Provider := github | firebase.

Record DeploymentRecord := mkRecord {
  id : jsstring;
  recordProvider : Provider;
  name : jsstring;
  url : jsstring;
  date : jsstring
}.

(** The entry the deploy handler adds to the log when the deployment
    throws. *)
Definition failedEntry (err : JsError) : DeployStatus :=
  mkStatus "Failed" (message err) error None.

(** The state variables of the component that the handlers read or set. *)
Record State := mkState {
  step : nat;
  provider : option Provider;
  token : jsstring;
  repoName : jsstring;
  description : jsstring;
  customDomain : jsstring;
  isPrivate : bool;
  file : option File;
  analysis : option ZipAnalysis;
  patches : list AutoFixPatch;
  logs : list DeployStatus;
  isDeploying : bool;
  deployedUrl : option jsstring;
  error : option jsstring;
  validationError : option jsstring;
  history : list DeploymentRecord
}.

(** The greedy run of characters other than the slash at the head of [s]. *)
Fixpoint spanNonSlash (s : jsstring) : jsstring * jsstring :=
  match s with
  | [] => ([], [])
  | c :: s' =>
      if Ascii.eqb c Js.slash then ([], s)
      else let '(run, rest) := spanNonSlash s' in (c :: run, rest)
  end.

(** The pattern of the drop handler for a file one folder below the root:
    from the start at least one character other than the slash, a slash, the
    file name, the end. *)
Definition underOneFolder (nm p : jsstring) : bool :=
  let '(folder, rest) := spanNonSlash p in
  Js.truthy folder && Js.strictEq rest (Js.slash :: nm).

Definition zipFailed : jsstring := "Failed to zip files.".
Definition notAZip : jsstring := "Please upload a valid .zip file or a folder.".
Definition invalidProject : jsstring :=
  "Invalid Project: Must contain 'index.html' or 'package.json' at the root.".
Definition analysisFailed : jsstring := "Failed to read or analyze files.".

(** The test of the drop handler on the result of the analysis. *)
Definition rejects (result : ZipAnalysis) : bool :=
  if bool_decide (projectType result = Unknown)
  then
    let hasIndex :=
      existsb (fun f => Js.strictEq (path f) "index.html"
                        || underOneFolder "index.html" (path f))
              (files result) in
    let hasPackage :=
      existsb (fun f => Js.strictEq (path f) "package.json"
                        || underOneFolder "package.json" (path f))
              (files result) in
    negb hasIndex && negb hasPackage
  else false.

(** The three variables the drop handler sets. *)
Definition dropped (st : State) (validationError' : option jsstring)
    (file' : option File) (analysis' : option ZipAnalysis) : State :=
  mkState (step st) (provider st) (token st) (repoName st) (description st)
          (customDomain st) (isPrivate st) file' analysis' (patches st)
          (logs st) (isDeploying st) (deployedUrl st) (error st)
          validationError' (history st).

Section Handlers.

(** [zip.generateAsync] on the archive made of the dropped files under
    their paths: it rejects, or gives a blob, described by what loading it
    gives. *)
Variable generateAsync : list (jsstring * File) -> Outcome (Outcome Archive).

Definition onDrop (st : State) (acceptedFiles : list File) : State :=
  let failed msg := dropped st (Some msg) None None in
  match acceptedFiles with
  | [] => dropped st None None None
  | first :: _ =>
      let fileToAnalyze : Outcome File :=
        if (1 <? length acceptedFiles)%nat
           || negb (Js.endsWith (fileName first) ".zip")
        then
          match generateAsync
                  (map (fun f => (if Js.truthy (webkitRelativePath f)
                                  then webkitRelativePath f else fileName f,
                                  f))
                       acceptedFiles) with
          | Threw err => Threw err
          | Returned zipBlob => Returned (mkDomFile "project.zip" [] zipBlob)
          end
        else Returned first in
      match fileToAnalyze with
      | Threw _ => failed zipFailed
      | Returned f =>
          if negb (Js.endsWith (fileName f) ".zip") then failed notAZip
          else
            match loadAsync f with
            | Threw _ => failed analysisFailed
            | Returned z =>
                let result := analyzeZip z in
                if rejects result then failed invalidProject
                else dropped st None (Some f) (Some result)
            end
      end
  end.

(** The clock: [Date.now().toString()] and [new Date().toISOString()]. *)
Variable now : jsstring * jsstring.

(** [saveToHistory]: the new record first, fifty records at most.  The copy
    written to [localStorage] is not part of the state; the write is taken
    to succeed. *)
Definition saveToHistory (st : State) (url' : jsstring) : list DeploymentRecord :=
  match provider st with
  | None => history st
  | Some p =>
      let newRecord := mkRecord (fst now) p (repoName st) url' (snd now) in
      take 50 (newRecord :: history st)
  end.

Variable percent : nat -> nat -> Z.
Variable sha256 : list Byte.byte -> jsstring.

(** What the two providers answer during the deployment. *)
Variable gitHub : GitHub.
Variable firebaseHosting : Firebase.

(** The run the deploy handler awaits. *)
Definition deployment (st : State) (p : Provider) (a : ZipAnalysis)
  : Run jsstring :=
  match p with
  | github =>
      deployZipToGitHub percent gitHub (token st) (repoName st)
                        (description st) (isPrivate st) a
                        (Some (customDomain st)) (Some (patches st))
  | firebase =>
      deployZipToFirebase percent sha256 firebaseHosting (token st)
                          (repoName st) a
  end.

(** [handleDeploy]: the state when the handler is through.  The sink it
    passes appends every event to the log. *)
Definition handleDeploy (st : State) : State :=
  match file st, analysis st, provider st with
  | Some _, Some a, Some p =>
      if negb (Js.truthy (token st)) || negb (Js.truthy (repoName st)) then st
      else
        let run := deployment st p a in
        match snd run with
        | Returned url' =>
            mkState 5 (provider st) (token st) (repoName st) (description st)
                    (customDomain st) (isPrivate st) (file st) (analysis st)
                    (patches st) (events (fst run)) false (Some url') None
                    (validationError st) (saveToHistory st url')
        | Threw err =>
            mkState 4 (provider st) (token st) (repoName st) (description st)
                    (customDomain st) (isPrivate st) (file st) (analysis st)
                    (patches st) (events (fst run) ++ [failedEntry err]) false
                    (deployedUrl st)
                    (Some (Js.orElse (message err) "Deployment failed"))
                    (validationError st) (history st)
        end
  | _, _, _ => st
  end.

End Handlers.

(** A state in which a deployment to the Git backend can start. *)
Definition readyState : State :=
  mkState 3 (Some github) "tok" "site" [] [] false
          (Some (mkDomFile "site.zip" [] (Returned [])))
          (Some twoFileAnalysis) twoPatches [] false None None None [].

End App.

(** ** The page: the token and its copy in [localStorage] *)

Module Credentials.

(** The state the token handlers read or set: three state variables of the
    component and the entry [deployToken] of [localStorage], whose writes
    are taken to succeed. *)
Record State := mkState {
  step : nat;
  token : jsstring;
  rememberToken : bool;
  deployToken : option jsstring
}.

(** The state after the first render and its token effect, for the entry
    that [localStorage] holds then. *)
Definition mounted (saved : option jsstring) : State :=
  match saved with
  | Some savedToken =>
      if Js.truthy savedToken then mkState 0 savedToken true saved
      else mkState 0 [] false saved
  | None => mkState 0 [] false saved
  end.

Definition handleTokenChange (st : State) (newToken : jsstring) : State :=
  mkState (step st) newToken (rememberToken st)
          (if rememberToken st then Some newToken else deployToken st).

Definition handleRememberTokenChange (st : State) (checked : bool) : State :=
  mkState (step st) (token st) checked
          (if checked then Some (token st) else None).

(** What the user does to the token field and to the box beside it. *)
Inductive Input :=
| typed (newToken : jsstring)
| ticked (checked : bool).

Definition handle (st : State) (i : Input) : State :=
  match i with
  | typed newToken => handleTokenChange st newToken
  | ticked checked => handleRememberTokenChange st checked
  end.

(** The data of a message event, by the two fields the listeners read,
    each a string when present. *)
Record Data := mkData {
  type : option jsstring;
  dataToken : option jsstring
}.

(** [handleMessage] of the two login handlers; [expected] is
    [GITHUB_AUTH_SUCCESS] or [GOOGLE_AUTH_SUCCESS].  The result also tells
    whether the listener removes itself. *)
Definition handleMessage (expected : jsstring) (st : State) (data : option Data)
  : State * bool :=
  match data with
  | Some (mkData (Some ty) (Some tok)) =>
      if Js.strictEq ty expected && Js.truthy tok
      then (mkState 2 tok (rememberToken st) (deployToken st), true)
      else (st, false)
  | _ => (st, false)
  end.

End Credentials.

(** ** The server: [server.ts] *)

Module Server.
























End Server.

(** ** The file tree of the page: [buildTree] *)

Module Tree.

Inductive NodeType := file | folder.

(** A [TreeNode]; [size] and [children] are optional fields. *)
#[warnings="-register-all"]
Inductive TreeNode := mkNode {
  name : jsstring;
  path : jsstring;
  type : NodeType;
  size : option Z;
  children : option (list TreeNode)
}.

(** [s.split(c)] for a one-character separator. *)
Fixpoint split (s : jsstring) (c : ascii) : list jsstring :=
  match s with
  | [] => [[]]
  | d :: s' =>
      if Ascii.eqb d c then [] :: split s' c
      else match split s' c with
           | part :: parts => (d :: part) :: parts
           | [] => [[d]]
           end
  end.

(** The inner loop for one file: [parts] are the parts still to place,
    [placed] the parts before them, [currentLevel] the array the loop is
    at.  The arrays of the tree are shared objects that the loop changes
    in place; the result is the array with the change made. *)
Fixpoint place (fileSize : Z) (placed parts : list jsstring)
    (currentLevel : list TreeNode) {struct parts} : list TreeNode :=
  match parts with
  | [] => currentLevel
  | part :: rest =>
      let isFile := match rest with [] => true | _ :: _ => false end in
      let here := placed ++ [part] in
      match list_find (fun node => name node = part) currentLevel with
      | Some (i, existingNode) =>
          if negb isFile then
            match children existingNode with
            | Some below =>
                alter (fun node =>
                         mkNode (name node) (path node) (type node) (size node)
                                (Some (place fileSize here rest below)))
                      i currentLevel
            | None => place fileSize here rest currentLevel
            end
          else currentLevel
      | None =>
          if isFile
          then currentLevel
               ++ [mkNode part (join "/" here) file (Some fileSize) None]
          else currentLevel
               ++ [mkNode part (join "/" here) folder None
                          (Some (place fileSize here rest []))]
      end
  end.

Definition buildTree (files : list (jsstring * Z)) : list TreeNode :=
  fold_left
    (fun root '(filePath, fileSize) =>
       let cleanPath :=
         if Js.startsWith filePath "/" then drop 1 filePath else filePath in
       place fileSize [] (split cleanPath Js.slash) root)
    files [].

(** The name of a node is the last part of its path. *)
Definition keyed (node : TreeNode) : Prop :=
  ~ In Js.slash (name node)
  /\ (path node = name node
      \/ exists before, path node = before ++ Js.slash :: name node).

(** No two nodes of one array have the same name or the same path, at
    every level of the tree. *)
Fixpoint distinctBelow (node : TreeNode) : Prop :=
  keyed node
  /\ match children node with
     | Some below =>
         NoDup (map name below) /\ NoDup (map path below)
         /\ (fix each (l : list TreeNode) : Prop :=
               match l with
               | [] => True
               | x :: l' => distinctBelow x /\ each l'
               end) below
     | None => True
     end.

Definition distinctSiblings (level : list TreeNode) : Prop :=
  NoDup (map name level) /\ NoDup (map path level)
  /\ Forall distinctBelow level.

(** [P] holds for a node and for every node below it. *)
Fixpoint everyBelow (P : TreeNode -> Prop) (node : TreeNode) : Prop :=
  P node
  /\ match children node with
     | Some below =>
         (fix each (l : list TreeNode) : Prop :=
            match l with
            | [] => True
            | x :: l' => everyBelow P x /\ each l'
            end) below
     | None => True
     end.

(** A node as [buildTree] makes it for the list [files]: a file node has no
    array of children and carries the path, without a leading slash, and the
    size of a file of the list; a folder node has an array of children and
    no size. *)
Definition shows (files : list (jsstring * Z)) (node : TreeNode) : Prop :=
  match type node with
  | file =>
      children node = None
      /\ exists filePath fileSize,
           In (filePath, fileSize) files
           /\ path node = (if Js.startsWith filePath "/"
                           then drop 1 filePath else filePath)
           /\ size node = Some fileSize
  | folder => children node <> None /\ size node = None
  end.

End Tree.

(** * Properties *)

(** ** The loop of [analyzeZip] *)

Lemma fold_left_invariant {A B : Type} (P : A -> Prop) (f : A -> B -> A) :
  (forall a b, P a -> P (f a b)) ->
  forall l a, P a -> P (fold_left f l a).
Proof.
  intros Hstep l. induction l as [|b l IH]; intros a Ha; simpl; auto.
Qed.

Lemma hasRootFile_snoc nm fs f :
  hasRootFile nm (fs ++ [f]) = hasRootFile nm fs || Js.strictEq (path f) nm.
Proof.
  unfold hasRootFile. rewrite existsb_app. simpl. now rewrite orb_false_r.
Qed.

Lemma sumSizes_snoc fs f : sumSizes (fs ++ [f]) = (sumSizes fs + size f)%Z.
Proof.
  unfold sumSizes. induction fs as [|g fs IH]; simpl; [lia|].
  rewrite IH. lia.
Qed.

Lemma capturedIndexHtml_snoc fs f :
  capturedIndexHtml (fs ++ [f]) =
  if Js.strictEq (path f) "index.html" && (size f <? 500 * 1024)%Z
  then asString (entry f) else capturedIndexHtml fs.
Proof. unfold capturedIndexHtml. now rewrite fold_left_app. Qed.

Lemma arrIncludes_In ws w : Js.arrIncludes ws w = true <-> In w ws.
Proof.
  unfold Js.arrIncludes, Js.strictEq. rewrite existsb_exists. split.
  - intros (x & Hx & E). apply bool_decide_eq_true in E. now subst.
  - intros Hin. exists w. split; [assumption|]. now apply bool_decide_eq_true.
Qed.

Lemma In_pushOnce ws v w : In w (pushOnce ws v) <-> In w ws \/ w = v.
Proof.
  unfold pushOnce. destruct (Js.arrIncludes ws v) eqn:E.
  - apply arrIncludes_In in E. split; [tauto|]. intros [H | ->]; assumption.
  - rewrite in_app_iff. simpl. intuition (subst; auto).
Qed.

Lemma NoDup_pushOnce ws v : NoDup ws -> NoDup (pushOnce ws v).
Proof.
  intros Hnd. unfold pushOnce. destruct (Js.arrIncludes ws v) eqn:E; [assumption|].
  apply NoDup_app. split; [assumption|]. split.
  - intros x Hx Hv. apply list_elem_of_In in Hx.
    apply list_elem_of_In in Hv. destruct Hv as [<- | []].
    apply arrIncludes_In in Hx. congruence.
  - apply NoDup_singleton.
Qed.

Lemma pushOnce_absolute ws :
  ws = [] \/ ws = [absolutePathsWarning] ->
  pushOnce ws absolutePathsWarning = [absolutePathsWarning].
Proof.
  intros [-> | ->]; unfold pushOnce, Js.arrIncludes; cbn [existsb]; [reflexivity|].
  unfold Js.strictEq. rewrite bool_decide_eq_true_2; reflexivity.
Qed.

Ltac scan_proj :=
  cbn [s_files s_ignoredFiles s_totalSize s_hasIndexHtml s_hasPackageJson
       s_hasDistOrBuild s_indexHtmlContent s_warnings path size entry].

Lemma scanFile_invariant cp st rf : ScanInv st -> ScanInv (scanFile cp st rf).
Proof.
  intros [Hi Hp Ht Hc Hw]. unfold scanFile.
  destruct (Js.truthy (ignoreReasonOf (stripPrefix cp (rawPath rf)))).
  - constructor; scan_proj; assumption.
  - constructor; scan_proj.
    + rewrite hasRootFile_snoc, Hi. scan_proj.
      now destruct (Js.strictEq (stripPrefix cp (rawPath rf)) "index.html"),
                   (hasRootFile "index.html" (s_files st)).
    + rewrite hasRootFile_snoc, Hp. scan_proj.
      now destruct (Js.strictEq (stripPrefix cp (rawPath rf)) "package.json"),
                   (hasRootFile "package.json" (s_files st)).
    + rewrite sumSizes_snoc, Ht. reflexivity.
    + rewrite capturedIndexHtml_snoc, Hc. reflexivity.
    + rewrite existsb_app. cbn [existsb]. rewrite orb_false_r.
      unfold flaggedAbsolute at 2. scan_proj. rewrite Hw.
      match goal with |- context [if ?b then pushOnce _ _ else _] => destruct b end.
      * rewrite orb_true_r. apply pushOnce_absolute.
        destruct (existsb flaggedAbsolute (s_files st)); auto.
      * now rewrite orb_false_r.
Qed.

Lemma initialScan_invariant : ScanInv initialScan.
Proof. constructor; simpl; auto. Qed.

Lemma scan_invariant cp raws : ScanInv (fold_left (scanFile cp) raws initialScan).
Proof.
  apply fold_left_invariant; [intros; now apply scanFile_invariant|].
  apply initialScan_invariant.
Qed.

(** The scan state of an archive, as [analyzeZip] computes it. *)
Lemma analyzeZip_files z :
  files (analyzeZip z) =
  s_files (fold_left (scanFile (detectCommonPrefix (map rawPath (collectRawFiles z))))
                     (collectRawFiles z) initialScan).
Proof. reflexivity. Qed.

Lemma classify_firstMatch fs :
  classify fs (hasRootFile "index.html" fs) (hasRootFile "package.json" fs)
  = firstMatch decisionList fs.
Proof. reflexivity. Qed.

Lemma analyzeZip_projectType z :
  projectType (analyzeZip z) = firstMatch decisionList (files (analyzeZip z)).
Proof.
  unfold analyzeZip. simpl.
  set (st := fold_left _ _ _).
  destruct (scan_invariant (detectCommonPrefix (map rawPath (collectRawFiles z)))
                           (collectRawFiles z)) as [Hi Hp _ _ _].
  fold st in Hi, Hp. rewrite Hi, Hp. apply classify_firstMatch.
Qed.

Lemma firstMatch_cra fs :
  firstMatch decisionList fs = CreateReactApp ->
  hasRootFile "package.json" fs = true /\ hasCraFingerprint fs = true.
Proof.
  cbn [firstMatch decisionList].
  destruct (hasViteConfig fs); [discriminate|].
  destruct (hasNextConfig fs); [discriminate|].
  destruct (hasAngularWorkspace fs); [discriminate|].
  destruct (hasVueConfig fs); [discriminate|].
  destruct (hasRootFile "package.json" fs && hasCraFingerprint fs) eqn:E.
  - intros _. now apply andb_true_iff in E.
  - destruct (hasRootFile "index.html" fs); [discriminate|].
    destruct (hasRootFile "package.json" fs); discriminate.
Qed.

(** C1. The type of an analysis is the first match of the ordered rules over
    its kept files: Vite, Next.js, Angular, Vue, Create React App (a root
    package.json and a path that contains react-scripts), static site,
    Node.js project, and unknown when none applies.  With a Vite config and
    an Angular workspace file the type is Vite. *)
Theorem classifier_decision_list (z : Archive) :
  projectType (analyzeZip z) = firstMatch decisionList (files (analyzeZip z))
  /\ (hasViteConfig (files (analyzeZip z)) = true ->
      hasAngularWorkspace (files (analyzeZip z)) = true ->
      projectType (analyzeZip z) = Vite)
  /\ (projectType (analyzeZip z) = CreateReactApp ->
      hasRootFile "package.json" (files (analyzeZip z)) = true
      /\ hasCraFingerprint (files (analyzeZip z)) = true).
Proof.
  pose proof (analyzeZip_projectType z) as H.
  split; [exact H|]. split.
  - intros Hv _. rewrite H. cbn [firstMatch decisionList]. now rewrite Hv.
  - rewrite H. apply firstMatch_cra.
Qed.

Lemma classifier_decision_list_witness :
  projectType (analyzeZip viteAngularArchive) = Vite.
Proof.
  apply (proj1 (proj2 (classifier_decision_list viteAngularArchive)));
    vm_compute; reflexivity.
Defined.

(** ** Sizes and warnings of an analysis *)

Lemma analyzeZip_totalSize z :
  totalSize (analyzeZip z) = sumSizes (files (analyzeZip z)).
Proof.
  unfold analyzeZip. cbn [totalSize files].
  apply (inv_total _ (scan_invariant _ _)).
Qed.

Lemma classify_with_package fs hi : classify fs hi true <> Unknown.
Proof.
  unfold classify.
  repeat match goal with |- (if ?b then _ else _) <> _ => destruct b; try discriminate end.
Qed.

Lemma sourceUploadWarnings_classify fs hi hp hd ws :
  sourceUploadWarnings hi hp hd (classify fs hi hp) ws = ws.
Proof.
  unfold sourceUploadWarnings. destruct hp; [|reflexivity].
  rewrite (bool_decide_eq_false_2 _ (classify_with_package fs hi)).
  now rewrite andb_false_r.
Qed.

Lemma missingAssetWarning_inj r r' :
  missingAssetWarning r = missingAssetWarning r' -> r = r'.
Proof.
  unfold missingAssetWarning. intros H.
  apply app_inv_head in H. now apply app_inv_tail in H.
Qed.

Lemma missingAssetWarning_not_absolute r :
  missingAssetWarning r <> absolutePathsWarning.
Proof. unfold missingAssetWarning, absolutePathsWarning. cbn. discriminate. Qed.

Lemma checkRef_In fs ws m w :
  In w (checkRef fs ws m) <->
  In w ws \/ (skippedRef (Re.ref m) = false
              /\ hasRootFile (normalizeRef (Re.ref m)) fs = false
              /\ w = missingAssetWarning (normalizeRef (Re.ref m))).
Proof.
  unfold checkRef. fold (hasRootFile (normalizeRef (Re.ref m)) fs).
  destruct (skippedRef (Re.ref m)).
  - split; [tauto|]. intros [H | (H & _)]; [assumption | discriminate].
  - destruct (hasRootFile (normalizeRef (Re.ref m)) fs).
    + split; [tauto|]. intros [H | (_ & H & _)]; [assumption | discriminate].
    + rewrite In_pushOnce. tauto.
Qed.

Lemma fold_checkRef_In fs refs : forall ws w,
  In w (fold_left (checkRef fs) refs ws) <->
  In w ws \/ exists m, In m refs
                       /\ skippedRef (Re.ref m) = false
                       /\ hasRootFile (normalizeRef (Re.ref m)) fs = false
                       /\ w = missingAssetWarning (normalizeRef (Re.ref m)).
Proof.
  induction refs as [|m refs IH]; intros ws w; cbn [fold_left].
  - split; [tauto|]. intros [H | (m & [] & _)]. assumption.
  - rewrite IH, checkRef_In. split.
    + intros [[H | H] | (m' & Hin & H)]; [tauto | | ].
      * right. exists m. split; [now left | assumption].
      * right. exists m'. split; [now right | assumption].
    + intros [H | (m' & [<- | Hin] & H)]; [tauto | tauto | ].
      right. exists m'. tauto.
Qed.

Lemma NoDup_checkRef fs ws m : NoDup ws -> NoDup (checkRef fs ws m).
Proof.
  intros H. unfold checkRef.
  destruct (skippedRef _); [assumption|].
  destruct (existsb _ fs); [assumption|]. now apply NoDup_pushOnce.
Qed.

Lemma NoDup_fold_checkRef fs refs : forall ws,
  NoDup ws -> NoDup (fold_left (checkRef fs) refs ws).
Proof.
  induction refs as [|m refs IH]; intros ws H; cbn [fold_left]; [assumption|].
  apply IH. now apply NoDup_checkRef.
Qed.

(** The warnings of an analysis: those of the loop, then those of the asset
    check, then at most one closing message, and that one only without a
    root [index.html]. *)
Lemma analyzeZip_warnings z :
  let fs := files (analyzeZip z) in
  exists extra,
    warnings (analyzeZip z) =
      checkAssets fs (hasRootFile "index.html" fs) (capturedIndexHtml fs)
                  (if existsb flaggedAbsolute fs then [absolutePathsWarning]
                   else [])
      ++ extra
    /\ (extra = []
        \/ (hasRootFile "index.html" fs = false
            /\ exists msg, extra = [msg] /\ msg <> absolutePathsWarning
                           /\ forall r, msg <> missingAssetWarning r)).
Proof.
  unfold analyzeZip. cbn [files warnings].
  set (st := fold_left _ _ _).
  destruct (scan_invariant (detectCommonPrefix (map rawPath (collectRawFiles z)))
                           (collectRawFiles z)) as [Hi Hp _ Hc Hw].
  fold st in Hi, Hp, Hc, Hw.
  rewrite sourceUploadWarnings_classify. rewrite Hw, Hc, Hi.
  unfold nestedIndexWarnings.
  destruct (negb (hasRootFile "index.html" (s_files st)) && negb (s_hasPackageJson st)
            && bool_decide (classify (s_files st) (hasRootFile "index.html" (s_files st))
                                     (s_hasPackageJson st) = Unknown)) eqn:E.
  - apply andb_true_iff in E. destruct E as [E _].
    apply andb_true_iff in E. destruct E as [E _].
    apply negb_true_iff in E.
    destruct (find _ (s_files st)) as [nested|]; eexists; (split; [reflexivity|]);
      right; (split; [assumption|]); eexists; (split; [reflexivity|]);
      (split; [cbn; discriminate | intros r; unfold missingAssetWarning; cbn; discriminate]).
  - exists []. rewrite app_nil_r. split; [reflexivity | now left].
Qed.

Lemma capturedIndexHtml_without_index fs :
  hasRootFile "index.html" fs = false -> capturedIndexHtml fs = [].
Proof.
  induction fs as [|f fs IH] using rev_ind; [reflexivity|].
  rewrite hasRootFile_snoc, capturedIndexHtml_snoc. intros H.
  apply orb_false_iff in H. destruct H as [H1 H2]. rewrite H2. now apply IH.
Qed.

Lemma matchAll_nil {A : Type} (m : jsstring -> option A) len :
  Re.matchAll m len [] = [].
Proof. reflexivity. Qed.

Lemma checkAssets_In fs ws w :
  In w (checkAssets fs (hasRootFile "index.html" fs) (capturedIndexHtml fs) ws) <->
  In w ws \/ exists m,
      In m (Re.matchAll Re.refRegex Re.refLen (capturedIndexHtml fs))
      /\ skippedRef (Re.ref m) = false
      /\ hasRootFile (normalizeRef (Re.ref m)) fs = false
      /\ w = missingAssetWarning (normalizeRef (Re.ref m)).
Proof.
  unfold checkAssets.
  destruct (hasRootFile "index.html" fs) eqn:Hi.
  - destruct (capturedIndexHtml fs) as [|c s] eqn:Hc; cbn [Js.truthy andb].
    + rewrite matchAll_nil. split; [tauto|]. intros [H | (m & [] & _)]. assumption.
    + apply fold_checkRef_In.
  - cbn [andb]. rewrite (capturedIndexHtml_without_index fs Hi), matchAll_nil.
    split; [tauto|]. intros [H | (m & [] & _)]. assumption.
Qed.

Lemma NoDup_checkAssets fs hi c ws : NoDup ws -> NoDup (checkAssets fs hi c ws).
Proof.
  intros H. unfold checkAssets. destruct (hi && Js.truthy c); [|assumption].
  now apply NoDup_fold_checkRef.
Qed.

Lemma checkAssets_without_index fs c ws : checkAssets fs false c ws = ws.
Proof. reflexivity. Qed.

Lemma NoDup_loop_warnings (b : bool) :
  NoDup (if b then [absolutePathsWarning] else []).
Proof. destruct b; [apply NoDup_singleton | apply NoDup_nil_2]. Qed.

Lemma analyzeZip_warnings_NoDup z : NoDup (warnings (analyzeZip z)).
Proof.
  destruct (analyzeZip_warnings z) as (extra & -> & [-> | (Hi & msg & -> & Hm & _)]).
  - rewrite app_nil_r. apply NoDup_checkAssets, NoDup_loop_warnings.
  - rewrite Hi, checkAssets_without_index.
    destruct (existsb flaggedAbsolute (files (analyzeZip z))); cbn [app].
    + apply NoDup_cons. split; [|apply NoDup_singleton].
      intros H. apply list_elem_of_In in H. destruct H as [-> | []]. now apply Hm.
    + apply NoDup_singleton.
Qed.

Lemma fixAbsolutePaths_warnings_NoDup a :
  NoDup (warnings a) -> NoDup (warnings (fixAbsolutePaths a)).
Proof. intros H. unfold fixAbsolutePaths. cbn [warnings]. now apply NoDup_filter. Qed.

Lemma analyzeZip_absolute_warned z :
  In absolutePathsWarning (warnings (analyzeZip z)) <->
  existsb flaggedAbsolute (files (analyzeZip z)) = true.
Proof.
  destruct (analyzeZip_warnings z) as (extra & -> & Hextra).
  rewrite in_app_iff, checkAssets_In.
  destruct (existsb flaggedAbsolute (files (analyzeZip z))).
  - split; [reflexivity|]. intros _. left. left. now left.
  - split; [|discriminate].
    intros [[[] | (m & _ & _ & _ & H)] | H]; exfalso.
    + symmetry in H. now apply missingAssetWarning_not_absolute in H.
    + destruct Hextra as [-> | (_ & msg & -> & Hm & _)]; [destruct H|].
      destruct H as [-> | []]. now apply Hm.
Qed.

Lemma count_NoDup (l : list jsstring) (x : jsstring) :
  NoDup l ->
  length (filter (fun w => w = x) l) = if bool_decide (x ∈ l) then 1 else 0.
Proof.
  induction 1 as [|y l Hy Hnd IH]; [reflexivity|].
  rewrite filter_cons. destruct (decide (y = x)) as [->|Hne].
  - cbn [length]. rewrite IH.
    rewrite (bool_decide_eq_false_2 (x ∈ l)); [|assumption].
    rewrite bool_decide_eq_true_2; [reflexivity | now left].
  - rewrite IH. apply (f_equal (fun b : bool => if b then 1 else 0)).
    apply bool_decide_ext. rewrite elem_of_cons. split; [tauto|].
    intros [E | E]; [congruence | assumption].
Qed.

(** C8. The warnings of an analysis hold every text at most once, also
    after any number of applications of the fix; the absolute-path warning
    is there once when some scanned file has a root-absolute reference and
    not at all otherwise; fifty pages with such a reference give it once. *)
Theorem warnings_duplicate_free (z : Archive) (n : nat) :
  NoDup (warnings (Nat.iter n fixAbsolutePaths (analyzeZip z)))
  /\ length (filter (fun w => w = absolutePathsWarning)
                    (warnings (analyzeZip z)))
     = (if existsb flaggedAbsolute (files (analyzeZip z)) then 1 else 0)
  /\ (length (files (analyzeZip fiftyPages)) = 50
      /\ forallb flaggedAbsolute (files (analyzeZip fiftyPages)) = true
      /\ length (filter (fun w => w = absolutePathsWarning)
                        (warnings (analyzeZip fiftyPages))) = 1).
Proof.
  split; [|split].
  - induction n as [|n IH]; cbn [Nat.iter].
    + apply analyzeZip_warnings_NoDup.
    + now apply fixAbsolutePaths_warnings_NoDup.
  - rewrite (count_NoDup _ _ (analyzeZip_warnings_NoDup z)).
    pose proof (analyzeZip_absolute_warned z) as H.
    destruct (existsb flaggedAbsolute (files (analyzeZip z))).
    + rewrite bool_decide_eq_true_2; [reflexivity|].
      apply list_elem_of_In. now apply H.
    + rewrite bool_decide_eq_false_2; [reflexivity|]. intros Hin.
      apply list_elem_of_In, H in Hin. discriminate.
  - vm_compute. auto.
Qed.

(** C7. Archive analysis returns a total that is the sum of the sizes of
    the kept files; the fix keeps the old total while it changes the size of
    every file it rewrites, so on a page with one root-absolute reference the
    total stays at 31 and the sizes sum to 32. *)
Theorem totalSize_after_fix_is_stale :
  (forall z, totalSize (analyzeZip z) = sumSizes (files (analyzeZip z)))
  /\ (forall a, totalSize (fixAbsolutePaths a) = totalSize a)
  /\ totalSize (fixAbsolutePaths (analyzeZip onePageArchive)) = 31%Z
  /\ sumSizes (files (fixAbsolutePaths (analyzeZip onePageArchive))) = 32%Z.
Proof.
  split; [exact analyzeZip_totalSize|].
  split; [reflexivity|].
  split; vm_compute; reflexivity.
Qed.

(** C9. A missing-asset warning for a name is in the warnings of an
    analysis exactly when the captured root page has a reference that does
    not start with http, two slashes, a hash sign or a slash, that
    normalizes to that name, and no kept file has that path; without a
    captured root page there is no reference.  A missing style sheet is
    warned about by name, a script on another host is not. *)
Theorem missing_asset_scan (z : Archive) (r : jsstring) :
  (In (missingAssetWarning r) (warnings (analyzeZip z)) <->
   exists m,
     In m (Re.matchAll Re.refRegex Re.refLen
             (capturedIndexHtml (files (analyzeZip z))))
     /\ skippedRef (Re.ref m) = false
     /\ normalizeRef (Re.ref m) = r
     /\ hasRootFile r (files (analyzeZip z)) = false)
  /\ (hasRootFile "index.html" (files (analyzeZip z)) = false ->
      capturedIndexHtml (files (analyzeZip z)) = [])
  /\ warnings (analyzeZip assetArchive) = [missingAssetWarning "css/app.css"].
Proof.
  split; [|split; [apply capturedIndexHtml_without_index | vm_compute; reflexivity]].
  destruct (analyzeZip_warnings z) as (extra & -> & Hextra).
  rewrite in_app_iff, checkAssets_In. split.
  - intros [[H | (m & Hin & Hs & Hf & Hw)] | H].
    + destruct (existsb flaggedAbsolute _); [|destruct H].
      destruct H as [H | []]. symmetry in H.
      now apply missingAssetWarning_not_absolute in H.
    + apply missingAssetWarning_inj in Hw. subst r. exists m. tauto.
    + destruct Hextra as [-> | (_ & msg & -> & _ & Hm)]; [destruct H|].
      destruct H as [-> | []]. now contradiction (Hm r).
  - intros (m & Hin & Hs & <- & Hf). left. right. exists m. tauto.
Qed.

Lemma missing_asset_scan_witness :
  In (missingAssetWarning "css/app.css") (warnings (analyzeZip assetArchive)).
Proof.
  apply (proj1 (missing_asset_scan assetArchive "css/app.css")).
  eexists. split; [vm_compute; left; reflexivity|]. vm_compute. auto.
Defined.

Lemma missing_asset_scan_counterexample : ~ warnsEveryMissingAsset httpdArchive.
Proof.
  intros H.
  specialize (H (Re.mkRef ("src=" ++ quoted "httpd.js") "httpd.js")).
  assert (Hno : ~ In (missingAssetWarning "httpd.js")
                     (warnings (analyzeZip httpdArchive))).
  { vm_compute. intros [E | []]; discriminate. }
  apply Hno, H; vm_compute; auto.
Qed.

(** A reference with a scheme other than http is not passed over: the mail
    address of the same page is reported as a missing asset. *)
Lemma mailto_reference_is_warned :
  isAbsoluteUrl "mailto:team@example.org" = true
  /\ warnings (analyzeZip httpdArchive)
     = [missingAssetWarning "mailto:team@example.org"].
Proof. split; vm_compute; reflexivity. Qed.

(** ** Common-root detection *)

Lemma startsWith_app s t : Js.startsWith s t = true <-> exists r, s = t ++ r.
Proof.
  revert s. induction t as [|c t IH]; intros s; cbn [Js.startsWith].
  - split; [intros _; now exists s | reflexivity].
  - destruct s as [|d s].
    + split; [discriminate | intros (r & Hr); discriminate].
    + rewrite andb_true_iff, Ascii.eqb_eq, IH. split.
      * intros (-> & r & ->). now exists r.
      * intros (r & Hr). injection Hr as -> ->. split; [reflexivity | now exists r].
Qed.

Lemma startsWith_refl_app t r : Js.startsWith (t ++ r) t = true.
Proof. apply startsWith_app. now exists r. Qed.

Lemma startsWith_trans s t u :
  Js.startsWith s t = true -> Js.startsWith t u = true -> Js.startsWith s u = true.
Proof.
  rewrite !startsWith_app. intros (r & ->) (r' & ->).
  exists (r' ++ r). now rewrite app_assoc.
Qed.

Lemma startsWith_take s n : Js.startsWith s (take n s) = true.
Proof. apply startsWith_app. exists (drop n s). now rewrite take_drop. Qed.


Lemma ltb_asym c d : Ascii.ltb c d = true -> Ascii.ltb d c = false.
Proof.
  unfold Ascii.ltb. rewrite (Ascii.compare_antisym d c).
  now destruct (Ascii.compare c d).
Qed.

Lemma ltb_total c d : c <> d -> Ascii.ltb c d = false -> Ascii.ltb d c = true.
Proof.
  unfold Ascii.ltb. intros Hne. rewrite (Ascii.compare_antisym d c).
  destruct (Ascii.compare c d) eqn:E; cbn; try easy.
  now apply Ascii.compare_eq_iff in E.
Qed.

Lemma ltb_trans c d e :
  Ascii.ltb c d = true -> Ascii.ltb d e = true -> Ascii.ltb c e = true.
Proof.
  unfold Ascii.ltb, Ascii.compare.
  destruct (N.compare_spec (N_of_ascii c) (N_of_ascii d)); try discriminate.
  destruct (N.compare_spec (N_of_ascii d) (N_of_ascii e)); try discriminate.
  intros _ _. destruct (N.compare_spec (N_of_ascii c) (N_of_ascii e)); [lia | reflexivity | lia].
Qed.

Lemma ltb_irrefl c : Ascii.ltb c c = false.
Proof. destruct (Ascii.ltb c c) eqn:E; [|reflexivity]. now rewrite (ltb_asym _ _ E) in E. Qed.

#[global] Instance le_total : Total Js.le.
Proof.
  unfold Js.le. intros s. induction s as [|c s IH]; intros t; [now left|].
  destruct t as [|d t]; [now right|]. cbn [Js.leb].
  rewrite (Ascii.eqb_sym d c).
  destruct (Ascii.eqb_spec c d) as [->|Hne]; [apply IH|].
  destruct (Ascii.ltb c d) eqn:E; [now left|]. right. now apply ltb_total.
Qed.

#[global] Instance le_trans : Transitive Js.le.
Proof.
  unfold Js.le. intros s. induction s as [|c s IH]; intros t u; [reflexivity|].
  destruct t as [|d t]; [discriminate|].
  destruct u as [|e u]; [now destruct (Ascii.eqb c d)|].
  cbn [Js.leb].
  destruct (Ascii.eqb_spec c d) as [->|Hcd].
  - destruct (Ascii.eqb_spec d e) as [->|Hde]; [apply IH | auto].
  - intros Hlt. destruct (Ascii.eqb_spec d e) as [->|Hde].
    + intros _. now destruct (Ascii.eqb_spec c e).
    + intros Hlt'. pose proof (ltb_trans _ _ _ Hlt Hlt') as H.
      destruct (Ascii.eqb_spec c e) as [->|Hce]; [|assumption].
      now rewrite (ltb_asym _ _ Hlt) in Hlt'.
Qed.

Lemma sort_sorted ps : StronglySorted Js.le (Js.sort ps).
Proof. apply StronglySorted_merge_sort; apply _. Qed.

Lemma sort_permutation ps : Js.sort ps ≡ₚ ps.
Proof. apply merge_sort_Permutation. Qed.

Lemma last_cons_default {A : Type} (rest : list A) : forall z d,
  List.last (z :: rest) d = List.last rest z.
Proof.
  induction rest as [|w rest IH]; intros z d; [reflexivity|].
  change (List.last (z :: w :: rest) d) with (List.last (w :: rest) d).
  now rewrite (IH w d), (IH w z).
Qed.

Lemma le_refl s : Js.le s s.
Proof. now destruct (total Js.le s s). Qed.

(** In a sorted list every element lies between the first and the last. *)
Lemma sorted_between first rest :
  StronglySorted Js.le (first :: rest) ->
  forall x, In x (first :: rest) ->
    Js.le first x /\ Js.le x (List.last rest first).
Proof.
  revert first. induction rest as [|y rest IH]; intros first Hs x Hx.
  - destruct Hx as [<- | []]. cbn. split; apply le_refl.
  - apply StronglySorted_inv in Hs. destruct Hs as [Hs Hall].
    rewrite last_cons_default. rewrite List.Forall_forall in Hall.
    destruct Hx as [<- | Hx].
    + split; [apply le_refl|].
      transitivity y; [apply Hall; now left|]. apply (IH y Hs y). now left.
    + split; [now apply Hall|]. now apply (IH y Hs x).
Qed.

(** What lies between two strings starts with their common prefix. *)
Lemma between_startsWith first : forall last s,
  Js.le first s -> Js.le s last ->
  Js.startsWith s (take (commonLength first last) first) = true.
Proof.
  unfold Js.le. induction first as [|c first IH]; intros last s H1 H2; [reflexivity|].
  destruct last as [|d last]; [reflexivity|]. cbn [commonLength].
  destruct (Ascii.eqb_spec c d) as [<-|Hne]; [|reflexivity].
  destruct s as [|e s]; [discriminate|]. cbn [Js.leb] in H1, H2.
  cbn [take Js.startsWith].
  destruct (Ascii.eqb_spec c e) as [<-|Hce].
  - rewrite Ascii.eqb_refl in H2. cbn [andb]. now apply IH.
  - exfalso. destruct (Ascii.eqb_spec e c) as [->|_]; [now apply Hce|].
    now rewrite (ltb_asym _ _ H1) in H2.
Qed.

(** A common prefix of two strings is within their common length. *)
Lemma commonLength_max first : forall last t,
  Js.startsWith first t = true -> Js.startsWith last t = true ->
  Js.startsWith (take (commonLength first last) first) t = true.
Proof.
  induction first as [|c first IH]; intros last t H1 H2.
  - destruct t; [reflexivity | discriminate].
  - destruct t as [|e t]; [reflexivity|]. cbn [Js.startsWith] in H1.
    apply andb_true_iff in H1. destruct H1 as [E1 H1]. apply Ascii.eqb_eq in E1. subst e.
    destruct last as [|d last]; [discriminate|]. cbn [Js.startsWith] in H2.
    apply andb_true_iff in H2. destruct H2 as [E2 H2]. apply Ascii.eqb_eq in E2. subst d.
    cbn [commonLength]. rewrite Ascii.eqb_refl. cbn [take Js.startsWith].
    rewrite Ascii.eqb_refl. cbn [andb]. now apply IH.
Qed.

Lemma lastIndexOfFrom_absent c s : forall i found,
  ~ In c s -> Js.lastIndexOfFrom i c s found = found.
Proof.
  induction s as [|d s IH]; intros i found Hc; [reflexivity|].
  cbn [Js.lastIndexOfFrom]. destruct (Ascii.eqb_spec d c) as [->|Hne].
  - exfalso. apply Hc. now left.
  - apply IH. intros H. apply Hc. now right.
Qed.

Lemma lastIndexOfFrom_last c u v : forall i found,
  ~ In c v ->
  Js.lastIndexOfFrom i c (u ++ c :: v) found = (i + Z.of_nat (length u))%Z.
Proof.
  induction u as [|d u IH]; intros i found Hc.
  - cbn [app Js.lastIndexOfFrom length]. rewrite Ascii.eqb_refl.
    rewrite lastIndexOfFrom_absent by assumption. lia.
  - cbn [app Js.lastIndexOfFrom]. rewrite IH by assumption.
    cbn [length]. lia.
Qed.

Lemma split_last_occurrence (c : ascii) s :
  ~ In c s \/ exists u v, s = u ++ c :: v /\ ~ In c v.
Proof.
  induction s as [|d s IH]; [left; intros []|].
  destruct IH as [Hno | (u & v & -> & Hv)].
  - destruct (Ascii.eqb_spec d c) as [->|Hne].
    + right. exists [], s. split; [reflexivity | assumption].
    + left. intros [H | H]; [now apply Hne | now apply Hno].
  - right. exists (d :: u), v. split; [reflexivity | assumption].
Qed.

(** The candidate of step 2: the common prefix of the two ends of the sorted
    list, cut behind its last slash. *)
Lemma truncate_without_slash s :
  ~ In Js.slash s -> Js.lastIndexOf s Js.slash = (-1)%Z.
Proof. intros H. unfold Js.lastIndexOf. now apply lastIndexOfFrom_absent. Qed.

Lemma truncate_at_last_slash u v :
  ~ In Js.slash v ->
  Js.lastIndexOf (u ++ Js.slash :: v) Js.slash = Z.of_nat (length u)
  /\ Js.substringTo (u ++ Js.slash :: v)
                    (Z.to_nat (Z.of_nat (length u) + 1)) = u ++ [Js.slash].
Proof.
  intros H. unfold Js.lastIndexOf. rewrite lastIndexOfFrom_last by assumption.
  split; [lia|]. unfold Js.substringTo.
  replace (Z.to_nat (Z.of_nat (length u) + 1)) with (length (u ++ [Js.slash]))
    by (rewrite length_app; cbn [length]; lia).
  change (u ++ Js.slash :: v) with (u ++ [Js.slash] ++ v).
  rewrite app_assoc. apply take_app_length.
Qed.

Lemma forallb_startsWith ps t :
  forallb (fun p => Js.startsWith p t) ps = true <->
  Forall (fun p => Js.startsWith p t = true) ps.
Proof. rewrite forallb_forall, List.Forall_forall. reflexivity. Qed.

(** Every path starts with the common prefix of the two ends. *)
Lemma paths_start_with_common ps first rest :
  Js.sort ps = first :: rest ->
  Forall (fun p => Js.startsWith p
            (take (commonLength first (List.last rest first)) first) = true) ps.
Proof.
  intros Hs. apply List.Forall_forall. intros p Hp.
  assert (Hin : In p (first :: rest)).
  { rewrite <- Hs. apply list_elem_of_In. rewrite sort_permutation.
    now apply list_elem_of_In. }
  pose proof (sort_sorted ps) as Hsorted. rewrite Hs in Hsorted.
  destruct (sorted_between first rest Hsorted p Hin) as [H1 H2].
  now apply between_startsWith.
Qed.

Lemma sort_nonempty ps : ps <> [] -> exists first rest, Js.sort ps = first :: rest.
Proof.
  intros Hne. destruct (Js.sort ps) as [|first rest] eqn:E; [|eauto].
  exfalso. apply Hne. apply Permutation_nil_r. rewrite <- E.
  symmetry. apply sort_permutation.
Qed.

(** The result of step 2 in terms of the common prefix of the two ends. *)
Lemma detectCommonPrefix_cases ps first rest :
  Js.sort ps = first :: rest ->
  let lcp := take (commonLength first (List.last rest first)) first in
  (~ In Js.slash lcp /\ detectCommonPrefix ps = [])
  \/ (exists u v, lcp = u ++ Js.slash :: v /\ ~ In Js.slash v
                  /\ detectCommonPrefix ps = u ++ [Js.slash]).
Proof.
  intros Hs lcp. unfold detectCommonPrefix. rewrite Hs.
  unfold Js.substringTo. fold lcp.
  destruct (split_last_occurrence Js.slash lcp) as [Hno | (u & v & Hlcp & Hv)].
  - left. split; [assumption|]. now rewrite (truncate_without_slash lcp Hno).
  - right. exists u, v. split; [assumption|]. split; [assumption|].
    destruct (truncate_at_last_slash u v Hv) as [Hidx Htake].
    rewrite Hlcp, Hidx. unfold Js.substringTo in Htake. rewrite Htake.
    replace (Z.of_nat (length u) =? -1)%Z with false by (symmetry; apply Z.eqb_neq; lia).
    cbn [negb].
    rewrite (proj2 (forallb_startsWith ps (u ++ [Js.slash]))); [reflexivity|].
    eapply Forall_impl; [apply (paths_start_with_common ps first rest Hs)|].
    intros p Hp. cbn beta in Hp. fold lcp in Hp. apply (startsWith_trans _ _ _ Hp).
    rewrite Hlcp. change (u ++ Js.slash :: v) with (u ++ [Js.slash] ++ v).
    rewrite app_assoc. apply startsWith_refl_app.
Qed.

Lemma detectCommonPrefix_nil : detectCommonPrefix [] = [].
Proof. reflexivity. Qed.

(** What is stripped is empty or a run of whole folders that every path
    starts with. *)
Lemma detectCommonPrefix_whole_folders ps :
  (detectCommonPrefix ps = []
   \/ exists u, detectCommonPrefix ps = u ++ [Js.slash])
  /\ Forall (fun p => Js.startsWith p (detectCommonPrefix ps) = true) ps.
Proof.
  destruct ps as [|p0 ps0] eqn:Eps.
  - split; [now left | constructor].
  - rewrite <- Eps. assert (Hne : ps <> []) by (rewrite Eps; discriminate).
    destruct (sort_nonempty ps Hne) as (first & rest & Hs).
    destruct (detectCommonPrefix_cases ps first rest Hs)
      as [(_ & ->) | (u & v & Hlcp & Hv & ->)].
    + split; [now left|]. apply List.Forall_forall. reflexivity.
    + split; [right; now exists u|].
      eapply Forall_impl; [apply (paths_start_with_common ps first rest Hs)|].
      intros p Hp. cbn beta in Hp. apply (startsWith_trans _ _ _ Hp).
      rewrite Hlcp. change (u ++ Js.slash :: v) with (u ++ [Js.slash] ++ v).
      rewrite app_assoc. apply startsWith_refl_app.
Qed.

(** A folder that wraps every path is part of what is stripped. *)
Lemma detectCommonPrefix_covers ps d :
  ps <> [] ->
  Forall (fun p => Js.startsWith p (d ++ [Js.slash]) = true) ps ->
  Js.startsWith (detectCommonPrefix ps) (d ++ [Js.slash]) = true.
Proof.
  intros Hne Hall. destruct (sort_nonempty ps Hne) as (first & rest & Hs).
  rewrite List.Forall_forall in Hall.
  assert (Hin : forall x, In x (first :: rest) -> In x ps).
  { intros x Hx. apply list_elem_of_In. rewrite <- sort_permutation, Hs.
    now apply list_elem_of_In. }
  assert (Hfirst : Js.startsWith first (d ++ [Js.slash]) = true)
    by (apply Hall, Hin; now left).
  assert (Hlast : Js.startsWith (List.last rest first) (d ++ [Js.slash]) = true).
  { apply Hall, Hin. destruct rest as [|y rest]; [now left|].
    right. rewrite last_cons_default.
    clear. revert y. induction rest as [|z rest IH]; intros y; [now left|].
    rewrite last_cons_default. right. apply IH. }
  pose proof (commonLength_max first _ _ Hfirst Hlast) as Hlcp.
  apply startsWith_app in Hlcp. destruct Hlcp as (w & Hw).
  destruct (detectCommonPrefix_cases ps first rest Hs)
    as [(Hno & _) | (u & v & Hlcp & Hv & ->)].
  - exfalso. apply Hno. rewrite Hw. rewrite !in_app_iff. left. right. now left.
  - rewrite Hw in Hlcp. rewrite <- app_assoc in Hlcp. cbn [app] in Hlcp.
    apply app_eq_app in Hlcp. destruct Hlcp as (l & [(-> & Hl) | (-> & Hl)]).
    + destruct l as [|c l]; [rewrite app_nil_r; apply startsWith_app; exists []; now rewrite app_nil_r|].
      exfalso. cbn [app] in Hl. injection Hl as <- ->. apply Hv.
      rewrite in_app_iff. right. now left.
    + destruct l as [|c l]; [rewrite app_nil_r; apply startsWith_app; exists []; now rewrite app_nil_r|].
      cbn [app] in Hl. injection Hl as <- _.
      apply startsWith_app. exists (l ++ [Js.slash]).
      now rewrite <- !app_assoc.
Qed.

Lemma stripPrefix_app root r :
  root <> [] -> stripPrefix root (root ++ r) = r.
Proof.
  intros Hne. unfold stripPrefix, Js.substringFrom.
  destruct root as [|c root]; [contradiction|]. cbn [Js.truthy].
  apply drop_app_length.
Qed.




(** ** The fix pattern *)

Lemma isQuote_cases c : Js.isQuote c = true -> c = Js.dquote \/ c = Js.squote.
Proof.
  unfold Js.isQuote. rewrite orb_true_iff, !Ascii.eqb_eq. tauto.
Qed.

Lemma eqCI_equals_sign d : Js.eqCI "=" d = true -> d = "="%char.
Proof.
  destruct d as [[] [] [] [] [] [] [] []]; vm_compute; intros H;
    (reflexivity || discriminate).
Qed.

Lemma eqCI_plain x d :
  Js.eqCI x d = true ->
  Js.toUpper x <> Js.dquote -> Js.toUpper x <> Js.squote ->
  Js.toUpper x <> Js.slash -> Js.toUpper x <> "."%char ->
  plain d.
Proof.
  unfold Js.eqCI. rewrite Ascii.eqb_eq. intros E H1 H2 H3 H4. unfold plain.
  split; [|split].
  - destruct (Js.isQuote d) eqn:Q; [|reflexivity]. exfalso.
    apply isQuote_cases in Q. destruct Q; subst d; [now apply H1 | now apply H2].
  - intros ->. now apply H3.
  - intros ->. now apply H4.
Qed.

Ltac plain_letter :=
  match goal with
  | H : Js.eqCI ?x ?d = true |- plain ?d =>
      apply (eqCI_plain x d H); vm_compute; discriminate
  end.

Lemma spanNonQuote_spec s u v :
  Js.spanNonQuote s = (u, v) ->
  s = u ++ v /\ Forall nonQuote u
  /\ (v = [] \/ exists q v', v = q :: v' /\ Js.isQuote q = true).
Proof.
  revert u v. induction s as [|c s IH]; intros u v; cbn [Js.spanNonQuote].
  - intros [= <- <-]. split; [reflexivity|]. split; [constructor | now left].
  - destruct (Js.isQuote c) eqn:Q.
    + intros [= <- <-]. split; [reflexivity|]. split; [constructor|].
      right. now exists c, s.
    + destruct (Js.spanNonQuote s) as [run rest]. intros [= <- <-].
      destruct (IH run rest eq_refl) as (-> & Hrun & Hrest).
      split; [reflexivity|]. split; [now constructor | assumption].
Qed.

Lemma spanNonQuote_app u s :
  Forall nonQuote u ->
  Js.spanNonQuote (u ++ s)
  = (u ++ fst (Js.spanNonQuote s), snd (Js.spanNonQuote s)).
Proof.
  induction 1 as [|c u Hc Hu IH]; cbn [app Js.spanNonQuote].
  - now destruct (Js.spanNonQuote s).
  - rewrite Hc, IH. reflexivity.
Qed.

Lemma spanNonQuote_quote q s :
  Js.isQuote q = true -> Js.spanNonQuote (q :: s) = ([], q :: s).
Proof. intros Q. cbn [Js.spanNonQuote]. now rewrite Q. Qed.

Lemma spanNonQuote_until u q s :
  Forall nonQuote u -> Js.isQuote q = true ->
  Js.spanNonQuote (u ++ q :: s) = (u, q :: s).
Proof.
  intros Hu Q. rewrite spanNonQuote_app by assumption.
  rewrite spanNonQuote_quote by assumption. cbn [fst snd]. now rewrite app_nil_r.
Qed.

Lemma hasQuote_until u q s :
  Forall nonQuote u -> Js.isQuote q = true -> hasQuote (u ++ q :: s) = true.
Proof.
  intros Hu Q. unfold hasQuote. now rewrite spanNonQuote_until.
Qed.

Lemma hasQuote_app_l u s : hasQuote u = true -> hasQuote (u ++ s) = true.
Proof.
  unfold hasQuote. destruct (Js.spanNonQuote u) as [p v] eqn:E. cbn [snd].
  destruct v as [|q v]; [discriminate|]. intros _.
  destruct (spanNonQuote_spec u p (q :: v) E) as (-> & Hp & [Hv | (q' & v' & Hv & Q)]);
    [discriminate|]. injection Hv as <- <-.
  rewrite <- app_assoc. cbn [app]. now rewrite spanNonQuote_until.
Qed.

(** The characters of an attribute name with its equals sign. *)
Lemma isAttrEq_shape u :
  isAttrEq u = true ->
  Forall plain (removelast u) /\ exists a, u = a ++ ["="%char] /\ a <> []
  /\ (Js.startsWithCI a "src" = true /\ length a = 3
      \/ Js.startsWithCI a "href" = true /\ length a = 4).
Proof.
  unfold isAttrEq, eqStrCI. rewrite orb_true_iff, !andb_true_iff, !Nat.eqb_eq.
  intros [[Hlen H] | [Hlen H]].
  - destruct u as [|c1 [|c2 [|c3 [|c4 [|c5 u]]]]]; try discriminate.
    cbn in H. rewrite !andb_true_iff in H. destruct H as (H1 & H2 & H3 & H4 & _).
    apply eqCI_equals_sign in H4. subst c4. split.
    + cbn [removelast]. repeat (apply List.Forall_cons; [plain_letter|]). apply List.Forall_nil.
    + exists [c1; c2; c3]. split; [reflexivity|]. split; [discriminate|]. left.
      split; [|reflexivity]. cbn. now rewrite H1, H2, H3.
  - destruct u as [|c1 [|c2 [|c3 [|c4 [|c5 [|c6 u]]]]]]; try discriminate.
    cbn in H. rewrite !andb_true_iff in H. destruct H as (H1 & H2 & H3 & H4 & H5 & _).
    apply eqCI_equals_sign in H5. subst c5. split.
    + cbn [removelast]. repeat (apply List.Forall_cons; [plain_letter|]). apply List.Forall_nil.
    + exists [c1; c2; c3; c4]. split; [reflexivity|]. split; [discriminate|]. right.
      split; [|reflexivity]. cbn. now rewrite H1, H2, H3, H4.
Qed.

Lemma plain_nonQuote d : plain d -> nonQuote d.
Proof. now intros (H & _). Qed.

Lemma isAttrEq_nonQuote u : isAttrEq u = true -> Forall nonQuote u.
Proof.
  intros H. destruct (isAttrEq_shape u H) as (Hp & a & -> & _ & _).
  rewrite removelast_last in Hp. apply Forall_app. split.
  - eapply Forall_impl; [exact Hp | exact plain_nonQuote].
  - repeat constructor.
Qed.

Lemma isAttrEq_head u :
  isAttrEq u = true -> exists c u', u = c :: u' /\ plain c.
Proof.
  intros H. destruct (isAttrEq_shape u H) as (Hp & a & -> & Ha & _).
  rewrite removelast_last in Hp. destruct a as [|c a]; [contradiction|].
  exists c, (a ++ ["="%char]). split; [reflexivity|]. now apply Forall_inv in Hp.
Qed.

Lemma altThen_Some {A : Type} (ci : bool) (alts : list jsstring)
    (s : jsstring) (k : jsstring -> jsstring -> option A) (r : A) :
  Re.altThen ci alts s k = Some r ->
  exists a, In a alts
            /\ (if ci then Js.startsWithCI s a else Js.startsWith s a) = true
            /\ k (take (length a) s) (drop (length a) s) = Some r.
Proof.
  induction alts as [|a alts IH]; cbn [Re.altThen]; [discriminate|].
  destruct (if ci then Js.startsWithCI s a else Js.startsWith s a) eqn:E.
  - destruct (k (take (length a) s) (drop (length a) s)) as [r'|] eqn:K.
    + intros [= <-]. exists a. split; [now left|]. now split.
    + intros H. destruct (IH H) as (a' & Hin & H'). exists a'. split; [now right | assumption].
  - intros H. destruct (IH H) as (a' & Hin & H'). exists a'. split; [now right | assumption].
Qed.

Lemma altThen_complete {A : Type} (ci : bool) (alts : list jsstring)
    (s : jsstring) (k : jsstring -> jsstring -> option A) (a : jsstring) (r : A) :
  In a alts ->
  (if ci then Js.startsWithCI s a else Js.startsWith s a) = true ->
  k (take (length a) s) (drop (length a) s) = Some r ->
  exists r', Re.altThen ci alts s k = Some r'.
Proof.
  induction alts as [|a' alts IH]; intros Hin Ht Hk; [destruct Hin|].
  cbn [Re.altThen]. destruct Hin as [-> | Hin].
  - rewrite Ht, Hk. eauto.
  - destruct (if ci then Js.startsWithCI s a' else Js.startsWith s a');
      [destruct (k (take (length a') s) (drop (length a') s)); eauto | eauto].
Qed.

Lemma startsWithCI_split s t :
  Js.startsWithCI s t = true ->
  length (take (length t) s) = length t
  /\ Js.startsWithCI (take (length t) s) t = true.
Proof.
  revert s. induction t as [|c t IH]; intros s; [split; reflexivity|].
  destruct s as [|d s]; cbn [Js.startsWithCI]; [discriminate|].
  rewrite andb_true_iff. intros [E H]. destruct (IH s H) as [Hl Hs].
  cbn [length take Js.startsWithCI]. rewrite E, Hs, Hl. split; reflexivity.
Qed.

Lemma startsWithCI_app a x t y :
  length a = length t ->
  Js.startsWithCI (a ++ x) (t ++ y) = Js.startsWithCI a t && Js.startsWithCI x y.
Proof.
  revert a. induction t as [|c t IH]; intros a Hlen.
  - destruct a; [reflexivity | discriminate].
  - destruct a as [|d a]; [discriminate|]. cbn [app Js.startsWithCI].
    rewrite IH by (cbn in Hlen; lia). now rewrite andb_assoc.
Qed.

Lemma absRefTail_Some a rest m :
  Re.absRefTail a rest = Some m ->
  exists q1 p q2 rest',
    rest = "="%char :: q1 :: Js.slash :: p ++ q2 :: rest'
    /\ m = Re.mkAbsRef (a ++ "="%char :: q1 :: Js.slash :: p ++ [q2]) a p
    /\ Js.isQuote q1 = true /\ Js.isQuote q2 = true /\ Forall nonQuote p
    /\ Js.startsWith (p ++ q2 :: rest') "/" = false.
Proof.
  unfold Re.absRefTail. destruct rest as [|e [|q1 [|sl w]]]; try discriminate.
  destruct (Ascii.eqb_spec e "=") as [->|]; [|discriminate].
  destruct (Js.isQuote q1) eqn:Q1; [|discriminate].
  destruct (Ascii.eqb_spec sl Js.slash) as [->|]; [|discriminate].
  cbn [andb]. destruct (Js.startsWith w "/") eqn:L; [discriminate|]. cbn [negb].
  destruct (Js.spanNonQuote w) as [p rest''] eqn:S.
  destruct (spanNonQuote_spec w p rest'' S) as (-> & Hp & Hrest).
  destruct rest'' as [|q2 rest']; [discriminate|]. intros [= <-].
  destruct Hrest as [|(q & v & [= <- <-] & Q2)]; [discriminate|].
  exists q1, p, q2, rest'. repeat split; assumption.
Qed.

Lemma absRefTail_complete a q1 w :
  Js.isQuote q1 = true -> Js.startsWith w "/" = false -> hasQuote w = true ->
  exists m, Re.absRefTail a ("="%char :: q1 :: Js.slash :: w) = Some m.
Proof.
  intros Q1 L H. unfold Re.absRefTail. rewrite Q1, L, !Ascii.eqb_refl. cbn [andb negb].
  unfold hasQuote in H. destruct (Js.spanNonQuote w) as [p rest'']. cbn [snd] in H.
  destruct rest''; [discriminate | eauto].
Qed.

Lemma isAttrEq_of_attr s t :
  In t ["src" : jsstring; "href" : jsstring] ->
  Js.startsWithCI s t = true ->
  isAttrEq (take (length t) s ++ ["="%char]) = true.
Proof.
  intros Hin Hs. destruct (startsWithCI_split s t Hs) as [Hl Ht].
  unfold isAttrEq, eqStrCI. apply orb_true_iff.
  destruct Hin as [<- | [<- | []]]; [left | right]; apply andb_true_iff; split.
  - rewrite length_app, Hl. reflexivity.
  - change (list_ascii_of_string "src=") with (list_ascii_of_string "src" ++ ["="%char]).
    rewrite startsWithCI_app by assumption. now rewrite Ht.
  - rewrite length_app, Hl. reflexivity.
  - change (list_ascii_of_string "href=") with (list_ascii_of_string "href" ++ ["="%char]).
    rewrite startsWithCI_app by assumption. now rewrite Ht.
Qed.

(** The shape of a match of the fix pattern. *)
Lemma fixRegex_shape s m :
  Re.fixRegex s = Some m ->
  exists a q1 p q2 rest,
    s = a ++ "="%char :: q1 :: Js.slash :: p ++ q2 :: rest
    /\ m = Re.mkAbsRef (a ++ "="%char :: q1 :: Js.slash :: p ++ [q2]) a p
    /\ isAttrEq (a ++ ["="%char]) = true
    /\ Js.isQuote q1 = true /\ Js.isQuote q2 = true /\ Forall nonQuote p
    /\ Js.startsWith (p ++ q2 :: rest) "/" = false.
Proof.
  unfold Re.fixRegex. intros H.
  destruct (altThen_Some _ _ _ _ _ H) as (t & Hin & Ht & Hk).
  destruct (absRefTail_Some _ _ _ Hk) as (q1 & p & q2 & rest & Hrest & -> & Hq).
  exists (take (length t) s), q1, p, q2, rest.
  split; [rewrite <- Hrest; symmetry; apply take_drop|].
  split; [reflexivity|]. split; [|exact Hq].
  now apply isAttrEq_of_attr.
Qed.

Lemma fixRegex_sound s m : Re.fixRegex s = Some m -> matchesAtHead s = true.
Proof.
  intros H.
  destruct (fixRegex_shape s m H) as (a & q1 & p & q2 & rest & -> & _ & Ha & Q1 & Q2 & Hp & L).
  unfold matchesAtHead.
  change (a ++ "="%char :: q1 :: Js.slash :: p ++ q2 :: rest)
    with (a ++ ["="%char] ++ q1 :: Js.slash :: p ++ q2 :: rest).
  rewrite app_assoc, spanNonQuote_until by (auto using isAttrEq_nonQuote).
  rewrite Ha, Ascii.eqb_refl, L, hasQuote_until by assumption. reflexivity.
Qed.

Lemma fixRegex_complete s :
  matchesAtHead s = true -> exists m, Re.fixRegex s = Some m.
Proof.
  unfold matchesAtHead. destruct (Js.spanNonQuote s) as [u v] eqn:S.
  destruct (spanNonQuote_spec s u v S) as (-> & Hu & Hv).
  rewrite andb_true_iff. intros [Ha Hrest].
  destruct v as [|q1 [|sl w]]; try discriminate.
  rewrite !andb_true_iff, Ascii.eqb_eq, negb_true_iff in Hrest.
  destruct Hrest as [[-> L] Hq].
  destruct Hv as [|(q & v' & [= <- <-] & Q1)]; [discriminate|].
  destruct (isAttrEq_shape u Ha) as (_ & a & -> & _ & Hattr).
  rewrite <- app_assoc. cbn [app]. unfold Re.fixRegex.
  destruct Hattr as [[Hs Hl] | [Hs Hl]].
  - destruct (absRefTail_complete a q1 w Q1 L Hq) as (m & Hm).
    apply (altThen_complete true _ _ _ ("src" : jsstring) m); [now left | |].
    + change (a ++ "="%char :: q1 :: Js.slash :: w)
        with (a ++ "="%char :: q1 :: Js.slash :: w).
      rewrite <- (app_nil_r (list_ascii_of_string "src")).
      rewrite startsWithCI_app by assumption. now rewrite Hs.
    + replace (length (list_ascii_of_string "src")) with (length a) by assumption.
      now rewrite take_app_length, drop_app_length.
  - destruct (absRefTail_complete a q1 w Q1 L Hq) as (m & Hm).
    apply (altThen_complete true _ _ _ ("href" : jsstring) m); [right; now left | |].
    + rewrite <- (app_nil_r (list_ascii_of_string "href")).
      rewrite startsWithCI_app by assumption. now rewrite Hs.
    + replace (length (list_ascii_of_string "href")) with (length a) by assumption.
      now rewrite take_app_length, drop_app_length.
Qed.

Lemma fixRegex_None s : Re.fixRegex s = None <-> matchesAtHead s = false.
Proof.
  split.
  - intros H. destruct (matchesAtHead s) eqn:E; [|reflexivity].
    destruct (fixRegex_complete s E) as (m & Hm). congruence.
  - intros H. destruct (Re.fixRegex s) as [m|] eqn:E; [|reflexivity].
    apply fixRegex_sound in E. congruence.
Qed.

(** ** Rewriting is stable *)

Lemma hasQuote_In w q : In q w -> Js.isQuote q = true -> hasQuote w = true.
Proof.
  intros Hin Q. unfold hasQuote. destruct (Js.spanNonQuote w) as [u v] eqn:S.
  destruct (spanNonQuote_spec w u v S) as (-> & Hu & _). cbn [snd].
  destruct v; [|reflexivity]. exfalso. rewrite app_nil_r in Hin.
  rewrite List.Forall_forall in Hu. apply Hu in Hin. unfold nonQuote in Hin. congruence.
Qed.

Lemma rewriteRef_shape m :
  exists q, Js.isQuote q = true
            /\ rewriteRef m
               = (Re.attr m ++ ["="%char]) ++ q :: ("."%char :: Js.slash :: Re.refPath m) ++ [q].
Proof.
  unfold rewriteRef.
  exists (if Js.includes (Re.matched m) [Js.dquote] then Js.dquote else Js.squote).
  split; [now destruct (Js.includes _ _)|].
  rewrite <- !app_assoc. reflexivity.
Qed.

Lemma endsWithCI_suffix l' l t : eqStrCI l t = true -> endsWithCI (l' ++ l) t = true.
Proof.
  intros H. induction l' as [|c l' IH].
  - destruct l; cbn [app endsWithCI]; rewrite H; reflexivity.
  - cbn [app endsWithCI]. rewrite IH. apply orb_true_r.
Qed.

Lemma stablePath_suffix p l' l :
  stablePath p = true -> p = l' ++ l -> isAttrEq l = false.
Proof.
  unfold stablePath, isAttrEq. rewrite andb_true_iff, !negb_true_iff.
  intros [H1 H2] ->. apply orb_false_iff. split.
  - destruct (eqStrCI l "src=") eqn:E; [|reflexivity].
    now rewrite (endsWithCI_suffix l' l _ E) in H1.
  - destruct (eqStrCI l "href=") eqn:E; [|reflexivity].
    now rewrite (endsWithCI_suffix l' l _ E) in H2.
Qed.

Lemma matchesAtHead_quote_first q s :
  Js.isQuote q = true -> matchesAtHead (q :: s) = false.
Proof. intros Q. unfold matchesAtHead. now rewrite spanNonQuote_quote. Qed.

Lemma isAttrEq_not_plain_head c l :
  ~ plain c -> isAttrEq (c :: l) = false.
Proof.
  intros Hc. destruct (isAttrEq (c :: l)) eqn:E; [|reflexivity].
  destruct (isAttrEq_head _ E) as (c' & u' & [= <- <-] & Hp). contradiction.
Qed.

(** No match starts inside a rewritten reference whose path is stable. *)
Lemma no_match_inside_rewrite a p q X Y Z :
  isAttrEq (a ++ ["="%char]) = true -> Forall nonQuote p ->
  Js.isQuote q = true -> stablePath p = true ->
  Y ++ Z = (a ++ ["="%char]) ++ q :: ("."%char :: Js.slash :: p) ++ [q] ->
  Z <> [] ->
  matchesAtHead (Z ++ X) = false.
Proof.
  intros Ha Hp Q Hst E HZ.
  assert (HB : Forall nonQuote ("."%char :: Js.slash :: p))
    by (repeat (apply List.Forall_cons; [reflexivity|]); assumption).
  remember ("."%char :: Js.slash :: p) as B eqn:EB.
  apply app_eq_app in E. destruct E as (l & [(-> & E) | (EA & ->)]).
  - (* Z lies behind the attribute *)
    destruct l as [|c l]; cbn [app] in E.
    + subst Z. now apply matchesAtHead_quote_first.
    + injection E as <- E. apply app_eq_app in E.
      destruct E as (l2 & [(El & ->) | (-> & E)]).
      * unfold matchesAtHead.
        assert (Hl2 : Forall nonQuote l2).
        { rewrite El in HB. now apply Forall_app in HB. }
        rewrite <- app_assoc. cbn [app].
        rewrite spanNonQuote_until by assumption.
        assert (Hno : isAttrEq l2 = false).
        { clear - EB El Hst. rewrite EB in El.
          destruct l as [|c1 [|c2 l]]; cbn [app] in El.
          - subst l2. apply isAttrEq_not_plain_head. intros (_ & _ & H). now apply H.
          - injection El as <- <-. apply isAttrEq_not_plain_head.
            intros (_ & H & _). now apply H.
          - injection El as <- <- ->. now apply (stablePath_suffix _ l l2 Hst). }
        now rewrite Hno.
      * destruct l2 as [|c2 l2]; cbn [app] in E.
        -- subst Z. now apply matchesAtHead_quote_first.
        -- injection E as <- E. symmetry in E. apply app_eq_nil in E.
           destruct E as [_ ->]. contradiction.
  - (* Z starts inside the attribute *)
    unfold matchesAtHead.
    assert (Hl : Forall nonQuote l).
    { apply isAttrEq_nonQuote in Ha. rewrite EA in Ha. now apply Forall_app in Ha. }
    rewrite <- app_assoc. cbn [app].
    rewrite spanNonQuote_until by assumption.
    rewrite EB. cbn. apply andb_false_r.
Qed.

(** A position before a match that did not match does not match once the
    match is rewritten. *)
Lemma no_new_match_before T A q1 p q2 q Y Y' :
  isAttrEq A = true ->
  Js.isQuote q1 = true -> Js.isQuote q = true ->
  matchesAtHead (T ++ (A ++ q1 :: Js.slash :: p ++ [q2]) ++ Y) = false ->
  matchesAtHead (T ++ (A ++ q :: ("."%char :: Js.slash :: p) ++ [q]) ++ Y')
  = false.
Proof.
  intros Ha Q1 Q H.
  assert (Hattr : Forall nonQuote A) by now apply isAttrEq_nonQuote.
  destruct (isAttrEq_head _ Ha) as (c & A' & -> & Hc).
  destruct (Js.spanNonQuote T) as [uT vT] eqn:S.
  destruct (spanNonQuote_spec T uT vT S) as (-> & HuT & [-> | (q0 & T' & -> & Q0)]).
  - (* no quote before the match *)
    rewrite app_nil_r. unfold matchesAtHead.
    replace (uT ++ ((c :: A') ++ q :: ("."%char :: Js.slash :: p) ++ [q]) ++ Y')
      with ((uT ++ c :: A') ++ q :: "."%char :: Js.slash :: p ++ q :: Y')
      by (rewrite <- !app_assoc; cbn [app]; now rewrite <- !app_assoc).
    rewrite spanNonQuote_until;
      [| apply Forall_app; split; assumption | assumption].
    cbn. apply andb_false_r.
  - (* a quote before the match *)
    unfold matchesAtHead in *.
    rewrite <- !app_assoc in *. cbn [app] in *.
    rewrite spanNonQuote_until in * by assumption.
    destruct (isAttrEq uT); [|reflexivity]. cbn [andb] in *.
    destruct T' as [|sl T'']; cbn [app] in *.
    + destruct Hc as (_ & Hs & _).
      destruct (Ascii.eqb_spec c Js.slash); [contradiction | reflexivity].
    + destruct (Ascii.eqb sl Js.slash); [|reflexivity]. cbn [andb] in *.
      match type of H with
      | context [hasQuote ?w] =>
          assert (Hq : hasQuote w = true)
      end.
      { apply (hasQuote_In _ q1); [|assumption].
        rewrite in_app_iff. right. right. rewrite in_app_iff. right. now left. }
      rewrite Hq, andb_true_r in H.
      match goal with
      | |- context [Js.startsWith ?wo _] =>
          match type of H with
          | context [Js.startsWith ?ws _] =>
              replace (Js.startsWith wo "/") with (Js.startsWith ws "/")
                by (destruct T''; reflexivity)
          end
      end.
      now rewrite H.
Qed.

(** The scan of a string, one step at a time. *)
Lemma scan_skip {A : Type} (m : jsstring -> option A) len pre rest :
  Re.scan m len (length pre) (pre ++ rest) = Re.scan m len 0 rest.
Proof. induction pre as [|c pre IH]; [now destruct rest | exact IH]. Qed.

Lemma scan_nomatch {A : Type} (m : jsstring -> option A) len c s :
  m (c :: s) = None ->
  Re.scan m len 0 (c :: s) = inl c :: Re.scan m len 0 s.
Proof. intros H. cbn [Re.scan]. now rewrite H. Qed.

Lemma scan_match {A : Type} (m : jsstring -> option A) len s a pre rest :
  m s = Some a -> s = pre ++ rest -> pre <> [] -> len a = length pre ->
  Re.scan m len 0 s = inr a :: Re.scan m len 0 rest.
Proof.
  intros H -> Hpre Hlen. destruct pre as [|c pre]; [contradiction|].
  cbn [app Re.scan]. cbn [app] in H. rewrite H, Hlen. cbn [length].
  rewrite Nat.sub_1_r. cbn [Nat.pred]. now rewrite scan_skip.
Qed.

Lemma fixed_nil : fixed [] = [].
Proof. reflexivity. Qed.

Lemma fixed_nomatch c s :
  Re.fixRegex (c :: s) = None ->
  fixed (c :: s) = c :: fixed s
  /\ Re.matchAll Re.fixRegex fixLen (c :: s) = Re.matchAll Re.fixRegex fixLen s.
Proof.
  intros H. unfold fixed, Re.replace, Re.matchAll.
  rewrite (scan_nomatch _ _ _ _ H). split; reflexivity.
Qed.

Lemma fixed_match s m :
  Re.fixRegex s = Some m ->
  exists rest,
    s = Re.matched m ++ rest
    /\ fixed s = rewriteRef m ++ fixed rest
    /\ Re.matchAll Re.fixRegex fixLen s = m :: Re.matchAll Re.fixRegex fixLen rest.
Proof.
  intros H.
  destruct (fixRegex_shape s m H) as (a & q1 & p & q2 & rest & Hs & Hm & _).
  exists rest.
  assert (Es : s = Re.matched m ++ rest).
  { rewrite Hm, Hs. cbn [Re.matched]. rewrite <- !app_assoc. cbn [app].
    now rewrite <- !app_assoc. }
  split; [assumption|].
  assert (Hscan : Re.scan Re.fixRegex fixLen 0 s
                  = inr m :: Re.scan Re.fixRegex fixLen 0 rest).
  { apply (scan_match _ _ _ _ (Re.matched m)); try assumption; [|reflexivity].
    rewrite Hm. cbn [Re.matched]. now destruct a. }
  unfold fixed, Re.replace, Re.matchAll. rewrite Hscan. split; reflexivity.
Qed.

Lemma test_nil_fix : Re.test Re.fixRegex [] = false.
Proof. reflexivity. Qed.

Lemma test_cons_false {A : Type} (m : jsstring -> option A) c s :
  m (c :: s) = None -> Re.test m s = false -> Re.test m (c :: s) = false.
Proof. intros H1 H2. cbn [Re.test]. now rewrite H1. Qed.

Lemma test_app_false {A : Type} (m : jsstring -> option A) u v :
  (forall Y Z, Y ++ Z = u -> Z <> [] -> m (Z ++ v) = None) ->
  Re.test m v = false -> Re.test m (u ++ v) = false.
Proof.
  revert v. induction u as [|c u IH]; intros v Hu Hv; [assumption|].
  cbn [app]. apply test_cons_false.
  - apply (Hu [] (c :: u)); [reflexivity | discriminate].
  - apply IH; [|assumption]. intros Y Z E HZ. apply (Hu (c :: Y) Z); [|assumption].
    cbn [app]. now rewrite E.
Qed.

(** A position that does not match keeps not matching when what follows it
    is rewritten. *)
Lemma fixed_keeps_no_match n : forall s T,
  length s <= n ->
  matchesAtHead (T ++ s) = false -> matchesAtHead (T ++ fixed s) = false.
Proof.
  induction n as [|n IH]; intros s T Hlen H.
  - destruct s; [assumption | cbn in Hlen; lia].
  - destruct s as [|c s]; [assumption|].
    destruct (Re.fixRegex (c :: s)) as [m|] eqn:E.
    + destruct (fixed_match _ _ E) as (rest & Es & Ef & _).
      destruct (fixRegex_shape _ _ E) as (a & q1 & p & q2 & rest' & _ & Hm & Ha & Q1 & Q2 & _).
      destruct (rewriteRef_shape m) as (q & Q & Hr).
      rewrite Ef, Hr. rewrite Es in H. rewrite Hm in *. cbn [Re.matched Re.attr Re.refPath] in *.
      apply (no_new_match_before T (a ++ ["="%char]) q1 p q2 q rest); try assumption.
      rewrite <- (app_assoc a). exact H.
    + destruct (fixed_nomatch _ _ E) as [-> _].
      replace (T ++ c :: fixed s) with ((T ++ [c]) ++ fixed s)
        by (now rewrite <- app_assoc).
      apply IH; [cbn in Hlen; lia|]. now rewrite <- app_assoc.
Qed.

(** After the rewriting of a stable content no position matches. *)
Lemma fixed_has_no_match n : forall s,
  length s <= n -> stableRefs s = true ->
  Re.test Re.fixRegex (fixed s) = false.
Proof.
  induction n as [|n IH]; intros s Hlen Hst.
  - destruct s; [reflexivity | cbn in Hlen; lia].
  - destruct s as [|c s]; [reflexivity|].
    destruct (Re.fixRegex (c :: s)) as [m|] eqn:E.
    + destruct (fixed_match _ _ E) as (rest & Es & Ef & Hall).
      destruct (fixRegex_shape _ _ E) as (a & q1 & p & q2 & rest' & _ & Hm & Ha & Q1 & Q2 & Hp & _).
      destruct (rewriteRef_shape m) as (q & Q & Hr).
      unfold stableRefs in Hst. rewrite Hall in Hst. cbn [forallb] in Hst.
      apply andb_true_iff in Hst. destruct Hst as [Hst1 Hst2].
      rewrite Ef. apply test_app_false.
      * intros Y Z EY HZ. apply fixRegex_None.
        rewrite Hr, Hm in EY. rewrite Hm in Hst1. cbn [Re.attr Re.refPath] in *.
        now apply (no_match_inside_rewrite a p q _ Y Z).
      * apply IH; [|exact Hst2].
        assert (Hl : length (c :: s) = length (Re.matched m) + length rest)
          by (now rewrite Es, length_app).
        assert (length (Re.matched m) > 0).
        { rewrite Hm. cbn [Re.matched]. rewrite length_app. cbn [length]. lia. }
        lia.
    + destruct (fixed_nomatch _ _ E) as [-> Hall].
      apply test_cons_false.
      * apply fixRegex_None. apply (fixed_keeps_no_match (length s) s [c]); [lia|].
        now apply fixRegex_None.
      * apply IH; [cbn in Hlen; lia|]. unfold stableRefs in *. now rewrite <- Hall.
Qed.

(** ** [fixAbsolutePaths] applied twice *)

Lemma fixFile_path f : path (fixFile f) = path f.
Proof.
  unfold fixFile. destruct (negb (hasFixableExtension (path f))); [reflexivity|].
  destruct (size f >? 1024 * 1024)%Z; [reflexivity|].
  destruct (fixContent (asString (entry f))) as [content [|]]; reflexivity.
Qed.

Lemma fixContent_fixed content :
  fixContent content = (content, false)
  \/ fixContent content = (fixed content, true)
  \/ fixContent content = (fixed content, false).
Proof.
  unfold fixContent. destruct (Re.test Re.fixRegex content); [|now left].
  right. fold (fixed content).
  destruct (Re.matchAll Re.fixRegex fixLen content); [now right | now left].
Qed.

Lemma fixContent_without_match content :
  Re.test Re.fixRegex content = false -> fixContent content = (content, false).
Proof. intros H. unfold fixContent. now rewrite H. Qed.

Lemma fixFile_cases f :
  fixFile f = f
  \/ (readByFix f = true
      /\ fixFile f = mkFile (path f)
                            (Z.of_nat (length (fixed (asString (entry f)))))
                            (newEntry (fixed (asString (entry f))))).
Proof.
  unfold fixFile, readByFix.
  destruct (hasFixableExtension (path f)); cbn [negb andb]; [|now left].
  destruct (size f >? 1024 * 1024)%Z; cbn [negb]; [now left|].
  destruct (fixContent_fixed (asString (entry f))) as [E | [E | E]]; rewrite E;
    [now left | right; now split | now left].
Qed.

Lemma fixFile_idempotent f :
  (readByFix f = true -> stableRefs (asString (entry f)) = true) ->
  fixFile (fixFile f) = fixFile f.
Proof.
  intros Hst. destruct (fixFile_cases f) as [E | [Hread E]].
  - now rewrite !E.
  - rewrite E. unfold fixFile. cbn [path size entry newEntry asString].
    specialize (Hst Hread). unfold readByFix in Hread. apply andb_true_iff in Hread.
    destruct Hread as [Hext _]. rewrite Hext. cbn [negb].
    destruct (_ >? _)%Z; [reflexivity|].
    rewrite fixContent_without_match; [reflexivity|].
    apply (fixed_has_no_match (length (asString (entry f)))); [lia | assumption].
Qed.

Lemma filter_twice {A : Type} (P : A -> Prop) `{forall x, Decision (P x)} (l : list A) :
  filter P (filter P l) = filter P l.
Proof.
  induction l as [|x l IH]; [reflexivity|].
  rewrite filter_cons. destruct (decide (P x)) as [Hx|Hx]; [|assumption].
  rewrite filter_cons. destruct (decide (P x)); [now rewrite IH | contradiction].
Qed.

(** C10. A second application of the fix changes neither the paths nor the
    warnings of any analysis; it changes nothing at all when no file that
    the fix reads has a root-absolute reference whose path ends, up to case,
    with src= or href=. *)
Theorem fixAbsolutePaths_idempotent (a : ZipAnalysis)
    (Hstable : Forall (fun f => readByFix f = true ->
                                stableRefs (asString (entry f)) = true)
                      (files a)) :
  fixAbsolutePaths (fixAbsolutePaths a) = fixAbsolutePaths a
  /\ (forall b,
        map path (files (fixAbsolutePaths (fixAbsolutePaths b)))
        = map path (files (fixAbsolutePaths b))
        /\ warnings (fixAbsolutePaths (fixAbsolutePaths b))
           = warnings (fixAbsolutePaths b)).
Proof.
  split.
  - unfold fixAbsolutePaths. cbn [zip fileCount totalSize projectType files
                                  warnings ignoredFiles].
    rewrite filter_twice. f_equal. rewrite map_map.
    apply map_ext_in. intros f Hf. apply fixFile_idempotent.
    rewrite List.Forall_forall in Hstable. now apply Hstable.
  - intros b. unfold fixAbsolutePaths. cbn [files warnings]. split.
    + rewrite !map_map. apply map_ext. intros f. now rewrite !fixFile_path.
    + apply filter_twice.
Qed.

Lemma fixAbsolutePaths_idempotent_witness :
  fixAbsolutePaths (fixAbsolutePaths (analyzeZip onePageArchive))
  = fixAbsolutePaths (analyzeZip onePageArchive).
Proof.
  apply (fixAbsolutePaths_idempotent (analyzeZip onePageArchive)).
  apply List.Forall_forall. intros f Hf. vm_compute in Hf.
  destruct Hf as [<- | []]. intros _. vm_compute. reflexivity.
Defined.

Lemma fixAbsolutePaths_idempotent_counterexample :
  fixAbsolutePaths (fixAbsolutePaths (analyzeZip unstableArchive))
  <> fixAbsolutePaths (analyzeZip unstableArchive).
Proof.
  intros H.
  apply (f_equal (fun a => map size (files a))) in H.
  vm_compute in H. discriminate.
Qed.

(** ** The paths of a manifest are distinct *)

Lemma scan_paths cp raws : forall st,
  map path (s_files (fold_left (scanFile cp) raws st))
  = map path (s_files st)
    ++ map (stripPrefix cp) (map rawPath (List.filter (keptRaw cp) raws)).
Proof.
  induction raws as [|rf raws IH]; intros st; cbn [fold_left List.filter map].
  - now rewrite app_nil_r.
  - rewrite IH. unfold scanFile. change (keptRaw cp rf)
      with (negb (Js.truthy (ignoreReasonOf (stripPrefix cp (rawPath rf))))).
    destruct (Js.truthy (ignoreReasonOf (stripPrefix cp (rawPath rf)))); cbn [negb].
    + reflexivity.
    + cbn [s_files map]. rewrite map_app, <- app_assoc. reflexivity.
Qed.

Lemma collectRawFiles_In z p :
  In p (map rawPath (collectRawFiles z)) -> In p (map fst z).
Proof.
  unfold collectRawFiles. induction z as [|[q e] z IH]; cbn [omap list_omap map fst]; [tauto|].
  destruct (negb (dir e) && negb (Js.includes q "__MACOSX")); cbn [map rawPath].
  - intros [<- | H]; [now left | right; now apply IH].
  - intros H. right. now apply IH.
Qed.

Lemma collectRawFiles_NoDup z :
  NoDup (map fst z) -> NoDup (map rawPath (collectRawFiles z)).
Proof.
  unfold collectRawFiles. induction z as [|[q e] z IH]; cbn [omap list_omap map fst];
    [intros _; constructor|].
  intros H. apply NoDup_cons in H. destruct H as [Hq H].
  destruct (negb (dir e) && negb (Js.includes q "__MACOSX")); cbn [map rawPath].
  - apply NoDup_cons. split; [|now apply IH].
    intros Hin. apply Hq. apply list_elem_of_In, collectRawFiles_In.
    now apply list_elem_of_In.
  - now apply IH.
Qed.

Lemma NoDup_map_filter {A B : Type} (f : A -> B) (p : A -> bool) (l : list A) :
  NoDup (map f l) -> NoDup (map f (List.filter p l)).
Proof.
  induction l as [|x l IH]; cbn [map List.filter]; [intros _; constructor|].
  intros H. apply NoDup_cons in H. destruct H as [Hx H].
  destruct (p x); cbn [map]; [|now apply IH].
  apply NoDup_cons. split; [|now apply IH].
  intros Hin. apply Hx. apply list_elem_of_In in Hin. apply list_elem_of_In.
  apply in_map_iff in Hin. destruct Hin as (y & Hy & Hin).
  apply filter_In in Hin. apply in_map_iff. exists y. tauto.
Qed.

Lemma stripPrefix_inj cp p q :
  Js.startsWith p cp = true -> Js.startsWith q cp = true ->
  stripPrefix cp p = stripPrefix cp q -> p = q.
Proof.
  intros Hp Hq. unfold stripPrefix, Js.substringFrom.
  destruct cp as [|c cp]; [now cbn|]. cbn [Js.truthy].
  apply startsWith_app in Hp, Hq. destruct Hp as (r & ->), Hq as (r' & ->).
  rewrite !drop_app_length. now intros ->.
Qed.

Lemma NoDup_map_inj_on {A B : Type} (f : A -> B) (l : list A) :
  (forall x y, In x l -> In y l -> f x = f y -> x = y) ->
  NoDup l -> NoDup (map f l).
Proof.
  intros Hinj. induction 1 as [|x l Hx Hnd IH]; [constructor|].
  cbn [map]. apply NoDup_cons. split.
  - intros Hin. apply list_elem_of_In, in_map_iff in Hin.
    destruct Hin as (y & Hy & Hin). apply Hx.
    rewrite (Hinj x y); [now apply list_elem_of_In | now left | now right | now symmetry].
  - apply IH. intros a b Ha Hb. apply Hinj; now right.
Qed.

(** An archive with distinct entry names gives a manifest with distinct
    paths, before and after the fix. *)
Lemma analysis_paths_distinct z :
  NoDup (map fst z) ->
  NoDup (map path (files (analyzeZip z)))
  /\ NoDup (map path (files (fixAbsolutePaths (analyzeZip z)))).
Proof.
  intros Hz.
  assert (H : NoDup (map path (files (analyzeZip z)))).
  { unfold analyzeZip. cbn [files]. rewrite scan_paths. cbn [initialScan s_files map app].
    set (raws := collectRawFiles z). set (cp := detectCommonPrefix (map rawPath raws)).
    pose proof (collectRawFiles_NoDup z Hz) as Hraw. fold raws in Hraw.
    destruct (detectCommonPrefix_whole_folders (map rawPath raws)) as [_ Hall].
    fold cp in Hall. rewrite List.Forall_forall in Hall.
    assert (Hsub : forall p, In p (map rawPath (List.filter (keptRaw cp) raws)) ->
                             In p (map rawPath raws)).
    { intros p Hp. apply in_map_iff in Hp. destruct Hp as (rf & <- & Hin).
      apply filter_In in Hin. apply in_map. tauto. }
    apply NoDup_map_inj_on; [|now apply NoDup_map_filter].
    intros p q Hp Hq. apply stripPrefix_inj; apply Hall; now apply Hsub. }
  split; [assumption|]. unfold fixAbsolutePaths. cbn [files]. rewrite map_map.
  erewrite map_ext; [exact H|]. intros f. apply fixFile_path.
Qed.

(** ** The upload list *)

Lemma patchFor_cons q p ps :
  patchFor q (p :: ps) =
  match patchFor q ps with
  | Some p' => Some p'
  | None => if decide (patchPath p = q) then Some p else None
  end.
Proof.
  unfold patchFor. rewrite filter_cons.
  destruct (decide (patchPath p = q)); [|now destruct (last _)].
  rewrite last_cons. now destruct (last _).
Qed.

Lemma patchFor_other q p ps :
  patchPath p <> q -> patchFor q (p :: ps) = patchFor q ps.
Proof.
  intros H. rewrite patchFor_cons. destruct (patchFor q ps); [reflexivity|].
  now destruct (decide (patchPath p = q)).
Qed.

Lemma overlay_other p ps u :
  patchPath p <> upPath u -> overlay (p :: ps) u = overlay ps u.
Proof. intros H. unfold overlay. now rewrite patchFor_other. Qed.

(** A patch whose content is already in the entry. *)
Lemma overlay_absorb p ps u m :
  upPath u = patchPath p -> upMode u = m ->
  overlay ps (mkUpload (patchPath p) (utf8 (patchContent p)) m)
  = overlay (p :: ps) u.
Proof.
  intros Hp Hm. unfold overlay. cbn [upPath upMode]. rewrite Hp, Hm, patchFor_cons.
  destruct (patchFor (patchPath p) ps); [reflexivity|].
  now destruct (decide (patchPath p = patchPath p)).
Qed.

Lemma newPaths_ext seen seen' ps :
  (forall x, x ∈ seen <-> x ∈ seen') -> newPaths seen ps = newPaths seen' ps.
Proof.
  revert seen seen'. induction ps as [|p ps IH]; intros seen seen' H; [reflexivity|].
  cbn [newPaths]. rewrite (bool_decide_ext _ _ (H (patchPath p))).
  destruct (bool_decide _); [now apply IH|]. f_equal. apply IH.
  intros x. rewrite !elem_of_cons, H. reflexivity.
Qed.

Lemma newPaths_fresh seen ps x : x ∈ newPaths seen ps -> x ∉ seen.
Proof.
  revert seen. induction ps as [|p ps IH]; intros seen; cbn [newPaths].
  - intros H. now apply elem_of_nil in H.
  - destruct (bool_decide (patchPath p ∈ seen)) eqn:E; [apply IH|].
    apply bool_decide_eq_false in E. rewrite elem_of_cons.
    intros [-> | H]; [assumption|]. apply IH in H. rewrite elem_of_cons in H. tauto.
Qed.

(** With distinct paths, overwriting the entry found is a map over the
    list. *)
Lemma alter_found (g : Upload -> Upload) q (base : list Upload) i u :
  NoDup (map upPath base) ->
  list_find (fun f => upPath f = q) base = Some (i, u) ->
  alter g i base = map (fun f => if decide (upPath f = q) then g f else f) base.
Proof.
  revert i. induction base as [|f base IH]; intros i Hnd Hfind; [discriminate|].
  cbn [map] in Hnd. apply NoDup_cons in Hnd. destruct Hnd as [Hf Hnd].
  cbn [list_find] in Hfind. destruct (decide (upPath f = q)) as [Hq|Hq].
  - injection Hfind as <- <-. cbn [alter list_alter map].
    rewrite decide_True by assumption. f_equal.
    rewrite <- (map_id base) at 1. apply map_ext_in. intros f' Hf'.
    destruct (decide (upPath f' = q)) as [Hq'|]; [|reflexivity].
    exfalso. apply Hf. rewrite Hq, <- Hq'. apply list_elem_of_In. now apply in_map.
  - destruct (list_find _ base) as [[j u']|] eqn:E; [|discriminate].
    cbn in Hfind. injection Hfind as <- <-. cbn [alter list_alter map].
    rewrite decide_False by assumption. f_equal. now apply (IH j).
Qed.

Lemma applyPatch_overlaySpec base p ps :
  NoDup (map upPath base) ->
  NoDup (map upPath (applyPatch base p))
  /\ overlaySpec (applyPatch base p) ps = overlaySpec base (p :: ps).
Proof.
  intros Hnd. unfold applyPatch.
  destruct (list_find _ base) as [[i u]|] eqn:E.
  - (* the path is in the list *)
    rewrite (alter_found _ _ _ _ _ Hnd E).
    apply list_find_Some in E. destruct E as (Hi & Hu & _).
    assert (Hpaths : map upPath (map (fun f => if decide (upPath f = patchPath p)
                                       then mkUpload (upPath f) (utf8 (patchContent p)) (upMode f)
                                       else f) base) = map upPath base).
    { rewrite map_map. apply map_ext. intros f. now destruct (decide _). }
    rewrite Hpaths. split; [assumption|]. unfold overlaySpec. rewrite Hpaths.
    assert (Hin : patchPath p ∈ map upPath base).
    { rewrite <- Hu. apply list_elem_of_In, in_map.
      apply list_elem_of_In. now apply list_elem_of_lookup_2 in Hi. }
    cbn [newPaths]. rewrite bool_decide_eq_true_2 by assumption. f_equal.
    + rewrite map_map. apply map_ext. intros f.
      destruct (decide (upPath f = patchPath p)) as [Hf|Hf].
      * rewrite Hf. now apply overlay_absorb.
      * symmetry. apply overlay_other. congruence.
    + apply map_ext_in. intros x Hx. symmetry. apply overlay_other. cbn [upPath].
      intros <-. apply list_elem_of_In, newPaths_fresh in Hx. contradiction.
  - (* a new path *)
    apply list_find_None in E. rewrite List.Forall_forall in E.
    assert (Hnew : patchPath p ∉ map upPath base).
    { intros H. apply list_elem_of_In, in_map_iff in H.
      destruct H as (f & Hf & Hin). now apply (E f). }
    split.
    + rewrite map_app. apply NoDup_app. split; [assumption|]. split.
      * intros x Hx Hx'. apply list_elem_of_In in Hx'. destruct Hx' as [<- | []].
        contradiction.
      * apply NoDup_singleton.
    + unfold overlaySpec. rewrite !map_app. cbn [map upPath newPaths].
      rewrite bool_decide_eq_false_2 by assumption.
      rewrite <- app_assoc. cbn [app map]. f_equal; [|f_equal].
      * apply map_ext_in. intros f Hf. symmetry. apply overlay_other.
        intros H. apply (E f Hf). congruence.
      * now apply overlay_absorb.
      * rewrite (newPaths_ext (map upPath base ++ [patchPath p])
                              (patchPath p :: map upPath base)).
        -- apply map_ext_in. intros x Hx. symmetry. apply overlay_other. cbn [upPath].
           intros <-. apply list_elem_of_In, newPaths_fresh in Hx.
           apply Hx. now left.
        -- intros x. rewrite elem_of_app, !elem_of_cons, elem_of_nil. tauto.
Qed.

Lemma overlaySpec_nil base : overlaySpec base [] = base.
Proof.
  unfold overlaySpec. cbn [newPaths map]. rewrite app_nil_r.
  rewrite <- (map_id base) at 2. now apply map_ext.
Qed.

Lemma fold_applyPatch ps : forall base,
  NoDup (map upPath base) ->
  fold_left applyPatch ps base = overlaySpec base ps.
Proof.
  induction ps as [|p ps IH]; intros base Hnd; cbn [fold_left].
  - symmetry. apply overlaySpec_nil.
  - destruct (applyPatch_overlaySpec base p ps Hnd) as [Hnd' <-]. now apply IH.
Qed.

Lemma prepareFiles_spec analysis customDomain patches :
  NoDup (map path (files analysis)) ->
  prepareFiles analysis customDomain patches
  = preparedSpec analysis customDomain patches.
Proof.
  intros Hnd. unfold prepareFiles, preparedSpec, cnameEntry.
  fold (manifestUploads analysis).
  assert (Hbase : NoDup (map upPath (manifestUploads analysis))).
  { unfold manifestUploads. rewrite map_map. exact Hnd. }
  assert (Hp : match patches with
               | Some (p :: ps) => fold_left applyPatch (p :: ps) (manifestUploads analysis)
               | _ => manifestUploads analysis
               end = overlaySpec (manifestUploads analysis) (default [] patches)).
  { destruct patches as [[|p ps]|]; cbn [default];
      [symmetry; apply overlaySpec_nil | now apply fold_applyPatch
      | symmetry; apply overlaySpec_nil]. }
  rewrite Hp. destruct customDomain as [[|c d]|]; [now rewrite app_nil_r | reflexivity | now rewrite app_nil_r].
Qed.

Lemma patchFor_Some q ps p' :
  patchFor q ps = Some p' -> p' ∈ ps /\ patchPath p' = q.
Proof.
  unfold patchFor. intros H. apply last_Some_elem_of in H.
  apply list_elem_of_filter in H. tauto.
Qed.

Lemma patchFor_None q ps :
  patchFor q ps = None <-> forall p, p ∈ ps -> patchPath p <> q.
Proof.
  unfold patchFor. rewrite last_None. split.
  - intros H p Hp Hq. assert (Hin : p ∈ filter (fun p => patchPath p = q) ps)
      by (apply list_elem_of_filter; tauto).
    rewrite H in Hin. now apply elem_of_nil in Hin.
  - intros H. destruct (filter _ ps) as [|p l] eqn:E; [reflexivity|]. exfalso.
    assert (Hin : p ∈ filter (fun p => patchPath p = q) ps) by (rewrite E; now left).
    apply list_elem_of_filter in Hin. destruct Hin as [Hq Hin]. now apply (H p).
Qed.

Lemma patchFor_present p ps :
  p ∈ ps -> exists p', patchFor (patchPath p) ps = Some p'.
Proof.
  intros Hp. destruct (patchFor (patchPath p) ps) as [p'|] eqn:E; [eauto|].
  exfalso. now apply (proj1 (patchFor_None _ _) E p).
Qed.

Lemma patchFor_distinct p ps :
  NoDup (map patchPath ps) -> p ∈ ps -> patchFor (patchPath p) ps = Some p.
Proof.
  intros Hnd Hp. destruct (patchFor_present p ps Hp) as (p' & E). rewrite E.
  apply patchFor_Some in E. destruct E as [Hp' Hq]. f_equal.
  clear - Hnd Hp Hp' Hq. induction ps as [|x ps IH]; [now apply elem_of_nil in Hp|].
  cbn [map] in Hnd. apply NoDup_cons in Hnd. destruct Hnd as [Hx Hnd].
  apply elem_of_cons in Hp, Hp'.
  destruct Hp as [-> | Hp], Hp' as [-> | Hp']; [reflexivity | | | now apply IH].
  - exfalso. apply Hx. rewrite <- Hq. apply list_elem_of_In, in_map. now apply list_elem_of_In.
  - exfalso. apply Hx. rewrite Hq. apply list_elem_of_In, in_map. now apply list_elem_of_In.
Qed.

Lemma newPaths_covers p ps : forall seen,
  p ∈ ps -> patchPath p ∉ seen -> patchPath p ∈ newPaths seen ps.
Proof.
  induction ps as [|p0 ps IH]; intros seen Hp Hnew; [now apply elem_of_nil in Hp|].
  cbn [newPaths]. apply elem_of_cons in Hp.
  destruct (bool_decide (patchPath p0 ∈ seen)) eqn:E.
  - apply bool_decide_eq_true in E. destruct Hp as [-> | Hp]; [contradiction|].
    now apply IH.
  - destruct (decide (patchPath p = patchPath p0)) as [->|Hne]; [now left|].
    right. destruct Hp as [-> | Hp]; [contradiction|]. apply IH; [assumption|].
    rewrite elem_of_cons. tauto.
Qed.

(** C3. With distinct manifest paths, the upload list is the manifest with
    each entry overridden in place by the last patch for its path, then one
    new file per patched path that the manifest lacks, then the marker file
    of the custom domain when one is given. *)
Theorem patches_win_at_publish (analysis : ZipAnalysis)
    (customDomain : option jsstring) (patches : option (list AutoFixPatch))
    (Hunique : NoDup (map path (files analysis))) :
  prepareFiles analysis customDomain patches
  = preparedSpec analysis customDomain patches
  /\ (forall i f,
        files analysis !! i = Some f ->
        prepareFiles analysis customDomain patches !! i
        = Some (mkUpload (path f)
                  (match patchFor (path f) (default [] patches) with
                   | Some p => utf8 (patchContent p)
                   | None => asBytes (entry f)
                   end) "100644"))
  /\ (forall p,
        p ∈ default [] patches ->
        patchPath p ∉ map path (files analysis) ->
        exists p',
          patchFor (patchPath p) (default [] patches) = Some p'
          /\ mkUpload (patchPath p) (utf8 (patchContent p')) "100644"
             ∈ drop (length (files analysis))
                    (prepareFiles analysis customDomain patches))
  /\ (forall p,
        NoDup (map patchPath (default [] patches)) ->
        p ∈ default [] patches ->
        patchFor (patchPath p) (default [] patches) = Some p)
  /\ (forall c d,
        customDomain = Some (c :: d) ->
        last (prepareFiles analysis customDomain patches)
        = Some (mkUpload "CNAME" (utf8 (c :: d)) "100644")).
Proof.
  pose proof (prepareFiles_spec analysis customDomain patches Hunique) as Hspec.
  split; [exact Hspec|]. rewrite Hspec. unfold preparedSpec, overlaySpec.
  set (ps := default [] patches).
  assert (Hlen : length (map (overlay ps) (manifestUploads analysis))
                 = length (files analysis))
    by (unfold manifestUploads; now rewrite !length_map).
  split; [|split; [|split]].
  - intros i f Hf. rewrite <- app_assoc.
    rewrite lookup_app_l by (rewrite Hlen; now apply lookup_lt_Some in Hf).
    unfold manifestUploads. rewrite !list_lookup_fmap, Hf. cbn [fmap option_fmap option_map].
    unfold overlay. cbn [upPath upMode]. now destruct (patchFor (path f) ps).
  - intros p Hp Hnew. destruct (patchFor_present p ps Hp) as (p' & E).
    exists p'. split; [assumption|].
    rewrite <- app_assoc, <- Hlen, drop_app_length. apply elem_of_app. left.
    assert (Hin : patchPath p ∈ newPaths (map upPath (manifestUploads analysis)) ps).
    { apply newPaths_covers; [assumption|]. unfold manifestUploads. now rewrite map_map. }
    apply list_elem_of_In, (in_map (fun q => overlay ps (mkUpload q [] "100644"))) in Hin.
    apply list_elem_of_In in Hin. unfold overlay in Hin at 1. cbn [upPath upMode] in Hin.
    now rewrite E in Hin.
  - intros p Hnd Hp. now apply patchFor_distinct.
  - intros c d ->. cbn [cnameEntry]. now rewrite last_snoc.
Qed.

Lemma patches_win_at_publish_witness :
  prepareFiles twoFileAnalysis (Some ("example.org" : jsstring)) (Some twoPatches)
  = preparedSpec twoFileAnalysis (Some ("example.org" : jsstring)) (Some twoPatches).
Proof.
  apply (patches_win_at_publish twoFileAnalysis).
  compute_done.
Defined.

(** ** Runs *)

Lemma fst_bind {A B : Type} (m : Run A) (k : A -> Run B) :
  fst (m ≫= k) = fst m ++ match snd m with
                         | Returned a => fst (k a)
                         | Threw _ => []
                         end.
Proof.
  destruct m as [tr [e|a]]; cbn; [now rewrite app_nil_r|].
  now destruct (k a).
Qed.

Lemma snd_bind {A B : Type} (m : Run A) (k : A -> Run B) :
  snd (m ≫= k) = match snd m with
                 | Returned a => snd (k a)
                 | Threw e => Threw e
                 end.
Proof. destruct m as [tr [e|a]]; cbn; [reflexivity | now destruct (k a)]. Qed.

Lemma fst_tryCatch {A : Type} (m : Run A) (h : JsError -> Run A) :
  fst (tryCatch m h) = fst m ++ match snd m with
                                | Threw e => fst (h e)
                                | Returned _ => []
                                end.
Proof.
  destruct m as [tr [e|a]]; cbn; [now destruct (h e) | now rewrite app_nil_r].
Qed.

Lemma snd_tryCatch {A : Type} (m : Run A) (h : JsError -> Run A) :
  snd (tryCatch m h) = match snd m with
                       | Threw e => snd (h e)
                       | Returned a => Returned a
                       end.
Proof. destruct m as [tr [e|a]]; cbn; [now destruct (h e) | reflexivity]. Qed.

Lemma okAction_mono j k a : j <= k -> okAction j a -> okAction k a.
Proof. intros Hjk. destruct a; cbn; [auto | lia | auto]. Qed.

Lemma Within_mono {A : Type} j k (m : Run A) : j <= k -> Within j m -> Within k m.
Proof.
  intros Hjk H. unfold Within in *. eapply Forall_impl; [exact H|].
  intros a. now apply okAction_mono.
Qed.

Lemma Within_ret {A : Type} k (a : A) : Within k (mret a).
Proof. constructor. Qed.

Lemma Within_silent {A : Type} k (o : Outcome A) : Within k (([], o) : Run A).
Proof. constructor. Qed.

Lemma Within_throw {A : Type} k e : Within k (throw e : Run A).
Proof. constructor. Qed.

Lemma Within_onStatus k s : type s <> error -> Within k (onStatus s).
Proof. intros H. repeat constructor. exact H. Qed.

Lemma Within_send {A : Type} k r (answer : Outcome A) :
  phaseOf r <= k -> Within k (send r answer).
Proof. intros H. repeat constructor. exact H. Qed.

Lemma Within_wait k ms : Within k (wait ms).
Proof. repeat constructor. Qed.

Lemma Within_bind {A B : Type} k (m : Run A) (f : A -> Run B) :
  Within k m -> (forall a, Within k (f a)) -> Within k (m ≫= f).
Proof.
  unfold Within. intros Hm Hf. rewrite fst_bind. apply Forall_app. split; [assumption|].
  destruct (snd m); [constructor | apply Hf].
Qed.

Lemma Within_tryCatch {A : Type} k (m : Run A) (h : JsError -> Run A) :
  Within k m -> (forall e, Within k (h e)) -> Within k (tryCatch m h).
Proof.
  unfold Within. intros Hm Hh. rewrite fst_tryCatch. apply Forall_app.
  split; [assumption|]. destruct (snd m); [apply Hh | constructor].
Qed.

Lemma fst_promiseAll {A : Type} (tasks : list (Run A)) :
  fst (promiseAll tasks) = concat (map fst tasks).
Proof.
  induction tasks as [|[tr r] tasks IH]; [reflexivity|].
  cbn [promiseAll map concat]. destruct (promiseAll tasks) as [tr' rs].
  cbn [fst] in *. now rewrite IH.
Qed.

Lemma isReturned_promiseAll {A : Type} (tasks : list (Run A)) :
  isReturned (snd (promiseAll tasks))
  = forallb (fun t => isReturned (snd t)) tasks.
Proof.
  induction tasks as [|[tr r] tasks IH]; [reflexivity|].
  cbn [promiseAll forallb]. destruct (promiseAll tasks) as [tr' rs].
  cbn [snd] in *. rewrite <- IH. now destruct r, rs.
Qed.

Lemma Within_promiseAll {A : Type} k (tasks : list (Run A)) :
  Forall (Within k) tasks -> Within k (promiseAll tasks).
Proof.
  unfold Within. rewrite fst_promiseAll. induction 1 as [|t tasks Ht _ IH];
    [constructor|]. cbn [map concat]. apply Forall_app. now split.
Qed.

Lemma Forall_imap_all {A B : Type} (P : B -> Prop) (l : list A) : forall (f : nat -> A -> B),
  (forall i x, P (f i x)) -> Forall P (imap f l).
Proof.
  induction l as [|x l IH]; intros f Hf; [constructor|].
  cbn [imap]. constructor; [apply Hf | apply IH; intros; apply Hf].
Qed.

Lemma Within_forEach {A : Type} k (l : list A) (body : A -> Run unit) :
  (forall x, Within k (body x)) -> Within k (forEach l body).
Proof.
  intros H. induction l as [|x l IH]; [constructor|].
  cbn [forEach]. apply Within_bind; [apply H | intros _; exact IH].
Qed.

(** A chain of steps is within a phase when each step is. *)
Ltac within_step :=
  first
    [ apply Within_ret
    | apply Within_silent
    | apply Within_throw
    | apply Within_wait
    | apply Within_onStatus; cbn; discriminate
    | apply Within_send; cbn; lia
    | apply Within_bind; [|intros ?]
    | apply Within_tryCatch; [|intros ?]
    | apply Within_promiseAll; apply Forall_imap_all; intros ? ?
    | apply Within_forEach; intros ?
    | match goal with
      | |- Within _ (match ?x with _ => _ end) => destruct x
      | |- Within _ (let '(_, _) := ?x in _) => destruct x
      end ].

Ltac within := repeat within_step.

Section DeployRuns.

Variable percent : nat -> nat -> Z.
Variable calculateSHA256 : list Byte.byte -> jsstring.

Lemma Within_uploadBlob api owner repoName idx file : forall retries attempt,
  Within 5 (uploadBlob api owner repoName idx file retries attempt).
Proof.
  induction retries as [|retries IH]; intros attempt; cbn [uploadBlob].
  - apply Within_ret.
  - apply Within_tryCatch.
    + apply Within_bind; [apply Within_send; cbn; lia | intros sha; apply Within_ret].
    + intros err. destruct retries as [|retries']; [apply Within_throw|].
      apply Within_bind; [apply Within_wait | intros _; apply IH].
Qed.

Lemma Within_uploadBatches api owner repoName files starts :
  Within 5 (uploadBatches percent api owner repoName files starts).
Proof.
  induction starts as [|i starts IH]; cbn [uploadBatches]; [apply Within_ret|].
  apply Within_bind.
  - apply Within_promiseAll, Forall_imap_all. intros k file. apply Within_uploadBlob.
  - intros pushed. apply Within_bind; [apply Within_onStatus; cbn; discriminate|].
    intros _. apply Within_bind; [exact IH | intros others; apply Within_ret].
Qed.

Lemma Within_setUpRepository api owner repoName descr isPrivate :
  Within 2 (setUpRepository api owner repoName descr isPrivate).
Proof. unfold setUpRepository. within. Qed.

Lemma Within_readHead api owner repoName branch :
  Within 4 (readHead api owner repoName branch).
Proof. unfold readHead. within. Qed.

Lemma Within_enablePages api owner repoName branch :
  Within 9 (enablePages api owner repoName branch).
Proof. unfold enablePages. within. Qed.

Lemma Within_ensureOk k what res : Within k (ensureOk what res).
Proof. unfold ensureOk. within. Qed.

Lemma Within_uploadRequired api contentByHash urls required :
  Within 5 (uploadRequired percent api contentByHash urls required).
Proof. unfold uploadRequired. within. Qed.

Lemma tryCatch_reportFailure {A : Type} (m : Run A) :
  tryCatch m reportFailure
  = match snd m with
    | Threw e => (fst m ++ [Emit (failureEvent e)], Threw e)
    | Returned a => (fst m, Returned a)
    end.
Proof. destruct m as [tr [e|a]]; reflexivity. Qed.

Lemma events_app tr tr' : events (tr ++ tr') = events tr ++ events tr'.
Proof. unfold events. apply omap_app. Qed.

Lemma requests_app tr tr' : requests (tr ++ tr') = requests tr ++ requests tr'.
Proof. unfold requests. apply omap_app. Qed.

Lemma errorCount_app tr tr' : errorCount (tr ++ tr') = errorCount tr + errorCount tr'.
Proof. unfold errorCount. now rewrite events_app, List.filter_app, length_app. Qed.

Lemma errorCount_Within {A : Type} k (m : Run A) : Within k m -> errorCount (fst m) = 0.
Proof.
  unfold Within, errorCount. induction 1 as [|a tr Ha _ IH]; [reflexivity|].
  destruct a as [s| |]; cbn in *; try assumption.
  unfold isError. now rewrite bool_decide_eq_false_2.
Qed.

(** A body without error events of its own, under the outer [catch]. *)
Lemma reportFailure_contract k (m : Run jsstring) :
  Within k m -> reportsItsFailure (tryCatch m reportFailure).
Proof.
  intros Hm. rewrite tryCatch_reportFailure.
  pose proof (errorCount_Within k m Hm) as H0. unfold reportsItsFailure.
  destruct (snd m) as [e|a]; cbn [fst snd isThrew isReturned].
  - rewrite errorCount_app, H0. split; [split; intros _; reflexivity|].
    split; [discriminate|]. intros e' [= <-].
    rewrite events_app.
    change (events [Emit (failureEvent e)]) with [failureEvent e]. apply last_snoc.
  - rewrite H0. split; [split; discriminate|]. split; [reflexivity | discriminate].
Qed.

Ltac within_deploy :=
  repeat first
    [ apply (Within_mono 2 9); [lia | apply Within_setUpRepository]
    | apply (Within_mono 4 9); [lia | apply Within_readHead]
    | apply (Within_mono 5 9); [lia | apply Within_uploadBatches]
    | apply (Within_mono 5 9); [lia | apply Within_uploadRequired]
    | apply Within_enablePages
    | apply Within_ensureOk
    | within_step ].

Lemma Within_githubBody api token repoName descr isPrivate analysis customDomain patches :
  exists body,
    deployZipToGitHub percent api token repoName descr isPrivate analysis
                      customDomain patches
    = tryCatch body reportFailure
    /\ Within 9 body.
Proof.
  eexists. split; [reflexivity|]. within_deploy.
Qed.

Lemma Within_firebaseBody api token siteId analysis :
  exists body,
    deployZipToFirebase percent calculateSHA256 api token siteId analysis
    = tryCatch body reportFailure
    /\ Within 9 body.
Proof.
  eexists. split; [reflexivity|]. within_deploy.
Qed.

(** C4. On either backend a deployment hands the sink exactly one error
    event when it throws and none when it returns, and the error event is
    the last event of the run, handed over before the error leaves the
    function. *)
Theorem error_event_iff_failure (apiG : GitHub) (apiF : Firebase)
    (token repoName descr siteId : jsstring) (isPrivate : bool)
    (analysis : ZipAnalysis) (customDomain : option jsstring)
    (patches : option (list AutoFixPatch)) :
  reportsItsFailure
    (deployZipToGitHub percent apiG token repoName descr isPrivate analysis
                       customDomain patches)
  /\ reportsItsFailure
       (deployZipToFirebase percent calculateSHA256 apiF token siteId analysis).
Proof.
  split.
  - destruct (Within_githubBody apiG token repoName descr isPrivate analysis
                                customDomain patches) as (body & -> & H).
    now apply (reportFailure_contract 9).
  - destruct (Within_firebaseBody apiF token siteId analysis) as (body & -> & H).
    now apply (reportFailure_contract 9).
Qed.

End DeployRuns.

(** ** Outcomes of the steps of the Git backend *)

Lemma uploadBlob_cases api owner repoName idx file :
  let attempt := Send (CreateBlob owner repoName (upContent file)) in
  let item sha := mkTreeItem (upPath file) (upMode file) "blob" sha in
  uploadBlob api owner repoName idx file 3 0 =
  match createBlob api idx 0 with
  | Returned sha => ([attempt], Returned (Some (item sha)))
  | Threw _ =>
      match createBlob api idx 1 with
      | Returned sha => ([attempt; Wait 1000; attempt], Returned (Some (item sha)))
      | Threw _ =>
          match createBlob api idx 2 with
          | Returned sha =>
              ([attempt; Wait 1000; attempt; Wait 1000; attempt],
               Returned (Some (item sha)))
          | Threw e =>
              ([attempt; Wait 1000; attempt; Wait 1000; attempt], Threw e)
          end
      end
  end.
Proof.
  cbn [uploadBlob]. unfold send.
  destruct (createBlob api idx 0); [|reflexivity].
  destruct (createBlob api idx 1); [|reflexivity].
  destruct (createBlob api idx 2); reflexivity.
Qed.

Lemma uploadBlob_outcome api owner repoName idx file :
  isReturned (snd (uploadBlob api owner repoName idx file 3 0)) = blobOk api idx.
Proof.
  rewrite uploadBlob_cases. unfold blobOk.
  destruct (createBlob api idx 0); [|reflexivity].
  destruct (createBlob api idx 1); [|reflexivity].
  destruct (createBlob api idx 2); reflexivity.
Qed.

Lemma isThrew_isReturned {A : Type} (o : Outcome A) : isThrew o = negb (isReturned o).
Proof. now destruct o. Qed.

Lemma isReturned_bind {A B : Type} (m : Run A) (f : A -> Run B) :
  isReturned (snd m) = true ->
  (forall a, isReturned (snd (f a)) = true) ->
  isReturned (snd (m ≫= f)) = true.
Proof. intros Hm Hf. rewrite snd_bind. destruct (snd m); [discriminate | apply Hf]. Qed.

Lemma forallb_imap {A B : Type} (p : B -> bool) (l : list A) : forall (f : nat -> A -> B),
  forallb p (imap f l) = true <->
  forall k x, l !! k = Some x -> p (f k x) = true.
Proof.
  induction l as [|y l IH]; intros f; cbn [imap forallb].
  - split; [intros _ k x H; discriminate | reflexivity].
  - rewrite andb_true_iff, IH. split.
    + intros [H0 H] [|k] x Hk; [injection Hk as <-; exact H0 | now apply H].
    + intros H. split; [now apply (H 0) | intros k x Hk; now apply (H (S k))].
Qed.

Lemma slice_lookup {A : Type} (l : list A) i k x :
  slice l i (i + 5) !! k = Some x -> k < 5 /\ l !! (i + k) = Some x.
Proof.
  unfold slice. replace (i + 5 - i) with 5 by lia. intros H.
  apply lookup_take_Some in H. destruct H as [H Hk].
  rewrite lookup_drop in H. now split.
Qed.

Lemma slice_lookup_inv {A : Type} (l : list A) i k x :
  k < 5 -> l !! (i + k) = Some x -> slice l i (i + 5) !! k = Some x.
Proof.
  unfold slice. replace (i + 5 - i) with 5 by lia. intros Hk H.
  apply lookup_take_Some. split; [|assumption]. now rewrite lookup_drop.
Qed.

Section GitHubOutcomes.

Variable percent : nat -> nat -> Z.

(** A batch returns when each of its tasks does. *)
Lemma batch_returns {A B : Type} (task : nat -> A -> Run B) (okAt : nat -> bool)
    (l : list A) i :
  (forall idx x, isReturned (snd (task idx x)) = okAt idx) ->
  isReturned (snd (promiseAll (imap (fun k x => task (i + k) x)
                                    (slice l i (i + 5))))) = true <->
  forall k, k < 5 -> i + k < length l -> okAt (i + k) = true.
Proof.
  intros Htask. rewrite isReturned_promiseAll, forallb_imap. split.
  - intros H k Hk Hlt. destruct (lookup_lt_is_Some_2 l (i + k) Hlt) as [x Hx].
    rewrite <- (Htask (i + k) x). apply H. now apply slice_lookup_inv.
  - intros H k x Hx. apply slice_lookup in Hx. destruct Hx as [Hk Hx].
    rewrite Htask. apply H; [assumption|]. now apply lookup_lt_Some in Hx.
Qed.

Lemma batch_outcome api owner repoName (files : list Upload) i :
  isReturned (snd (promiseAll
                     (imap (fun k file => uploadBlob api owner repoName (i + k) file 3 0)
                           (slice files i (i + 5)))))
  = true <->
  forall k, k < 5 -> i + k < length files -> blobOk api (i + k) = true.
Proof.
  apply (batch_returns (fun idx file => uploadBlob api owner repoName idx file 3 0)).
  intros idx x. apply uploadBlob_outcome.
Qed.

Lemma uploadBatches_returns api owner repoName files starts :
  (forall idx, idx < length files -> blobOk api idx = true) ->
  isReturned (snd (uploadBatches percent api owner repoName files starts)) = true.
Proof.
  intros Hok. induction starts as [|i starts IH]; [reflexivity|].
  cbn [uploadBatches]. apply isReturned_bind.
  - apply batch_outcome. intros k _ Hlt. now apply Hok.
  - intros pushed. apply isReturned_bind; [reflexivity|]. intros _.
    apply isReturned_bind; [exact IH | reflexivity].
Qed.

Lemma uploadBatches_throws api owner repoName files starts idx i :
  idx < length files -> blobOk api idx = false ->
  In i starts -> i <= idx < i + 5 ->
  isThrew (snd (uploadBatches percent api owner repoName files starts)) = true.
Proof.
  intros Hlt Hbad Hin Hi. induction starts as [|i0 starts IH]; [destruct Hin|].
  cbn [uploadBatches]. rewrite snd_bind.
  destruct (snd (promiseAll _)) as [e|pushed] eqn:E; [reflexivity|].
  destruct Hin as [-> | Hin].
  - exfalso.
    assert (Hret : isReturned (snd (promiseAll
               (imap (fun k file => uploadBlob api owner repoName (i + k) file 3 0)
                     (slice files i (i + 5))))) = true) by now rewrite E.
    apply batch_outcome with (k := idx - i) in Hret; [|lia|].
    + replace (i + (idx - i)) with idx in Hret by lia. congruence.
    + replace (i + (idx - i)) with idx by lia. assumption.
  - rewrite !snd_bind. cbn [snd onStatus].
    specialize (IH Hin). destruct (snd (uploadBatches _ _ _ _ _ starts)); [reflexivity | discriminate].
Qed.

Lemma batchStarts_covers n idx :
  idx < n -> exists i, In i (batchStarts 5 n) /\ i <= idx < i + 5.
Proof.
  intros Hlt. exists (idx / 5 * 5). split.
  - unfold batchStarts. apply in_map_iff. exists (idx / 5). split; [reflexivity|].
    apply in_seq. split; [lia|]. cbn [Nat.sub]. 
    assert (idx / 5 <= (n - 1) / 5) by (apply Nat.Div0.div_le_mono; lia).
    assert ((n - 1) / 5 < (n + 4) / 5).
    { replace (n + 4) with (n - 1 + 1 * 5) by lia. rewrite Nat.div_add by lia. lia. }
    lia.
  - pose proof (Nat.div_mod_eq idx 5). pose proof (Nat.mod_upper_bound idx 5). lia.
Qed.

Lemma uploadBatches_outcome api owner repoName files :
  isReturned (snd (uploadBatches percent api owner repoName files
                                 (batchStarts 5 (length files))))
  = allBlobsOk api (length files).
Proof.
  unfold allBlobsOk. destruct (forallb _ _) eqn:E.
  - apply uploadBatches_returns. intros idx Hidx.
    rewrite forallb_forall in E. apply E, in_seq. lia.
  - assert (Hex : exists idx, idx < length files /\ blobOk api idx = false).
    { clear - E. induction (length files) as [|n IH]; [discriminate|].
      rewrite seq_S, forallb_app in E. cbn in E. rewrite andb_true_r in E.
      apply andb_false_iff in E. destruct E as [E | E].
      - destruct (IH E) as (idx & Hidx & H). exists idx. split; [lia | assumption].
      - exists n. split; [lia | assumption]. }
    destruct Hex as (idx & Hidx & Hbad).
    destruct (batchStarts_covers _ _ Hidx) as (i & Hin & Hi).
    pose proof (uploadBatches_throws api owner repoName files _ idx i Hidx Hbad Hin Hi) as H.
    rewrite isThrew_isReturned in H. now apply negb_true_iff in H.
Qed.

End GitHubOutcomes.

Lemma Aborts_here {A B : Type} k (m : Run A) (f : A -> Run B) :
  isThrew (snd m) = true -> Within k m -> Aborts k (m ≫= f).
Proof.
  intros Ht Hw. unfold Aborts, Within in *. rewrite snd_bind, fst_bind.
  destruct (snd m); [|discriminate]. rewrite app_nil_r. now split.
Qed.

Lemma Aborts_later {A B : Type} k (m : Run A) (f : A -> Run B) :
  isReturned (snd m) = true -> Within k m -> (forall a, Aborts k (f a)) ->
  Aborts k (m ≫= f).
Proof.
  intros Hr Hw Hf. unfold Aborts, Within in *. rewrite snd_bind, fst_bind.
  destruct (snd m) as [e|a]; [discriminate|]. destruct (Hf a) as [H1 H2].
  split; [assumption|]. apply Forall_app. now split.
Qed.

Lemma Completes_step {A B : Type} (m : Run A) (f : A -> Run B) :
  isReturned (snd m) = true -> Within 9 m -> (forall a, Completes (f a)) ->
  Completes (m ≫= f).
Proof.
  intros Hr Hw Hf. unfold Completes, Within in *. rewrite snd_bind, fst_bind.
  destruct (snd m) as [e|a]; [discriminate|]. destruct (Hf a) as [H1 H2].
  split; [assumption|]. apply Forall_app. now split.
Qed.

Lemma Completes_ret {A : Type} (a : A) : Completes (mret a).
Proof. split; [reflexivity | constructor]. Qed.

(** What the outer [catch] makes of a body that aborts or completes. *)
Lemma reported_abort k (m : Run jsstring) :
  Aborts k m ->
  isThrew (snd (tryCatch m reportFailure)) = true
  /\ Forall (fun r => phaseOf r <= k) (requests (fst (tryCatch m reportFailure))).
Proof.
  intros [Ht Hw]. rewrite tryCatch_reportFailure.
  destruct (snd m) as [e|a]; [|discriminate]. cbn [fst snd]. split; [reflexivity|].
  rewrite requests_app. cbn [requests omap]. rewrite app_nil_r.
  unfold Within in Hw. clear Ht. induction Hw as [|a tr Ha _ IH]; [constructor|].
  destruct a as [s|r|ms]; cbn; [exact IH | constructor; assumption | exact IH].
Qed.

Lemma reported_completion (m : Run jsstring) :
  Completes m -> isReturned (snd (tryCatch m reportFailure)) = true.
Proof.
  intros [Hr _]. rewrite tryCatch_reportFailure. now destruct (snd m).
Qed.

Lemma setUpRepository_outcome api owner repoName descr isPrivate :
  isThrew (snd (setUpRepository api owner repoName descr isPrivate))
  = repositoryFails api.
Proof.
  unfold setUpRepository, repositoryFails, send.
  destruct (createForAuthenticatedUser api) as [e|b]; [|reflexivity].
  cbn. destruct (bool_decide (status e = Some 422%Z)); [|reflexivity].
  cbn. now destruct (reposGet api).
Qed.

Lemma readHead_returns api owner repoName branch :
  isReturned (snd (readHead api owner repoName branch)) = true.
Proof.
  unfold readHead, send. destruct (getRef api); [reflexivity|].
  cbn. now destruct (getCommit api).
Qed.

Lemma enablePages_returns api owner repoName branch :
  isReturned (snd (enablePages api owner repoName branch)) = true.
Proof.
  unfold enablePages, send. destruct (createPagesSite api) as [e|pages]; [|reflexivity].
  cbn. destruct (bool_decide (status e = Some 409%Z)); [|reflexivity].
  cbn. now destruct (getPages api).
Qed.

Lemma isReturned_send {A : Type} r (answer : Outcome A) :
  isThrew answer = false -> isReturned (snd (send r answer)) = true.
Proof. now destruct answer. Qed.

Lemma isThrew_send {A : Type} r (answer : Outcome A) :
  isThrew answer = true -> isThrew (snd (send r answer)) = true.
Proof. now destruct answer. Qed.

Section GitHubWalk.

Variable percent : nat -> nat -> Z.

Lemma isThrew_uploadBatches api owner repoName files :
  negb (allBlobsOk api (length files)) = true ->
  isThrew (snd (uploadBatches percent api owner repoName files
                              (batchStarts 5 (length files)))) = true.
Proof. intros H. now rewrite isThrew_isReturned, uploadBatches_outcome. Qed.

Lemma isReturned_uploadBatches api owner repoName files :
  negb (allBlobsOk api (length files)) = false ->
  isReturned (snd (uploadBatches percent api owner repoName files
                                 (batchStarts 5 (length files)))) = true.
Proof. intros H. rewrite uploadBatches_outcome. now apply negb_false_iff. Qed.

Ltac solve_returned :=
  first
    [ reflexivity
    | apply isReturned_send; assumption
    | apply readHead_returns
    | apply enablePages_returns
    | apply isReturned_uploadBatches; assumption
    | rewrite <- (negb_involutive (isReturned _)), <- isThrew_isReturned,
        setUpRepository_outcome; apply negb_true_iff; assumption
    | match goal with
      | |- isReturned (snd (match ?x with _ => _ end)) = true =>
          destruct x as [[|? ?]|]; reflexivity
      end ].

Ltac solve_threw :=
  first
    [ apply isThrew_send; assumption
    | apply isThrew_uploadBatches; assumption
    | rewrite setUpRepository_outcome; assumption ].

Ltac solve_within k :=
  first
    [ apply (Within_mono 2 k); [lia | apply Within_setUpRepository]
    | apply (Within_mono 4 k); [lia | apply Within_readHead]
    | apply (Within_mono 5 k); [lia | apply Within_uploadBatches]
    | apply Within_enablePages
    | solve [within] ].

Ltac walk :=
  repeat
    match goal with
    | |- Aborts ?k (_ ≫= _) =>
        first
          [ apply Aborts_here; [solve_threw | solve_within k]
          | apply Aborts_later; [solve_returned | solve_within k | intros ?] ]
    | |- Aborts ?k (let '(_, _) := ?x in _) => destruct x
    | |- Completes (let '(_, _) := ?x in _) => destruct x
    | |- Completes (_ ≫= _) =>
        apply Completes_step; [solve_returned | solve_within 9 | intros ?]
    | |- Completes (mret _) => apply Completes_ret
    end.

(** The Git backend ends at its first fatal step without a request of a
    later step, and returns when there is none. *)
Lemma githubBody_outcome api token repoName descr isPrivate analysis customDomain patches :
  exists body,
    deployZipToGitHub percent api token repoName descr isPrivate analysis
                      customDomain patches
    = tryCatch body reportFailure
    /\ match gitHubFatalStep api
               (length (prepareFiles analysis customDomain patches)) with
       | Some k => Aborts k body
       | None => Completes body
       end.
Proof.
  eexists. split; [reflexivity|]. unfold gitHubFatalStep.
  destruct (isThrew (getAuthenticated api)) eqn:H1; [walk|].
  destruct (repositoryFails api) eqn:H2; [walk|].
  destruct (negb (allBlobsOk api _)) eqn:H5; [walk|].
  destruct (isThrew (createTree api)) eqn:H6; [walk|].
  destruct (isThrew (createCommit api)) eqn:H7; [walk|].
  destruct (isThrew (updateRef api)) eqn:H8; walk.
Qed.

End GitHubWalk.

(** ** Outcomes of the steps of the content-addressed backend *)







Section FirebaseWalk.

Variable percent : nat -> nat -> Z.
Variable calculateSHA256 : list Byte.byte -> jsstring.











End FirebaseWalk.

(** ** The retry of a blob and the failure rule *)

Section DeployTheorems.

Variable percent : nat -> nat -> Z.
Variable calculateSHA256 : list Byte.byte -> jsstring.

(** C5. A blob is requested at most three times with one second between two
    requests; two failures and a success give the tree item, three failures
    throw the last error.  A blob phase in which every blob goes through
    within three attempts returns without an error event; when the steps
    before it succeed and some blob fails three times, the deployment
    throws, its one error event is the last event, and no request of a
    later step is sent. *)
Theorem blob_upload_retry (api : GitHub) (owner repoName token descr : jsstring)
    (isPrivate : bool) (analysis : ZipAnalysis)
    (customDomain : option jsstring) (patches : option (list AutoFixPatch))
    (idx : nat) (file : Upload) :
  let attempt := Send (CreateBlob owner repoName (upContent file)) in
  let item sha := mkTreeItem (upPath file) (upMode file) "blob" sha in
  let run := deployZipToGitHub percent api token repoName descr isPrivate
                               analysis customDomain patches in
  let n := length (prepareFiles analysis customDomain patches) in
  (exists k, 1 <= k <= 3
             /\ fst (uploadBlob api owner repoName idx file 3 0)
                = attemptsTrace attempt k)
  /\ (forall e0 e1 sha,
        createBlob api idx 0 = Threw e0 -> createBlob api idx 1 = Threw e1 ->
        createBlob api idx 2 = Returned sha ->
        uploadBlob api owner repoName idx file 3 0
        = (attemptsTrace attempt 3, Returned (Some (item sha))))
  /\ (forall e0 e1 e2,
        createBlob api idx 0 = Threw e0 -> createBlob api idx 1 = Threw e1 ->
        createBlob api idx 2 = Threw e2 ->
        uploadBlob api owner repoName idx file 3 0
        = (attemptsTrace attempt 3, Threw e2))
  /\ (forall files,
        (forall i, i < length files -> blobOk api i = true) ->
        isReturned (snd (uploadBatches percent api owner repoName files
                                       (batchStarts 5 (length files)))) = true
        /\ errorCount (fst (uploadBatches percent api owner repoName files
                                          (batchStarts 5 (length files)))) = 0)
  /\ (isThrew (getAuthenticated api) = false -> repositoryFails api = false ->
      (exists i, i < n /\ blobOk api i = false) ->
      isThrew (snd run) = true /\ errorCount (fst run) = 1
      /\ (exists e, snd run = Threw e
                    /\ last (events (fst run)) = Some (failureEvent e))
      /\ Forall (fun r => phaseOf r <= 5) (requests (fst run)))
  /\ (gitHubFatalStep api n = None ->
      isReturned (snd run) = true /\ errorCount (fst run) = 0).
Proof.
  intros attempt item run n.
  pose proof (uploadBlob_cases api owner repoName idx file) as Hcases.
  cbv zeta in Hcases. fold attempt in Hcases.
  destruct (Within_githubBody percent api token repoName descr isPrivate analysis
                              customDomain patches) as (body & Hbody & Hquiet).
  pose proof (reportFailure_contract 9 body Hquiet) as (Hiff & Hzero & Hlast).
  rewrite <- Hbody in Hiff, Hzero, Hlast. fold run in Hiff, Hzero, Hlast.
  destruct (githubBody_outcome percent api token repoName descr isPrivate analysis
                               customDomain patches) as (body' & Hbody' & Hout).
  fold n in Hout.
  split; [|split; [|split; [|split; [|split]]]].
  - rewrite Hcases.
    destruct (createBlob api idx 0); [|exists 1; split; [lia | reflexivity]].
    destruct (createBlob api idx 1); [|exists 2; split; [lia | reflexivity]].
    destruct (createBlob api idx 2); exists 3; (split; [lia | reflexivity]).
  - intros e0 e1 sha H0 H1 H2. now rewrite Hcases, H0, H1, H2.
  - intros e0 e1 e2 H0 H1 H2. now rewrite Hcases, H0, H1, H2.
  - intros files Hok. split; [now apply uploadBatches_returns|].
    apply (errorCount_Within 5), Within_uploadBatches.
  - intros H1 H2 (i & Hi & Hbad).
    assert (Hfatal : gitHubFatalStep api n = Some 5).
    { unfold gitHubFatalStep. rewrite H1, H2.
      assert (Hall : allBlobsOk api n = false).
      { unfold allBlobsOk. destruct (forallb (blobOk api) (seq 0 n)) eqn:E; [|reflexivity].
        rewrite forallb_forall in E. rewrite E in Hbad; [discriminate|].
        apply in_seq. lia. }
      now rewrite Hall. }
    rewrite Hfatal in Hout.
    destruct (reported_abort 5 body' Hout) as [Hthrew Hreq].
    rewrite <- Hbody' in Hthrew, Hreq. fold run in Hthrew, Hreq.
    split; [assumption|]. split; [now apply Hiff|]. split; [|assumption].
    destruct (snd run) as [e|u] eqn:E; [|discriminate].
    exists e. split; [reflexivity | now apply Hlast].
  - intros Hnone. rewrite Hnone in Hout.
    pose proof (reported_completion body' Hout) as Hret.
    rewrite <- Hbody' in Hret. fold run in Hret. split; [assumption | now apply Hzero].
Qed.


End DeployTheorems.

Lemma blob_upload_retry_witness :
  uploadBlob flakyGitHub "octocat" "site" 0
             (mkUpload "index.html" (utf8 "<html>") "100644") 3 0
  = (attemptsTrace (Send (CreateBlob "octocat" "site" (utf8 "<html>"))) 3,
     Returned (Some (mkTreeItem "index.html" "100644" "blob" "b10b"))).
Proof.
  refine (proj1 (proj2 (blob_upload_retry roundedPercent flakyGitHub
            "octocat" "site" "tok" "" false twoFileAnalysis None None 0
            (mkUpload "index.html" (utf8 "<html>") "100644")))
            serverError serverError "b10b" _ _ _); reflexivity.
Defined.


(** * Further properties *)

(** ** Common-root detection, continued *)

Lemma potentialPrefix_detect ps :
  match potentialPrefix ps with
  | Some pp =>
      forallb (fun p => Js.startsWith p pp) ps = true
      /\ detectCommonPrefix ps = pp
  | None => detectCommonPrefix ps = []
  end.
Proof.
  unfold potentialPrefix, detectCommonPrefix.
  destruct (Js.sort ps) as [|first rest] eqn:Es; [reflexivity|]. cbv zeta.
  destruct (negb (_ =? -1)%Z) eqn:E; [|reflexivity].
  assert (Hall : forallb (fun p => Js.startsWith p
             (Js.substringTo (Js.substringTo first
                (commonLength first (List.last rest first)))
                (Z.to_nat (Js.lastIndexOf (Js.substringTo first
                   (commonLength first (List.last rest first))) Js.slash + 1)))) ps
           = true).
  { apply forallb_startsWith.
    eapply Forall_impl; [apply (paths_start_with_common ps first rest Es)|].
    intros p Hp. cbn beta in Hp. eapply startsWith_trans; [exact Hp|].
    unfold Js.substringTo. apply startsWith_take. }
  rewrite Hall. split; reflexivity.
Qed.

Lemma detectCommonPrefix_no_folder ps p :
  In p ps -> ~ In Js.slash p -> detectCommonPrefix ps = [].
Proof.
  intros Hin Hp.
  destruct (detectCommonPrefix_whole_folders ps) as [[H | (u & H)] Hall];
    [assumption|]. exfalso.
  rewrite List.Forall_forall in Hall. apply Hall in Hin. rewrite H in Hin.
  apply startsWith_app in Hin. destruct Hin as (r & ->).
  apply Hp. rewrite !in_app_iff. left. right. now left.
Qed.

Lemma stripPrefix_nil p : stripPrefix [] p = p.
Proof. reflexivity. Qed.

Lemma detectCommonPrefix_strip ps :
  detectCommonPrefix (map (stripPrefix (detectCommonPrefix ps)) ps) = [].
Proof.
  destruct (detectCommonPrefix_whole_folders ps) as [[H | (u & H)] Hall].
  - rewrite H. rewrite (map_ext (stripPrefix []) id) by reflexivity.
    rewrite map_id. exact H.
  - set (cp := detectCommonPrefix ps) in *.
    set (rests := map (stripPrefix cp) ps).
    assert (Hps : ps <> []).
    { intros ->. unfold cp in H. rewrite detectCommonPrefix_nil in H.
      now destruct u. }
    assert (Hcp : cp <> []) by (rewrite H; now destruct u).
    destruct (detectCommonPrefix_whole_folders rests) as [[H' | (u' & H')] Hall'];
      [assumption|]. exfalso.
    assert (Hcov : Js.startsWith cp ((cp ++ u') ++ [Js.slash]) = true).
    { apply detectCommonPrefix_covers; [assumption|].
      rewrite List.Forall_forall in Hall, Hall'. apply List.Forall_forall.
      intros p Hp. pose proof (Hall p Hp) as H1.
      apply startsWith_app in H1. destruct H1 as (r & Hr).
      assert (H2 : In r rests).
      { unfold rests. apply in_map_iff. exists p. split; [|assumption].
        rewrite Hr. now apply stripPrefix_app. }
      apply Hall' in H2. rewrite H' in H2. apply startsWith_app in H2.
      destruct H2 as (t & Ht). apply startsWith_app. exists t.
      rewrite Hr, Ht. now rewrite <- !app_assoc. }
    apply startsWith_app in Hcov. destruct Hcov as (t & Ht).
    apply (f_equal (@length ascii)) in Ht. rewrite !length_app in Ht.
    cbn [length] in Ht. lia.
Qed.

(** Step 2 removes the whole shared root at once: what is left of the paths
    has no shared root, so a second detection finds nothing to strip. *)
Theorem root_stripping_is_complete (ps : list jsstring) :
  detectCommonPrefix (map (stripPrefix (detectCommonPrefix ps)) ps) = []
  /\ map (stripPrefix (detectCommonPrefix
                         (map (stripPrefix (detectCommonPrefix ps)) ps)))
         (map (stripPrefix (detectCommonPrefix ps)) ps)
     = map (stripPrefix (detectCommonPrefix ps)) ps.
Proof.
  split; [apply detectCommonPrefix_strip|].
  rewrite detectCommonPrefix_strip.
  rewrite (map_ext (stripPrefix []) id) by reflexivity. apply map_id.
Qed.

(** The test of the candidate against every path never fails: the candidate
    is a prefix of the common prefix of the two ends of the sorted list, and
    every path lies between the two ends. *)
Theorem every_path_check_is_redundant (ps : list jsstring) :
  match potentialPrefix ps with
  | Some pp =>
      forallb (fun p => Js.startsWith p pp) ps = true
      /\ detectCommonPrefix ps = pp
  | None => detectCommonPrefix ps = []
  end.
Proof. apply potentialPrefix_detect. Qed.

(** ** The filter of step 3 *)

Lemma scan_closed_form cp raws : forall st,
  s_files (fold_left (scanFile cp) raws st)
  = s_files st ++ map (manifestOf cp) (List.filter (keptRaw cp) raws)
  /\ s_ignoredFiles (fold_left (scanFile cp) raws st)
     = s_ignoredFiles st
       ++ map (ignoredOf cp) (List.filter (fun rf => negb (keptRaw cp rf)) raws).
Proof.
  induction raws as [|rf raws IH]; intros st; cbn [fold_left List.filter map].
  - now rewrite !app_nil_r.
  - destruct (IH (scanFile cp st rf)) as [-> ->]. unfold scanFile.
    change (keptRaw cp rf)
      with (negb (Js.truthy (ignoreReasonOf (stripPrefix cp (rawPath rf))))).
    destruct (Js.truthy (ignoreReasonOf (stripPrefix cp (rawPath rf))));
      cbn [negb s_files s_ignoredFiles map].
    + split; [reflexivity|]. now rewrite <- app_assoc.
    + split; [|reflexivity]. now rewrite <- app_assoc.
Qed.

Lemma analyzeZip_closed_form z :
  let raws := collectRawFiles z in
  let cp := detectCommonPrefix (map rawPath raws) in
  files (analyzeZip z) = map (manifestOf cp) (List.filter (keptRaw cp) raws)
  /\ ignoredFiles (analyzeZip z)
     = map (ignoredOf cp) (List.filter (fun rf => negb (keptRaw cp rf)) raws).
Proof.
  intros raws cp. unfold analyzeZip. cbn [files ignoredFiles].
  fold raws. fold cp. destruct (scan_closed_form cp raws initialScan) as [-> ->].
  split; reflexivity.
Qed.

Lemma filter_partition_length {A : Type} (p : A -> bool) (l : list A) :
  length (List.filter p l) + length (List.filter (fun x => negb (p x)) l)
  = length l.
Proof.
  induction l as [|x l IH]; [reflexivity|]. cbn [List.filter].
  destruct (p x); cbn [negb length]; lia.
Qed.

Lemma ignoreReasonOf_clean p : ignoreReasonOf p = [] -> passesFilter p.
Proof.
  unfold ignoreReasonOf, passesFilter.
  destruct (Js.includes p ".DS_Store"); [discriminate|].
  destruct (Js.includes p "Thumbs.db"); [discriminate|]. cbn [orb].
  destruct (Js.includes p "node_modules/"); [discriminate|].
  destruct (Js.startsWith p ".git/"); [discriminate|].
  destruct (Js.endsWith p ".log"); [discriminate|].
  destruct (Js.endsWith p ".env"); [discriminate|].
  destruct (Js.includes p ".vscode/"); [discriminate|].
  destruct (Js.includes p ".idea/"); [discriminate|]. tauto.
Qed.

Lemma truthy_false (s : jsstring) : Js.truthy s = false <-> s = [].
Proof. destruct s; split; try reflexivity; discriminate. Qed.

(** Every entry of the archive that is a file outside the resource-fork
    folder is either kept or recorded as ignored with a reason, never both
    and never lost, and no kept path is a system file, a dependency, Git
    metadata, a log, an environment file or editor configuration. *)
Theorem junk_filter_partitions_the_archive (z : Archive) :
  let a := analyzeZip z in
  fileCount a = length (files a)
  /\ length (files a) + length (ignoredFiles a) = length (collectRawFiles z)
  /\ Forall (fun f => passesFilter (path f)) (files a)
  /\ Forall (fun i => reason i = ignoreReasonOf (ignoredPath i)
                      /\ reason i <> []) (ignoredFiles a).
Proof.
  intros a. destruct (analyzeZip_closed_form z) as [Hf Hi]. cbv zeta in Hf, Hi.
  fold a in Hf, Hi. split; [reflexivity|]. rewrite Hf, Hi. split.
  - rewrite !length_map. apply filter_partition_length.
  - split; apply List.Forall_forall.
    + intros f Hin. apply in_map_iff in Hin. destruct Hin as (rf & <- & Hin).
      apply filter_In in Hin. destruct Hin as [_ Hk].
      apply ignoreReasonOf_clean. cbn [manifestOf path].
      apply negb_true_iff, truthy_false in Hk. exact Hk.
    + intros i Hin. apply in_map_iff in Hin. destruct Hin as (rf & <- & Hin).
      apply filter_In in Hin. destruct Hin as [_ Hk]. cbn [ignoredOf reason ignoredPath].
      split; [reflexivity|]. apply negb_true_iff, negb_false_iff in Hk.
      intros E. rewrite E in Hk. discriminate.
Qed.

(** Stripping is decided before the filter: one file at the top level of the
    archive, even one the filter then ignores, keeps every path as it is in
    the archive. *)
Theorem top_level_entry_blocks_stripping (z : Archive) (p : jsstring)
    (e : ZipEntry)
    (Hin : In (p, e) z) (Hfile : dir e = false)
    (Hmac : Js.includes p "__MACOSX" = false)
    (Htop : ~ In Js.slash p) :
  detectCommonPrefix (map rawPath (collectRawFiles z)) = []
  /\ (forall f, In f (files (analyzeZip z)) -> In (path f, entry f) z)
  /\ (forall i, In i (ignoredFiles (analyzeZip z)) ->
                In (ignoredPath i) (map fst z)).
Proof.
  assert (Hraw : forall rf, In rf (collectRawFiles z) ->
                            In (rawPath rf, rawEntry rf) z).
  { intros rf. unfold collectRawFiles. rewrite <- list_elem_of_In.
    rewrite list_elem_of_omap. intros ([q e'] & Hq & Hsome).
    destruct (negb (dir e') && negb (Js.includes q "__MACOSX")); [|discriminate].
    injection Hsome as <-. now apply list_elem_of_In. }
  assert (Hcp : detectCommonPrefix (map rawPath (collectRawFiles z)) = []).
  { apply (detectCommonPrefix_no_folder _ p); [|assumption].
    apply in_map_iff. exists (mkRaw p e). split; [reflexivity|].
    unfold collectRawFiles. apply list_elem_of_In, list_elem_of_omap.
    exists (p, e). split; [now apply list_elem_of_In|].
    now rewrite Hfile, Hmac. }
  split; [assumption|].
  destruct (analyzeZip_closed_form z) as [Hf Hi]. cbv zeta in Hf, Hi.
  rewrite Hcp in Hf, Hi. rewrite Hf, Hi. split.
  - intros f Hf'. apply in_map_iff in Hf'. destruct Hf' as (rf & <- & Hrf).
    apply filter_In in Hrf. destruct Hrf as [Hrf _]. now apply Hraw.
  - intros i Hi'. apply in_map_iff in Hi'. destruct Hi' as (rf & <- & Hrf).
    apply filter_In in Hrf. destruct Hrf as [Hrf _]. apply Hraw in Hrf.
    apply in_map_iff. now exists (rawPath rf, rawEntry rf).
Qed.

Lemma top_level_entry_blocks_stripping_witness :
  map path (files (analyzeZip strayFileArchive)) = ["site/index.html" : jsstring]
  /\ detectCommonPrefix (map rawPath (collectRawFiles strayFileArchive)) = [].
Proof.
  split; [vm_compute; reflexivity|].
  refine (proj1 (top_level_entry_blocks_stripping strayFileArchive ".DS_Store"
                   (textEntry "x") _ _ _ _)).
  - left. reflexivity.
  - reflexivity.
  - reflexivity.
  - vm_compute. intuition discriminate.
Defined.

(** ** The warnings pushed after the asset check *)

Lemma classify_unknown fs hi hp :
  classify fs hi hp = Unknown -> hi = false /\ hp = false.
Proof.
  unfold classify.
  repeat match goal with
         | |- context [if existsb ?f fs then _ else _] =>
             destruct (existsb f fs); [discriminate|]
         end.
  destruct hp, hi; cbn; try discriminate;
    repeat match goal with
           | |- context [if existsb ?f fs then _ else _] =>
               destruct (existsb f fs); try discriminate
           end; auto.
Qed.

Lemma analyzeZip_warnings_shape z :
  let a := analyzeZip z in
  let fs := files a in
  let checked :=
    checkAssets fs (hasRootFile "index.html" fs) (capturedIndexHtml fs)
                (if existsb flaggedAbsolute fs then [absolutePathsWarning]
                 else []) in
  warnings a
  = if bool_decide (projectType a = Unknown)
    then checked ++ [placementWarning fs]
    else checked.
Proof.
  intros a fs checked. subst checked fs a. unfold analyzeZip.
  cbn [files warnings projectType].
  set (st := fold_left _ _ _).
  destruct (scan_invariant (detectCommonPrefix (map rawPath (collectRawFiles z)))
                           (collectRawFiles z)) as [Hi Hp _ Hc Hw].
  fold st in Hi, Hp, Hc, Hw.
  rewrite sourceUploadWarnings_classify. rewrite Hw, Hc, <- Hi.
  unfold nestedIndexWarnings.
  destruct (bool_decide (classify (s_files st) (s_hasIndexHtml st)
                                  (s_hasPackageJson st) = Unknown)) eqn:E.
  - apply bool_decide_eq_true in E.
    destruct (classify_unknown _ _ _ E) as [Ei Ep]. rewrite Ei, Ep.
    cbn [negb andb]. unfold placementWarning, nestedIndexWarning, noIndexWarning.
    destruct (find _ (s_files st)); reflexivity.
  - now rewrite andb_false_r.
Qed.

Lemma checked_warning_kinds fs w :
  In w (checkAssets fs (hasRootFile "index.html" fs) (capturedIndexHtml fs)
          (if existsb flaggedAbsolute fs then [absolutePathsWarning] else [])) ->
  w = absolutePathsWarning \/ exists r, w = missingAssetWarning r.
Proof.
  rewrite checkAssets_In. intros [H | (m & _ & _ & _ & ->)].
  - destruct (existsb flaggedAbsolute fs); [|destruct H].
    destruct H as [<- | []]. now left.
  - right. eauto.
Qed.

Lemma placementWarning_cases fs :
  placementWarning fs = noIndexWarning
  \/ exists p, placementWarning fs = nestedIndexWarning p.
Proof.
  unfold placementWarning. destruct (find _ fs) as [f|]; [right; eauto | now left].
Qed.

(** The warnings of an analysis are of three kinds: the absolute-path
    warning, a missing-asset warning, and one warning about the place of
    [index.html].  The two warnings about an uploaded source tree are never
    given: their branch asks for a [package.json] at the root and for the
    type [Unknown], which the classification of step 4 excludes. *)
Theorem source_upload_warnings_never_fire (z : Archive) :
  (forall w, In w (warnings (analyzeZip z)) ->
     w = absolutePathsWarning \/ (exists r, w = missingAssetWarning r)
     \/ w = placementWarning (files (analyzeZip z)))
  /\ ~ In sourceWithBuildWarning (warnings (analyzeZip z))
  /\ ~ In sourceWithoutBuildWarning (warnings (analyzeZip z))
  /\ (forall fs hi hp hd ws,
        sourceUploadWarnings hi hp hd (classify fs hi hp) ws = ws).
Proof.
  assert (Hkinds : forall w, In w (warnings (analyzeZip z)) ->
     w = absolutePathsWarning \/ (exists r, w = missingAssetWarning r)
     \/ w = placementWarning (files (analyzeZip z))).
  { intros w. rewrite (analyzeZip_warnings_shape z).
    destruct (bool_decide _).
    - rewrite in_app_iff. intros [H | [<- | []]]; [|now right; right].
      apply checked_warning_kinds in H. tauto.
    - intros H. apply checked_warning_kinds in H. tauto. }
  split; [exact Hkinds|].
  assert (Hnot : forall w, In w (warnings (analyzeZip z)) ->
                   forall c s, w = c :: s ->
                   c = "A"%char \/ c = "M"%char \/ c = "N"%char \/ c = "'"%char).
  { intros w Hw c s E. apply Hkinds in Hw.
    destruct Hw as [-> | [(r & ->) | ->]].
    - injection E as <- _. now left.
    - injection E as <- _. right. now left.
    - destruct (placementWarning_cases (files (analyzeZip z))) as [H | (p & H)];
        rewrite H in E; injection E as <- _; tauto. }
  split; [|split].
  - intros H. destruct (Hnot _ H "F"%char _ eq_refl) as [E | [E | [E | E]]];
      discriminate.
  - intros H. destruct (Hnot _ H "D"%char _ eq_refl) as [E | [E | [E | E]]];
      discriminate.
  - intros. apply sourceUploadWarnings_classify.
Qed.

(** An analysis warns about the place of [index.html] exactly when its type
    is [Unknown]: then neither [index.html] nor [package.json] is at the
    root, and the warning is the last one and names the first kept file
    whose path ends with [/index.html], if there is one. *)
Theorem placement_warning_iff_unknown (z : Archive) :
  let a := analyzeZip z in
  (In (placementWarning (files a)) (warnings a) <-> projectType a = Unknown)
  /\ (if bool_decide (projectType a = Unknown)
      then hasRootFile "index.html" (files a) = false
           /\ hasRootFile "package.json" (files a) = false
           /\ last (warnings a) = Some (placementWarning (files a))
      else forall w, In w (warnings a) ->
             w <> noIndexWarning /\ forall p, w <> nestedIndexWarning p).
Proof.
  intros a.
  assert (Hother : forall w,
             In w (checkAssets (files a) (hasRootFile "index.html" (files a))
                     (capturedIndexHtml (files a))
                     (if existsb flaggedAbsolute (files a)
                      then [absolutePathsWarning] else [])) ->
             w <> noIndexWarning /\ forall p, w <> nestedIndexWarning p).
  { intros w Hw. apply checked_warning_kinds in Hw.
    destruct Hw as [-> | (r & ->)]; split; try intros p; discriminate. }
  pose proof (analyzeZip_warnings_shape z) as Hs. cbv zeta in Hs. fold a in Hs.
  split.
  - rewrite Hs. destruct (bool_decide (projectType a = Unknown)) eqn:E.
    + apply bool_decide_eq_true in E. split; [intros _; exact E|].
      intros _. apply in_app_iff. right. now left.
    + apply bool_decide_eq_false in E. split; [|intros; contradiction].
      intros H. apply Hother in H. destruct H as [H1 H2].
      destruct (placementWarning_cases (files a)) as [H | (p & H)];
        [now apply H1 in H | now apply H2 in H].
  - rewrite Hs. destruct (bool_decide (projectType a = Unknown)) eqn:E.
    + apply bool_decide_eq_true in E.
      unfold a in E. rewrite analyzeZip_projectType in E. fold a in E.
      rewrite <- classify_firstMatch in E. apply classify_unknown in E.
      destruct E as [E1 E2]. split; [assumption|]. split; [assumption|].
      apply last_snoc.
    + exact Hother.
Qed.

(** ** The drop handler *)

Lemma spanNonSlash_spec s :
  s = fst (App.spanNonSlash s) ++ snd (App.spanNonSlash s)
  /\ ~ In Js.slash (fst (App.spanNonSlash s))
  /\ (snd (App.spanNonSlash s) = []
      \/ exists r, snd (App.spanNonSlash s) = Js.slash :: r).
Proof.
  induction s as [|c s (IH1 & IH2 & IH3)]; cbn [App.spanNonSlash].
  - cbn. tauto.
  - destruct (Ascii.eqb c Js.slash) eqn:E.
    + apply Ascii.eqb_eq in E. subst c. cbn. split; [reflexivity|]. split; [tauto|].
      right. now exists s.
    + destruct (App.spanNonSlash s) as [run rest]. cbn [fst snd] in *.
      split; [now rewrite IH1 at 1|]. split; [|assumption].
      intros [H | H]; [|now apply IH2]. subst c. now rewrite Ascii.eqb_refl in E.
Qed.

Lemma underOneFolder_iff nm p :
  App.underOneFolder nm p = true <->
  exists folder, folder <> [] /\ ~ In Js.slash folder
                 /\ p = folder ++ Js.slash :: nm.
Proof.
  unfold App.underOneFolder.
  destruct (spanNonSlash_spec p) as (H1 & H2 & H3).
  destruct (App.spanNonSlash p) as [folder rest]. cbn [fst snd] in *. split.
  - intros H. apply andb_true_iff in H. destruct H as [Hf Hr].
    apply bool_decide_eq_true in Hr. subst rest. exists folder.
    split; [now destruct folder|]. tauto.
  - intros (fo & Hne & Hns & Hp). rewrite Hp in H1. clear Hp p. symmetry in H1.
    assert (E : folder = fo /\ rest = Js.slash :: nm).
    { clear Hne. revert fo Hns H1. induction folder as [|c folder IH]; intros fo Hns H1.
      - destruct H3 as [-> | (r & ->)].
        + destruct fo; discriminate.
        + destruct fo as [|d fo]; [cbn in H1; injection H1 as <-; now split|].
          cbn in H1. injection H1 as Hd _.
          exfalso. apply Hns. left. congruence.
      - destruct fo as [|d fo].
        + cbn in H1. injection H1 as Hc _. exfalso. apply H2. left. congruence.
        + cbn in H1. injection H1 as Hc H1. subst d.
          destruct (IH (fun H => H2 (or_intror H)) fo (fun H => Hns (or_intror H)) H1)
            as [-> ->].
          now split. }
    destruct E as [-> ->]. apply andb_true_iff. split; [now destruct fo|].
    now apply bool_decide_eq_true.
Qed.

(** The drop handler sets three state variables and leaves the others: it
    clears them (no file dropped), or sets an error and nothing else, or
    sets an analysis with the file it came from and no error.
    The error about a file that is not a zip archive is never shown: the
    file analysed is either the archive made of the dropped files, named
    [project.zip], or the one dropped file whose name ends with [.zip]. *)
Theorem drop_outcomes (generateAsync : list (jsstring * App.File) ->
                                       Outcome (Outcome Archive))
    (st0 : App.State) (acceptedFiles : list App.File) :
  let st := App.onDrop generateAsync st0 acceptedFiles in
  App.validationError st <> Some App.notAZip
  /\ (st = App.dropped st0 None None None /\ acceptedFiles = []
      \/ (exists msg, st = App.dropped st0 (Some msg) None None)
      \/ (exists f z, st = App.dropped st0 None (Some f) (Some (analyzeZip z))
                      /\ App.loadAsync f = Returned z
                      /\ App.rejects (analyzeZip z) = false
                      /\ Js.endsWith (App.fileName f) ".zip" = true)).
Proof.
  intros st. subst st. unfold App.onDrop.
  destruct acceptedFiles as [|first others].
  - cbn. split; [discriminate|]. left. tauto.
  - cbv zeta.
    destruct ((1 <? length (first :: others))%nat
              || negb (Js.endsWith (App.fileName first) ".zip")) eqn:E.
    + destruct (generateAsync _) as [err|zipBlob].
      * cbn. split; [discriminate|]. right. left. eauto.
      * change (Js.endsWith (App.fileName (App.mkDomFile "project.zip" [] zipBlob))
                            ".zip") with true. cbn [negb].
        cbn [App.loadAsync]. destruct zipBlob as [err|z].
        -- cbn. split; [discriminate|]. right. left. eauto.
        -- destruct (App.rejects (analyzeZip z)) eqn:Er.
           ++ cbn. split; [discriminate|]. right. left. eauto.
           ++ cbn. split; [discriminate|]. right. right.
              exists (App.mkDomFile "project.zip" [] (Returned z)), z. auto.
    + apply orb_false_iff in E. destruct E as [_ E]. apply negb_false_iff in E.
      rewrite E. cbn [negb]. destruct (App.loadAsync first) as [err|z] eqn:El.
      * cbn. split; [discriminate|]. right. left. eauto.
      * destruct (App.rejects (analyzeZip z)) eqn:Er.
        -- cbn. split; [discriminate|]. right. left. eauto.
        -- cbn. split; [discriminate|]. right. right. exists first, z. auto.
Qed.

(** The handler turns an analysed archive away exactly when its type is
    [Unknown] and no kept file is an [index.html] or a [package.json] one
    folder below the root; for the type [Unknown] the two tests for a file
    at the root are never met.  An archive with either file at the root
    after stripping is never turned away. *)
Theorem unknown_project_rejection (z : Archive) :
  let a := analyzeZip z in
  (App.rejects a = true <->
   projectType a = Unknown
   /\ forall f, In f (files a) ->
        forall folder nm,
          nm = ("index.html" : jsstring) \/ nm = ("package.json" : jsstring) ->
          ~ In Js.slash folder -> folder <> [] ->
          path f <> folder ++ Js.slash :: nm)
  /\ (hasRootFile "index.html" (files a) || hasRootFile "package.json" (files a)
      = true -> App.rejects a = false).
Proof.
  intros a.
  assert (Hroot : projectType a = Unknown ->
                  hasRootFile "index.html" (files a) = false
                  /\ hasRootFile "package.json" (files a) = false).
  { intros E. unfold a in E. rewrite analyzeZip_projectType in E. fold a in E.
    rewrite <- classify_firstMatch in E. now apply classify_unknown in E. }
  split.
  - unfold App.rejects. destruct (bool_decide (projectType a = Unknown)) eqn:E.
    + apply bool_decide_eq_true in E. destruct (Hroot E) as [Hi Hp].
      rewrite andb_true_iff, !negb_true_iff. split.
      * intros [H1 H2]. split; [assumption|]. intros f Hf folder nm Hnm Hs Hne Hpath.
        assert (Hu : App.underOneFolder nm (path f) = true)
          by (apply underOneFolder_iff; eauto).
        destruct Hnm as [-> | ->].
        -- rewrite <- not_true_iff_false in H1. apply H1. apply existsb_exists.
           exists f. split; [assumption|]. rewrite Hu. apply orb_true_r.
        -- rewrite <- not_true_iff_false in H2. apply H2. apply existsb_exists.
           exists f. split; [assumption|]. rewrite Hu. apply orb_true_r.
      * intros [_ H].
        assert (Hno : forall nm,
                   nm = ("index.html" : jsstring) \/ nm = ("package.json" : jsstring) ->
                   hasRootFile nm (files a) = false ->
                   existsb (fun f => Js.strictEq (path f) nm
                                     || App.underOneFolder nm (path f)) (files a)
                   = false).
        { intros nm Hnm Hr. apply not_true_iff_false. intros Hex.
          apply existsb_exists in Hex. destruct Hex as (f & Hf & Hor).
          apply orb_true_iff in Hor. destruct Hor as [Heq | Hu].
          - apply not_true_iff_false in Hr. apply Hr. apply existsb_exists.
            now exists f.
          - apply underOneFolder_iff in Hu. destruct Hu as (fo & Hne & Hs & Hp').
            now apply (H f Hf fo nm). }
        split; apply Hno; auto.
    + apply bool_decide_eq_false in E. split; [discriminate | tauto].
  - intros E. unfold App.rejects.
    destruct (bool_decide (projectType a = Unknown)) eqn:Eu; [|reflexivity].
    apply bool_decide_eq_true in Eu. destruct (Hroot Eu) as [Hi Hp].
    rewrite Hi, Hp in E. discriminate.
Qed.

(** ** The fix, continued *)

Lemma matchAll_cons_nomatch {A : Type} (m : jsstring -> option A) len c s :
  m (c :: s) = None -> Re.matchAll m len (c :: s) = Re.matchAll m len s.
Proof.
  intros H. unfold Re.matchAll. now rewrite (scan_nomatch m len c s H).
Qed.

Lemma test_matchAll {A : Type} (m : jsstring -> option A) len s :
  m [] = None ->
  Re.test m s = true <-> Re.matchAll m len s <> [].
Proof.
  intros Hnil. induction s as [|c s IH].
  - cbn. rewrite Hnil. split; [discriminate | intros H; now contradiction H].
  - cbn [Re.test]. destruct (m (c :: s)) as [a|] eqn:E.
    + split; [|reflexivity]. intros _. unfold Re.matchAll. cbn [Re.scan].
      rewrite E. discriminate.
    + rewrite (matchAll_cons_nomatch m len c s E). exact IH.
Qed.

Lemma fixRegex_nil : Re.fixRegex [] = None.
Proof. reflexivity. Qed.

Lemma rewriteRef_length s m :
  Re.fixRegex s = Some m -> length (rewriteRef m) = S (length (Re.matched m)).
Proof.
  intros H. destruct (fixRegex_shape s m H) as (a & q1 & p & q2 & rest & _ & -> & _).
  destruct (rewriteRef_shape (Re.mkAbsRef (a ++ "="%char :: q1 :: Js.slash :: p ++ [q2]) a p))
    as (q & _ & ->).
  cbn [Re.attr Re.refPath Re.matched]. rewrite !length_app. cbn [length].
  rewrite !length_app. cbn [length]. lia.
Qed.

Lemma fixed_length n : forall s,
  length s <= n ->
  length (fixed s) = length s + length (Re.matchAll Re.fixRegex fixLen s).
Proof.
  induction n as [|n IH]; intros s Hn.
  - destruct s; [reflexivity | cbn in Hn; lia].
  - destruct s as [|c s]; [reflexivity|].
    destruct (Re.fixRegex (c :: s)) as [m|] eqn:E.
    + destruct (fixed_match _ m E) as (rest & Hs & -> & ->).
      pose proof (rewriteRef_length _ m E) as Hl.
      assert (Hm : Re.matched m <> []).
      { destruct (fixRegex_shape _ m E) as (a & q1 & p & q2 & r & _ & -> & _).
        cbn [Re.matched]. now destruct a. }
      apply (f_equal (@length ascii)) in Hs. rewrite length_app in Hs.
      rewrite length_app, Hl, IH.
      * rewrite Hs. cbn [length]. lia.
      * destruct (Re.matched m); [contradiction|]. cbn [length] in *. lia.
    + destruct (fixed_nomatch c s E) as [-> ->]. cbn [length].
      rewrite IH; [lia | cbn in Hn; lia].
Qed.

Lemma fixContent_matches content :
  fixContent content
  = match Re.matchAll Re.fixRegex fixLen content with
    | [] => (content, false)
    | _ :: _ => (fixed content, true)
    end.
Proof.
  unfold fixContent.
  pose proof (test_matchAll Re.fixRegex fixLen content fixRegex_nil) as H.
  destruct (Re.test Re.fixRegex content).
  - destruct (Re.matchAll Re.fixRegex fixLen content); [|reflexivity].
    exfalso. now apply (proj1 H).
  - destruct (Re.matchAll Re.fixRegex fixLen content) as [|m l]; [reflexivity|].
    assert (E : false = true) by (apply H; discriminate). discriminate.
Qed.

(** Each reference the fix rewrites makes the content one character longer:
    a file the fix reads and that has [k] root-absolute references, with
    [k] positive, comes back with the rewritten content and with the length
    of the old content plus [k] as its size; any other file comes back as
    it is. *)
Theorem fix_adds_one_character_per_reference (f : ManifestFile) :
  let content := asString (entry f) in
  let refs := Re.matchAll Re.fixRegex fixLen content in
  length (fixed content) = length content + length refs
  /\ fixFile f
     = if readByFix f && negb (bool_decide (refs = []))
       then mkFile (path f) (Z.of_nat (length content + length refs))
                   (newEntry (fixed content))
       else f.
Proof.
  intros content refs.
  assert (Hlen : length (fixed content) = length content + length refs)
    by (apply (fixed_length (length content)); lia).
  split; [exact Hlen|].
  unfold fixFile, readByFix.
  destruct (hasFixableExtension (path f)); [|reflexivity]. cbn [negb andb].
  destruct (size f >? 1024 * 1024)%Z; [reflexivity|]. cbn [negb].
  fold content. rewrite fixContent_matches. fold refs.
  destruct refs as [|m l] eqn:E; [reflexivity|].
  rewrite bool_decide_eq_false_2 by discriminate. cbn [negb].
  now rewrite Hlen.
Qed.

Lemma attr_exclusive s :
  Js.startsWithCI s "href" = true -> Js.startsWithCI s "src" = false.
Proof.
  destruct s as [|c s]; [discriminate|]. cbn [Js.startsWithCI list_ascii_of_string].
  intros H. apply andb_true_iff in H. destruct H as [H _].
  unfold Js.eqCI in *. apply Ascii.eqb_eq in H.
  apply andb_false_iff. left. apply Ascii.eqb_neq. rewrite <- H.
  vm_compute. discriminate.
Qed.

Lemma absolutePathRegex_fixRegex s : Re.absolutePathRegex s = Re.fixRegex s.
Proof.
  unfold Re.absolutePathRegex, Re.fixRegex. cbn [Re.altThen].
  destruct (Js.startsWithCI s "href") eqn:Eh.
  - rewrite (attr_exclusive s Eh). now destruct (Re.absRefTail _ _).
  - destruct (Js.startsWithCI s "src"); [|reflexivity].
    now destruct (Re.absRefTail _ _).
Qed.

Lemma test_ext {A : Type} (m m' : jsstring -> option A) s :
  (forall t, m t = m' t) -> Re.test m s = Re.test m' s.
Proof.
  intros H. induction s as [|c s IH]; cbn [Re.test]; rewrite H;
    destruct (m' _); try reflexivity. exact IH.
Qed.

Lemma startsWith_CI s t : Js.startsWith s t = true -> Js.startsWithCI s t = true.
Proof.
  revert s. induction t as [|c t IH]; intros s; [reflexivity|].
  destruct s as [|d s]; [discriminate|]. cbn [Js.startsWith Js.startsWithCI].
  intros H. apply andb_true_iff in H. destruct H as [H1 H2].
  apply Ascii.eqb_eq in H1. subst d. rewrite IH by assumption.
  unfold Js.eqCI. now rewrite Ascii.eqb_refl.
Qed.

Lemma flagged_is_read f : flaggedAbsolute f = true -> readByFix f = true.
Proof.
  unfold flaggedAbsolute, readByFix, hasFixableExtension, Js.endsWith.
  intros H. apply andb_true_iff in H. destruct H as [H _].
  apply andb_true_iff in H. destruct H as [Hext Hsize].
  apply andb_true_iff. split.
  - apply orb_true_iff in Hext. destruct Hext as [Hext | Hext].
    + apply orb_true_iff in Hext. destruct Hext as [Hext | Hext];
        apply startsWith_CI in Hext; rewrite Hext; [reflexivity|].
      apply orb_true_iff. left. apply orb_true_r.
    + apply startsWith_CI in Hext. rewrite Hext. apply orb_true_r.
  - apply negb_true_iff. apply Z.ltb_lt in Hsize. rewrite Z.gtb_ltb.
    apply Z.ltb_ge. lia.
Qed.

Lemma fixFile_not_flagged f :
  (readByFix f = true -> stableRefs (asString (entry f)) = true) ->
  flaggedAbsolute (fixFile f) = false.
Proof.
  intros Hstable.
  destruct (fix_adds_one_character_per_reference f) as [_ ->].
  destruct (readByFix f) eqn:Er; cbn [andb].
  - destruct (bool_decide (Re.matchAll Re.fixRegex fixLen (asString (entry f)) = []))
      eqn:Em; cbn [negb].
    + apply bool_decide_eq_true in Em. unfold flaggedAbsolute.
      rewrite (test_ext _ _ _ absolutePathRegex_fixRegex).
      assert (Ht : Re.test Re.fixRegex (asString (entry f)) = false).
      { apply not_true_iff_false. intros Ht.
        now apply (test_matchAll Re.fixRegex fixLen _ fixRegex_nil) in Ht. }
      rewrite Ht. apply andb_false_r.
    + unfold flaggedAbsolute. cbn [entry newEntry asString].
      rewrite (test_ext _ _ _ absolutePathRegex_fixRegex).
      rewrite (fixed_has_no_match (length (asString (entry f)))); [|lia|auto].
      apply andb_false_r.
  - apply not_true_iff_false. intros H. apply flagged_is_read in H. congruence.
Qed.

(** When the references of the files are stable under the fix, no file of
    the fixed analysis meets the absolute-path test of the analysis any
    more, so the warning that the fix takes away is no longer due.  The
    warning is taken away in every case. *)
Theorem fix_clears_the_absolute_path_test (a : ZipAnalysis)
    (Hstable : Forall (fun f => readByFix f = true ->
                                stableRefs (asString (entry f)) = true)
                      (files a)) :
  existsb flaggedAbsolute (files (fixAbsolutePaths a)) = false
  /\ (forall b, ~ In absolutePathsWarning (warnings (fixAbsolutePaths b))).
Proof.
  split.
  - unfold fixAbsolutePaths. cbn [files]. apply not_true_iff_false. intros H.
    apply existsb_exists in H. destruct H as (g & Hg & Hflag).
    apply in_map_iff in Hg. destruct Hg as (f & <- & Hf).
    rewrite List.Forall_forall in Hstable.
    rewrite (fixFile_not_flagged f (Hstable f Hf)) in Hflag. discriminate.
  - intros b H. unfold fixAbsolutePaths in H. cbn [warnings] in H.
    apply list_elem_of_In, list_elem_of_filter in H. destruct H as [H _].
    apply Is_true_true in H. vm_compute in H. discriminate.
Qed.

Lemma fix_clears_the_absolute_path_test_witness :
  existsb flaggedAbsolute (files (analyzeZip onePageArchive)) = true
  /\ existsb flaggedAbsolute (files (fixAbsolutePaths (analyzeZip onePageArchive)))
     = false.
Proof.
  split; [vm_compute; reflexivity|].
  apply (fix_clears_the_absolute_path_test (analyzeZip onePageArchive)).
  apply List.Forall_forall. intros f Hf. vm_compute in Hf.
  destruct Hf as [<- | []]. intros _. vm_compute. reflexivity.
Defined.

(** Without stable references the warning goes although a root-absolute
    reference is left. *)
Lemma unstable_page_stays_flagged :
  existsb flaggedAbsolute (files (fixAbsolutePaths (analyzeZip unstableArchive)))
  = true
  /\ ~ In absolutePathsWarning
          (warnings (fixAbsolutePaths (analyzeZip unstableArchive))).
Proof. split; [vm_compute; reflexivity | vm_compute; intuition discriminate]. Qed.

(** ** [generateAutoFixes] *)

Lemma fallbackStepOf_head t repoName w l :
  patchPath w = workflowPath ->
  fallbackStepOf t repoName (w :: l)
  = (if isSpa t
     then mkPatch (patchPath w)
            (replaceString (patchContent w) uploadStep
               (fallbackStep ("cp " ++ outputDirOf t repoName ++ "/index.html "
                              ++ outputDirOf t repoName ++ "/404.html || true")))
            (description w)
     else w) :: l.
Proof.
  intros Hw. unfold fallbackStepOf.
  assert (Hfind : list_find (fun p => patchPath p = workflowPath) (w :: l)
                  = Some (0, w)).
  { apply list_find_Some. split; [reflexivity|]. split; [assumption|].
    intros j y Hj Hlt. lia. }
  rewrite Hfind. destruct t; reflexivity.
Qed.

Lemma fallbackStepOf_none t repoName l :
  Forall (fun p => patchPath p <> workflowPath) l ->
  fallbackStepOf t repoName l = l.
Proof.
  intros H. unfold fallbackStepOf.
  destruct (list_find _ l) as [[i p]|] eqn:E; [|reflexivity]. exfalso.
  apply list_find_Some in E. destruct E as (Hi & Hp & _).
  rewrite Forall_lookup in H. now apply (H i p).
Qed.

Lemma workflowStep_cases t repoName :
  (t = StaticWebsite \/ t = Unknown) /\ workflowStep t repoName = []
  \/ t <> StaticWebsite /\ t <> Unknown
     /\ workflowStep t repoName
        = [ mkPatch workflowPath
              (workflowContent "npm run build" (outputDirOf t repoName))
              ("Create GitHub Actions workflow for " ++ typeName t) ].
Proof.
  destruct t; cbn; first [left; split; [tauto | reflexivity]
                         | right; split; [discriminate|]; split;
                           [discriminate | reflexivity]].
Qed.

Lemma viteStep_paths t fs repoName p :
  In p (viteStep t fs repoName) ->
  t = Vite /\ isConfigPath (patchPath p) = true
  /\ (patchPath p = "vite.config.js"
      \/ exists f, In f fs /\ patchPath p = path f).
Proof.
  unfold viteStep. destruct (bool_decide (t = Vite)) eqn:Et; [|intros []].
  apply bool_decide_eq_true in Et.
  destruct (find _ fs) as [f|] eqn:Ef.
  - apply find_some in Ef. destruct Ef as [Hin Hend]. cbv zeta.
    destruct (negb _ && _); [|intros []]. intros [<- | []]. cbn [patchPath].
    split; [assumption|]. split; [|right; eauto].
    unfold isConfigPath. apply orb_true_iff in Hend. destruct Hend as [-> | ->];
      [reflexivity|]. now rewrite orb_true_r.
  - intros [<- | []]. split; [assumption|]. split; [reflexivity | now left].
Qed.

Lemma nextStep_paths t fs p :
  In p (nextStep t fs) ->
  t = NextJs /\ isConfigPath (patchPath p) = true
  /\ exists f, In f fs /\ patchPath p = path f.
Proof.
  unfold nextStep. destruct (bool_decide (t = NextJs)) eqn:Et; [|intros []].
  apply bool_decide_eq_true in Et.
  destruct (find _ fs) as [f|] eqn:Ef; [|intros []].
  apply find_some in Ef. destruct Ef as [Hin Hend]. cbv zeta.
  destruct (_ && _); [|intros []]. intros [<- | []]. cbn [patchPath].
  split; [assumption|]. split; [|eauto].
  unfold isConfigPath. apply orb_true_iff in Hend. destruct Hend as [Hend | ->];
    [|apply orb_true_r].
  apply orb_true_iff in Hend. destruct Hend as [-> | ->];
    rewrite ?orb_true_r; reflexivity.
Qed.

Lemma step_lengths t fs repoName :
  length (viteStep t fs repoName ++ nextStep t fs) <= 1.
Proof.
  unfold viteStep, nextStep.
  destruct (bool_decide (t = Vite)) eqn:Ev;
    destruct (bool_decide (t = NextJs)) eqn:En.
  - apply bool_decide_eq_true in Ev, En. congruence.
  - rewrite app_nil_r. destruct (find _ fs); cbv zeta;
      [destruct (negb _ && _)|]; cbn [length]; lia.
  - cbn [app]. destruct (find _ fs); cbv zeta;
      [destruct (_ && _)|]; cbn [length]; lia.
  - cbn. lia.
Qed.

Lemma isConfigPath_not_workflow p :
  isConfigPath p = true -> p <> workflowPath /\ p <> "package.json".
Proof.
  intros H. split; intros ->; vm_compute in H; discriminate.
Qed.

Lemma generateAutoFixes_shape analysis repoName :
  let t := projectType analysis in
  let others := viteStep t (files analysis) repoName
                ++ nextStep t (files analysis) in
  generateAutoFixes analysis repoName
  = match workflowStep t repoName with
    | w :: _ =>
        (if isSpa t
         then mkPatch workflowPath
                (replaceString (patchContent w) uploadStep
                   (fallbackStep ("cp " ++ outputDirOf t repoName
                                  ++ "/index.html " ++ outputDirOf t repoName
                                  ++ "/404.html || true")))
                (description w)
         else w) :: others
    | [] => others
    end.
Proof.
  intros t others. unfold generateAutoFixes. fold t. fold others.
  destruct (workflowStep_cases t repoName) as [[Ht ->] | (_ & _ & ->)].
  - cbn [app]. apply fallbackStepOf_none. apply List.Forall_forall.
    intros p Hp. unfold others in Hp. apply in_app_iff in Hp.
    destruct Hp as [Hp | Hp].
    + apply viteStep_paths in Hp. destruct Hp as (_ & Hp & _).
      now apply isConfigPath_not_workflow.
    + apply nextStep_paths in Hp. destruct Hp as (_ & Hp & _).
      now apply isConfigPath_not_workflow.
  - cbn [app]. now rewrite fallbackStepOf_head.
Qed.

Lemma generateAutoFixes_facts (analysis : ZipAnalysis)
    (repoName : jsstring) :
  let ps := generateAutoFixes analysis repoName in
  NoDup (map patchPath ps) /\ length ps <= 2
  /\ (forall p, In p ps ->
        (patchPath p = workflowPath \/ isConfigPath (patchPath p) = true)
        /\ patchPath p <> "package.json")
  /\ (ps = [] <->
      projectType analysis = StaticWebsite \/ projectType analysis = Unknown)
  /\ (projectType analysis <> StaticWebsite ->
      projectType analysis <> Unknown ->
      exists w, head ps = Some w /\ patchPath w = workflowPath).
Proof.
  intros ps. subst ps. rewrite generateAutoFixes_shape. cbv zeta.
  set (t := projectType analysis).
  set (others := viteStep t (files analysis) repoName ++ nextStep t (files analysis)).
  assert (Hothers : forall p, In p others -> isConfigPath (patchPath p) = true).
  { intros p Hp. unfold others in Hp. apply in_app_iff in Hp.
    destruct Hp as [Hp | Hp];
      [apply viteStep_paths in Hp | apply nextStep_paths in Hp]; tauto. }
  assert (Hlen : length others <= 1) by apply step_lengths.
  assert (Hnd : NoDup (map patchPath others)).
  { destruct others as [|p [|q l]]; [constructor | | cbn in Hlen; lia].
    apply NoDup_singleton. }
  destruct (workflowStep_cases t repoName) as [[Ht ->] | (Hs & Hu & ->)].
  - assert (Hnil : others = []).
    { unfold others, viteStep, nextStep. destruct Ht as [-> | ->]; reflexivity. }
    rewrite Hnil. cbn. split; [constructor|]. split; [lia|].
    split; [intros p []|]. split; [tauto|]. intros H1 H2.
    destruct Ht; contradiction.
  - set (w := if isSpa t then _ else _).
    assert (Hw : patchPath w = workflowPath) by (unfold w; destruct (isSpa t); reflexivity).
    split; [|split; [|split; [|split]]].
    + cbn [map]. apply NoDup_cons. split; [|assumption]. rewrite Hw.
      intros Hin. apply list_elem_of_In, in_map_iff in Hin.
      destruct Hin as (p & Hp & Hin). apply Hothers in Hin.
      apply isConfigPath_not_workflow in Hin. tauto.
    + cbn [length]. lia.
    + intros p [<- | Hp].
      * rewrite Hw. split; [now left | discriminate].
      * apply Hothers in Hp. split; [now right|].
        now apply isConfigPath_not_workflow in Hp.
    + split; [discriminate|]. intros [H | H]; contradiction.
    + intros _ _. exists w. split; [reflexivity | assumption].
Qed.

(** The patches have pairwise distinct paths and are at most two: the
    workflow file, and one configuration file of a Vite or Next.js project.
    A static site and a project of unknown type get none, every other type
    gets the workflow, and [package.json] is never patched: the steps that
    read it push nothing. *)
Theorem generated_patches_are_distinct (analysis : ZipAnalysis)
    (repoName : jsstring) :
  let ps := generateAutoFixes analysis repoName in
  NoDup (map patchPath ps) /\ length ps <= 2
  /\ (forall p, In p ps ->
        (patchPath p = workflowPath \/ isConfigPath (patchPath p) = true)
        /\ patchPath p <> "package.json")
  /\ (ps = [] <->
      projectType analysis = StaticWebsite \/ projectType analysis = Unknown)
  /\ (projectType analysis <> StaticWebsite ->
      projectType analysis <> Unknown ->
      exists w, head ps = Some w /\ patchPath w = workflowPath).
Proof. apply generateAutoFixes_facts. Qed.

(** *** Replacing the first occurrence of a string *)

Lemma startsWith_app_long X Y t :
  length t <= length X -> Js.startsWith (X ++ Y) t = Js.startsWith X t.
Proof.
  revert X. induction t as [|c t IH]; intros X Hl; [reflexivity|].
  destruct X as [|d X]; [cbn in Hl; lia|]. cbn [app Js.startsWith].
  rewrite IH; [reflexivity | cbn in Hl; lia].
Qed.

Lemma startsWith_drop s t :
  Js.startsWith s t = true -> s = t ++ drop (length t) s.
Proof.
  intros H. apply startsWith_app in H. destruct H as (r & ->).
  now rewrite drop_app_length.
Qed.

Lemma splitAtFirst_Some s t : forall before after,
  splitAtFirst s t = Some (before, after) -> s = before ++ t ++ after.
Proof.
  induction s as [|c s IH]; intros before after; cbn [splitAtFirst].
  - destruct (Js.startsWith [] t) eqn:E; [|discriminate].
    intros [= <- <-]. now apply startsWith_drop.
  - destruct (Js.startsWith (c :: s) t) eqn:E.
    + intros [= <- <-]. now apply startsWith_drop.
    + destruct (splitAtFirst s t) as [[b a]|] eqn:Es; [|discriminate].
      intros [= <- <-]. cbn [app]. f_equal. now apply IH.
Qed.

Lemma splitAtFirst_includes s t :
  Js.includes s t = true <-> splitAtFirst s t <> None.
Proof.
  induction s as [|c s IH]; cbn [Js.includes splitAtFirst].
  - destruct (Js.startsWith [] t); cbn; split; congruence.
  - destruct (Js.startsWith (c :: s) t); cbn [orb]; [split; congruence|].
    rewrite IH. destruct (splitAtFirst s t) as [[b a]|]; split; congruence.
Qed.

Lemma forallb_map_seq (f : nat -> bool) n : forall k,
  forallb f (seq (S k) n) = forallb (fun i => f (S i)) (seq k n).
Proof.
  induction n as [|n IH]; intros k; [reflexivity|]. cbn [seq forallb].
  now rewrite IH.
Qed.

Lemma firstAt_cons c h t :
  firstAt (c :: h) t = true ->
  Js.startsWith ((c :: h) ++ t) t = false /\ firstAt h t = true.
Proof.
  unfold firstAt. cbn [length seq forallb]. intros H.
  apply andb_true_iff in H. destruct H as [H0 H]. split.
  - now apply negb_true_iff in H0.
  - rewrite forallb_map_seq in H. exact H.
Qed.

Lemma splitAtFirst_firstAt h t rest :
  firstAt h t = true -> splitAtFirst (h ++ t ++ rest) t = Some (h, rest).
Proof.
  induction h as [|c h IH]; intros H.
  - cbn [app]. destruct (t ++ rest) as [|d u] eqn:E; cbn [splitAtFirst];
      rewrite <- E, startsWith_refl_app, drop_app_length; reflexivity.
  - apply firstAt_cons in H. destruct H as [H0 H]. cbn [app splitAtFirst].
    change (c :: h ++ t ++ rest) with ((c :: h) ++ t ++ rest).
    rewrite app_assoc, startsWith_app_long, H0 by (rewrite length_app; lia).
    now rewrite IH.
Qed.

Lemma getSubstitution_plain matched before after template :
  plainText template = true ->
  getSubstitution matched before after template = template.
Proof.
  induction template as [|c rest IH]; [reflexivity|]. cbn [plainText forallb].
  intros H. apply andb_true_iff in H. destruct H as [Hc H].
  apply negb_true_iff in Hc. cbn [getSubstitution]. rewrite Hc.
  now rewrite (IH H).
Qed.

Lemma replaceString_first h t rest replacement :
  firstAt h t = true -> plainText replacement = true ->
  replaceString (h ++ t ++ rest) t replacement = h ++ replacement ++ rest.
Proof.
  intros Hf Hp. unfold replaceString. rewrite (splitAtFirst_firstAt h t rest Hf).
  now rewrite getSubstitution_plain.
Qed.

Lemma replaceString_split s t replacement :
  plainText replacement = true ->
  replaceString s t replacement
  = match splitAtFirst s t with
    | Some (before, after) => before ++ replacement ++ after
    | None => s
    end.
Proof.
  intros Hp. unfold replaceString.
  destruct (splitAtFirst s t) as [[b a]|]; [|reflexivity].
  now rewrite getSubstitution_plain.
Qed.

Lemma plainText_app s t : plainText (s ++ t) = plainText s && plainText t.
Proof. apply forallb_app. Qed.

Lemma includes_app_r x y t : Js.includes y t = true -> Js.includes (x ++ y) t = true.
Proof.
  intros H. induction x as [|c x IH]; [exact H|]. cbn [app Js.includes].
  rewrite IH. apply orb_true_r.
Qed.

Lemma includes_app_mid x t y : Js.includes (x ++ t ++ y) t = true.
Proof.
  apply includes_app_r. destruct (t ++ y) eqn:E; cbn [Js.includes];
    rewrite <- E, startsWith_refl_app; reflexivity.
Qed.

Lemma includes_iff s t :
  Js.includes s t = true <-> exists a b, s = a ++ t ++ b.
Proof.
  split.
  - intros H. apply splitAtFirst_includes in H.
    destruct (splitAtFirst s t) as [[a b]|] eqn:E; [|contradiction].
    exists a, b. now apply splitAtFirst_Some.
  - intros (a & b & ->). apply includes_app_mid.
Qed.

Lemma includes_app_l x y t : Js.includes x t = true -> Js.includes (x ++ y) t = true.
Proof.
  intros H. apply includes_iff in H. destruct H as (a & b & ->).
  rewrite <- !app_assoc. apply includes_app_mid.
Qed.

Ltac find_text :=
  rewrite <- ?app_assoc;
  repeat first [ apply includes_app_l; reflexivity | apply includes_app_r ].

(** *** The workflow *)

Lemma workflowContent_split outputDir :
  workflowContent "npm run build" outputDir
  = workflowHead "npm run build" ++ uploadStep ++ workflowTail outputDir.
Proof. reflexivity. Qed.

Lemma workflowHead_first : firstAt (workflowHead "npm run build") uploadStep = true.
Proof. vm_compute. reflexivity. Qed.

Lemma outputDirOf_plain t repoName :
  plainText repoName = true -> plainText (outputDirOf t repoName) = true.
Proof.
  intros H. destruct t; try reflexivity. cbn [outputDirOf].
  rewrite plainText_app, H. reflexivity.
Qed.

(** Every project that is built gets a workflow that uploads the build
    directory of its type; for a single-page application a step that copies
    the page to the 404 page of that same directory stands right before the
    upload step, and for the other types the workflow is the template.  The
    repository name is taken to hold no dollar sign, which [replace] would
    read as a pattern. *)
Theorem workflow_uploads_the_build_directory (analysis : ZipAnalysis)
    (repoName : jsstring)
    (Hbuilt : projectType analysis <> StaticWebsite
              /\ projectType analysis <> Unknown)
    (Hplain : plainText repoName = true) :
  let t := projectType analysis in
  let dir := outputDirOf t repoName in
  workflowContent "npm run build" dir
  = workflowHead "npm run build" ++ uploadStep ++ workflowTail dir
  /\ Js.startsWith (workflowTail dir)
       ([newline] ++ "        uses: actions/upload-pages-artifact@v3"
        ++ [newline] ++ "        with:" ++ [newline]
        ++ "          path: ./" ++ dir ++ [newline]) = true
  /\ exists w,
       head (generateAutoFixes analysis repoName) = Some w
       /\ patchPath w = workflowPath
       /\ patchContent w
          = workflowHead "npm run build"
            ++ (if isSpa t
                then "      - name: Create 404 fallback" ++ [newline]
                     ++ "        run: cp " ++ dir ++ "/index.html " ++ dir
                     ++ "/404.html || true" ++ [newline]
                else [])
            ++ uploadStep ++ workflowTail dir.
Proof.
  intros t dir. split; [reflexivity|]. split.
  { apply startsWith_app. eexists. unfold workflowTail. cbn [join].
    rewrite <- !app_assoc. reflexivity. }
  rewrite generateAutoFixes_shape. cbv zeta. fold t.
  destruct (workflowStep_cases t repoName) as [[Ht _] | (_ & _ & ->)];
    [destruct Hbuilt; destruct Ht; contradiction|].
  fold dir. eexists. split; [reflexivity|]. split; [now destruct (isSpa t)|].
  destruct (isSpa t); cbn [patchContent]; [|reflexivity].
  rewrite workflowContent_split.
  rewrite replaceString_first; [| exact workflowHead_first |].
  - unfold fallbackStep. cbn [join]. unfold uploadStep.
    rewrite <- !app_assoc. reflexivity.
  - pose proof (outputDirOf_plain t repoName Hplain) as Hd. fold dir in Hd.
    unfold fallbackStep. cbn [join]. rewrite !plainText_app, Hd. reflexivity.
Qed.

Lemma workflow_uploads_the_build_directory_witness :
  exists w,
    head (generateAutoFixes viteAnalysis "site") = Some w
    /\ Js.includes (patchContent w) "cp dist/index.html dist/404.html || true"
       = true.
Proof.
  destruct (workflow_uploads_the_build_directory viteAnalysis "site")
    as (_ & _ & w & Hw & _ & _).
  - split; discriminate.
  - reflexivity.
  - exists w. split; [exact Hw|].
    vm_compute in Hw. injection Hw as <-. vm_compute. reflexivity.
Defined.

(** *** The configuration fixes *)

Lemma others_of_head analysis repoName :
  projectType analysis <> StaticWebsite -> projectType analysis <> Unknown ->
  tail (generateAutoFixes analysis repoName)
  = viteStep (projectType analysis) (files analysis) repoName
    ++ nextStep (projectType analysis) (files analysis).
Proof.
  intros Hs Hu. rewrite generateAutoFixes_shape. cbv zeta.
  destruct (workflowStep_cases (projectType analysis) repoName)
    as [[Ht _] | (_ & _ & ->)]; [destruct Ht; contradiction | reflexivity].
Qed.

(** For a Vite project the patches behind the workflow are: a new
    [vite.config.js] when no path ends with the name of a Vite config;
    nothing when the first such file already has the text [base:] or lacks
    the text [defineConfig({]; and otherwise one patch for that file, in
    which the line of the base path follows the first [defineConfig({] and
    the rest of the text is unchanged.  The patched text holds [base:], so
    the fix is not made a second time.  The repository name is taken to
    hold no dollar sign. *)
Theorem vite_base_path_is_set_once (analysis : ZipAnalysis)
    (repoName : jsstring)
    (Htype : projectType analysis = Vite)
    (Hplain : plainText repoName = true) :
  let base : jsstring := "  base: " ++ quoted ("/" ++ repoName ++ "/") ++ "," in
  tail (generateAutoFixes analysis repoName)
  = match find (fun f => Js.endsWith (path f) "vite.config.js"
                         || Js.endsWith (path f) "vite.config.ts")
               (files analysis) with
    | None =>
        [ mkPatch "vite.config.js" (minimalViteConfig repoName)
                  "Create vite.config.js with correct base path" ]
    | Some viteConfig =>
        let content := asString (entry viteConfig) in
        match splitAtFirst content "defineConfig({" with
        | Some (before, after) =>
            if Js.includes content "base:" then []
            else [ mkPatch (path viteConfig)
                     (before ++ "defineConfig({" ++ [newline] ++ base ++ after)
                     ("Update vite.config to set base path to "
                      ++ quoted ("/" ++ repoName ++ "/")) ]
        | None => []
        end
    end
  /\ (forall before after,
        Js.includes (before ++ "defineConfig({" ++ [newline] ++ base ++ after)
                    "base:" = true)
  /\ Js.includes (minimalViteConfig repoName) "base:" = true.
Proof.
  intros base. split; [|split].
  - rewrite others_of_head by (rewrite Htype; discriminate).
    rewrite Htype. unfold nextStep.
    rewrite (bool_decide_eq_false_2 (Vite = NextJs)) by discriminate.
    rewrite app_nil_r. unfold viteStep.
    rewrite (bool_decide_eq_true_2 (Vite = Vite)) by reflexivity.
    destruct (find _ (files analysis)) as [viteConfig|]; [|reflexivity].
    cbv zeta.
    pose proof (splitAtFirst_includes (asString (entry viteConfig)) "defineConfig({")
      as Hinc.
    rewrite replaceString_split.
    + destruct (splitAtFirst (asString (entry viteConfig)) "defineConfig({")
        as [[before after]|].
      * assert (E : Js.includes (asString (entry viteConfig)) "defineConfig({" = true)
          by (apply Hinc; discriminate).
        rewrite E, andb_true_r.
        destruct (Js.includes (asString (entry viteConfig)) "base:");
          cbn [negb]; [reflexivity|].
        cbn [join]. unfold base. rewrite <- !app_assoc. reflexivity.
      * assert (E : Js.includes (asString (entry viteConfig)) "defineConfig({" = false).
        { apply not_true_iff_false. intros E. now apply Hinc in E. }
        rewrite E, andb_false_r. reflexivity.
    + cbn [join]. unfold quoted. rewrite !plainText_app, Hplain. reflexivity.
  - intros before after. unfold base. find_text.
  - unfold minimalViteConfig. cbn [join]. find_text.
Qed.

Lemma vite_base_path_is_set_once_witness :
  map patchPath (tail (generateAutoFixes viteAnalysis "site"))
  = ["vite.config.ts" : jsstring]
  /\ map (fun p => Js.includes (patchContent p) ("base: " ++ quoted "/site/" ++ ","))
         (tail (generateAutoFixes viteAnalysis "site"))
     = [true].
Proof.
  destruct (vite_base_path_is_set_once viteAnalysis "site") as (H & _ & _).
  - reflexivity.
  - reflexivity.
  - rewrite H. split; vm_compute; reflexivity.
Defined.

(** For a Next.js project the only patch behind the workflow is for the
    first file whose path ends with the name of a Next.js config, and only
    when its text holds neither form of the export setting and holds
    [nextConfig = {]: the setting then follows the first [nextConfig = {]
    and the rest of the text is unchanged.  The patched text holds the
    setting, so the fix is not made a second time. *)
Theorem next_export_is_set_once (analysis : ZipAnalysis) (repoName : jsstring)
    (Htype : projectType analysis = NextJs) :
  tail (generateAutoFixes analysis repoName)
  = match find (fun f => Js.endsWith (path f) "next.config.js"
                         || Js.endsWith (path f) "next.config.mjs"
                         || Js.endsWith (path f) "next.config.ts")
               (files analysis) with
    | None => []
    | Some nextConfig =>
        let content := asString (entry nextConfig) in
        match splitAtFirst content "nextConfig = {" with
        | Some (before, after) =>
            if Js.includes content "output: 'export'"
               || Js.includes content ("output: " ++ quoted "export")
            then []
            else [ mkPatch (path nextConfig)
                     (before ++ "nextConfig = {" ++ [newline]
                      ++ "  output: 'export'," ++ after)
                     "Update next.config to enable static export" ]
        | None => []
        end
    end
  /\ (forall before after,
        Js.includes (before ++ "nextConfig = {" ++ [newline]
                     ++ "  output: 'export'," ++ after)
                    "output: 'export'" = true).
Proof.
  split.
  - rewrite others_of_head by (rewrite Htype; discriminate).
    rewrite Htype. unfold viteStep.
    rewrite (bool_decide_eq_false_2 (NextJs = Vite)) by discriminate.
    cbn [app]. unfold nextStep.
    rewrite (bool_decide_eq_true_2 (NextJs = NextJs)) by reflexivity.
    destruct (find _ (files analysis)) as [nextConfig|]; [|reflexivity].
    cbv zeta.
    pose proof (splitAtFirst_includes (asString (entry nextConfig)) "nextConfig = {")
      as Hinc.
    rewrite replaceString_split by reflexivity.
    destruct (splitAtFirst (asString (entry nextConfig)) "nextConfig = {")
      as [[before after]|].
    + assert (E : Js.includes (asString (entry nextConfig)) "nextConfig = {" = true)
        by (apply Hinc; discriminate).
      rewrite E, andb_true_r. rewrite <- negb_orb.
      destruct (_ || _); cbn [negb]; [reflexivity|].
      cbn [join]. rewrite <- !app_assoc. reflexivity.
    + assert (E : Js.includes (asString (entry nextConfig)) "nextConfig = {" = false).
      { apply not_true_iff_false. intros E. now apply Hinc in E. }
      rewrite E, andb_false_r. reflexivity.
  - intros before after. find_text.
Qed.

Lemma next_export_is_set_once_witness :
  map patchPath (tail (generateAutoFixes nextAnalysis "site"))
  = ["next.config.js" : jsstring]
  /\ map (fun p => Js.includes (patchContent p) "output: 'export'")
         (tail (generateAutoFixes nextAnalysis "site"))
     = [true].
Proof.
  destruct (next_export_is_set_once nextAnalysis "site") as (H & _).
  - reflexivity.
  - rewrite H. split; vm_compute; reflexivity.
Defined.

(** *** From the patches to the upload list *)

Lemma manifestUploads_mode analysis u :
  In u (manifestUploads analysis) -> upMode u = "100644".
Proof.
  unfold manifestUploads. intros H. apply in_map_iff in H.
  destruct H as (f & <- & _). reflexivity.
Qed.

Lemma overlaySpec_holds_patch base ps p :
  NoDup (map patchPath ps) -> In p ps ->
  (forall u, In u base -> upMode u = "100644") ->
  In (mkUpload (patchPath p) (utf8 (patchContent p)) "100644")
     (overlaySpec base ps).
Proof.
  intros Hnd Hp Hmode.
  assert (Hfor : patchFor (patchPath p) ps = Some p)
    by (apply patchFor_distinct; [assumption | now apply list_elem_of_In]).
  unfold overlaySpec. apply in_app_iff.
  destruct (decide (patchPath p ∈ map upPath base)) as [Hin | Hout].
  - left. apply list_elem_of_In, in_map_iff in Hin. destruct Hin as (u & Hu & Hin).
    apply in_map_iff. exists u. split; [|assumption].
    unfold overlay. rewrite Hu, Hfor. now rewrite (Hmode u Hin).
  - right. apply in_map_iff. exists (patchPath p). split.
    + unfold overlay. cbn [upPath]. now rewrite Hfor.
    + apply list_elem_of_In. apply newPaths_covers; [|assumption].
      now apply list_elem_of_In.
Qed.

(** Every patch of [generateAutoFixes] reaches the upload list of the Git
    backend with the encoding of its text under its path, whether it
    replaces a file of the manifest or adds one. *)
Theorem generated_patches_reach_the_upload (analysis : ZipAnalysis)
    (repoName : jsstring) (customDomain : option jsstring)
    (Hunique : NoDup (map path (files analysis))) :
  forall p, In p (generateAutoFixes analysis repoName) ->
    In (mkUpload (patchPath p) (utf8 (patchContent p)) "100644")
       (prepareFiles analysis customDomain
                     (Some (generateAutoFixes analysis repoName))).
Proof.
  intros p Hp. rewrite prepareFiles_spec by assumption.
  unfold preparedSpec. cbn [default]. apply in_app_iff. left.
  apply overlaySpec_holds_patch; [|assumption|apply manifestUploads_mode].
  apply (generateAutoFixes_facts analysis repoName).
Qed.

Lemma generated_patches_reach_the_upload_witness :
  Forall (fun p =>
            In (mkUpload (patchPath p) (utf8 (patchContent p)) "100644")
               (prepareFiles viteAnalysis None
                             (Some (generateAutoFixes viteAnalysis "site"))))
         (generateAutoFixes viteAnalysis "site").
Proof.
  apply List.Forall_forall.
  apply (generated_patches_reach_the_upload viteAnalysis "site" None).
  compute_done.
Defined.

(** ** Requests and results of a deployment *)

Lemma Sends_nil {A : Type} R (o : Outcome A) : Sends R (([], o) : Run A).
Proof. constructor. Qed.

Lemma Sends_ret {A : Type} R (a : A) : Sends R (mret a).
Proof. constructor. Qed.

Lemma Sends_throw {A : Type} R e : Sends R (throw e : Run A).
Proof. constructor. Qed.

Lemma Sends_onStatus R s : Sends R (onStatus s).
Proof. repeat constructor. Qed.

Lemma Sends_wait R ms : Sends R (wait ms).
Proof. repeat constructor. Qed.

Lemma Sends_send {A : Type} (R : Request -> Prop) r (answer : Outcome A) :
  R r -> Sends R (send r answer).
Proof. intros H. repeat constructor. exact H. Qed.

Lemma Sends_bind {A B : Type} R (m : Run A) (k : A -> Run B) :
  Sends R m -> (forall a, snd m = Returned a -> Sends R (k a)) ->
  Sends R (m ≫= k).
Proof.
  unfold Sends. intros Hm Hk. rewrite fst_bind. apply Forall_app.
  split; [assumption|]. destruct (snd m) as [e|a]; [constructor | now apply Hk].
Qed.

Lemma Sends_tryCatch {A : Type} R (m : Run A) (h : JsError -> Run A) :
  Sends R m -> (forall e, Sends R (h e)) -> Sends R (tryCatch m h).
Proof.
  unfold Sends. intros Hm Hh. rewrite fst_tryCatch. apply Forall_app.
  split; [assumption|]. destruct (snd m); [apply Hh | constructor].
Qed.

Lemma Sends_promiseAll {A : Type} R (tasks : list (Run A)) :
  Forall (Sends R) tasks -> Sends R (promiseAll tasks).
Proof.
  unfold Sends. rewrite fst_promiseAll. induction 1 as [|t tasks Ht _ IH];
    [constructor|]. cbn [map concat]. apply Forall_app. now split.
Qed.

Lemma Sends_forEach {A : Type} R (l : list A) (body : A -> Run unit) :
  (forall x, Sends R (body x)) -> Sends R (forEach l body).
Proof.
  intros H. induction l as [|x l IH]; [constructor|].
  cbn [forEach]. apply Sends_bind; [apply H | intros _ _; exact IH].
Qed.

Lemma Sends_impl {A : Type} (R R' : Request -> Prop) (m : Run A) :
  (forall r, R r -> R' r) -> Sends R m -> Sends R' m.
Proof.
  intros H Hm. unfold Sends in *. eapply Forall_impl; [exact Hm|].
  intros [s|r|ms]; auto.
Qed.

(** Steps made of events, waits and requests that meet [R] on sight. *)
Ltac sends_step :=
  first
    [ apply Sends_ret
    | apply Sends_nil
    | apply Sends_throw
    | apply Sends_wait
    | apply Sends_onStatus
    | apply Sends_send; exact I
    | apply Sends_bind; [|intros ? _]
    | apply Sends_tryCatch; [|intros ?]
    | apply Sends_forEach; intros ?
    | match goal with
      | |- Sends _ (match ?x with _ => _ end) => destruct x
      | |- Sends _ (let '(_, _) := ?x in _) => destruct x
      | |- Sends _ (if ?b then _ else _) => destruct b
      end ].

Ltac sends := repeat sends_step.

Lemma Sends_uploadBlob R api owner repoName idx file :
  R (CreateBlob owner repoName (upContent file)) ->
  forall retries attempt,
    Sends R (uploadBlob api owner repoName idx file retries attempt).
Proof.
  intros HR. induction retries as [|retries IH]; intros attempt; cbn [uploadBlob].
  - apply Sends_ret.
  - apply Sends_tryCatch.
    + apply Sends_bind; [now apply Sends_send | intros sha _; apply Sends_ret].
    + intros err. destruct retries as [|retries']; [apply Sends_throw|].
      apply Sends_bind; [apply Sends_wait | intros _ _; apply IH].
Qed.

Lemma Ends_bind {A B : Type} (Q : B -> list Action -> Prop) (m : Run A)
    (k : A -> Run B) :
  (forall b tr tr', Q b tr' -> Q b (tr ++ tr')) ->
  (forall a, snd m = Returned a -> Ends Q (k a)) ->
  Ends Q (m ≫= k).
Proof.
  intros Hsuffix Hk b. rewrite snd_bind, fst_bind.
  destruct (snd m) as [e|a]; [discriminate|]. intros Hb.
  apply Hsuffix. now apply (Hk a).
Qed.

Lemma Ends_tryCatch {A : Type} (Q : A -> list Action -> Prop) (m : Run A) :
  Ends Q m -> Ends Q (tryCatch m reportFailure).
Proof.
  intros Hm a. rewrite tryCatch_reportFailure.
  destruct (snd m) as [e|a'] eqn:E; cbn [fst snd]; [discriminate|].
  intros [= <-]. now apply Hm.
Qed.

Lemma Ends_completion (Q : jsstring -> list Action -> Prop) url :
  Q url [Emit (completionEvent url)] ->
  Ends Q (onStatus (completionEvent url) ≫= fun _ => mret url).
Proof. intros H a [= <-]. exact H. Qed.

Lemma last_events_suffix s tr tr' :
  last (events tr') = Some s -> last (events (tr ++ tr')) = Some s.
Proof.
  rewrite events_app. intros H. destruct (events tr') as [|x l] using rev_ind;
    [discriminate|].
  now rewrite app_assoc, !last_snoc in *.
Qed.

Lemma enablePages_value api owner repoName branch :
  snd (enablePages api owner repoName branch)
  = Returned (pagesUrlOf api owner repoName).
Proof.
  unfold enablePages, pagesUrlOf, send.
  destruct (createPagesSite api) as [err|pages]; [|reflexivity].
  cbn. destruct (bool_decide (status err = Some 409%Z)); [|reflexivity].
  cbn. destruct (getPages api); reflexivity.
Qed.

Section Completion.

Variable percent : nat -> nat -> Z.
Variable sha256 : list Byte.byte -> jsstring.

Ltac to_the_end :=
  repeat
    first
      [ apply Ends_completion
      | apply Ends_bind; [intros ? ? ? [? ?]; split;
                            [now apply last_events_suffix | assumption]
                         | intros ? ?]
      | match goal with
        | |- Ends _ (let '(_, _) := ?x in _) => destruct x
        end
      | progress cbv zeta ].

Lemma deployZipToGitHub_ends api token repoName descr isPrivate analysis
    customDomain patches :
  Ends (fun url tr =>
          last (events tr) = Some (completionEvent url)
          /\ exists owner, getAuthenticated api = Returned owner
                           /\ url = pagesUrlOf api owner repoName)
       (deployZipToGitHub percent api token repoName descr isPrivate analysis
                          customDomain patches).
Proof.
  unfold deployZipToGitHub. apply Ends_tryCatch. to_the_end.
  split; [reflexivity|].
  match goal with
  | H : snd (send GetAuthenticated _) = Returned ?o |- _ => exists o; split; [exact H|]
  end.
  match goal with
  | H : snd (enablePages _ _ _ _) = Returned _ |- _ =>
      rewrite enablePages_value in H; now injection H as <-
  end.
Qed.

Lemma deployZipToFirebase_ends api token siteId analysis :
  Ends (fun url tr =>
          last (events tr) = Some (completionEvent url)
          /\ url = "https://" ++ siteId ++ ".web.app")
       (deployZipToFirebase percent sha256 api token siteId analysis).
Proof.
  unfold deployZipToFirebase. apply Ends_tryCatch. to_the_end.
  split; reflexivity.
Qed.

(** When the Git backend returns, the address it returns is the one the
    provider gave for the site, and the default address of the owner's
    Pages when it gave none or when enabling Pages failed; the last event
    handed to the sink is the success event that carries this address. *)
Theorem git_completion_is_announced (api : GitHub)
    (token repoName descr : jsstring) (isPrivate : bool)
    (analysis : ZipAnalysis) (customDomain : option jsstring)
    (patches : option (list AutoFixPatch)) (url : jsstring)
    (Hret : snd (deployZipToGitHub percent api token repoName descr isPrivate
                                   analysis customDomain patches)
            = Returned url) :
  last (events (fst (deployZipToGitHub percent api token repoName descr
                                       isPrivate analysis customDomain patches)))
  = Some (completionEvent url)
  /\ exists owner,
       getAuthenticated api = Returned owner
       /\ url = pagesUrlOf api owner repoName.
Proof. exact (deployZipToGitHub_ends _ _ _ _ _ _ _ _ url Hret). Qed.

(** When the content-addressed backend returns, it returns the address of
    the site on [web.app], and the last event handed to the sink is the
    success event that carries it. *)
Theorem firebase_completion_is_announced (api : Firebase)
    (token siteId : jsstring) (analysis : ZipAnalysis) (url : jsstring)
    (Hret : snd (deployZipToFirebase percent sha256 api token siteId analysis)
            = Returned url) :
  url = "https://" ++ siteId ++ ".web.app"
  /\ last (events (fst (deployZipToFirebase percent sha256 api token siteId
                                            analysis)))
     = Some (completionEvent url).
Proof.
  destruct (deployZipToFirebase_ends _ _ _ _ url Hret) as [H1 H2]. now split.
Qed.

End Completion.

Lemma git_completion_is_announced_witness :
  last (events (fst (deployZipToGitHub roundedPercent healthyGitHub "tok" "site"
                                       "" false twoFileAnalysis None None)))
  = Some (completionEvent "https://octocat.github.io/site/").
Proof.
  refine (proj1 (git_completion_is_announced roundedPercent healthyGitHub "tok"
                   "site" "" false twoFileAnalysis None None
                   "https://octocat.github.io/site/" _)).
  vm_compute. reflexivity.
Defined.

Lemma firebase_completion_is_announced_witness :
  last (events (fst (deployZipToFirebase roundedPercent (fun _ => "h" : jsstring)
                                         healthyFirebase "tok" "demo"
                                         twoFileAnalysis)))
  = Some (completionEvent "https://demo.web.app").
Proof.
  refine (proj2 (firebase_completion_is_announced roundedPercent
                   (fun _ => "h" : jsstring) healthyFirebase "tok" "demo"
                   twoFileAnalysis "https://demo.web.app" _)).
  vm_compute. reflexivity.
Defined.

(** *** The blob phase *)

Lemma take_slices {A : Type} (l : list A) m :
  batched l (map (fun k => k * 5) (seq 0 m)) = take (m * 5) l.
Proof.
  unfold batched. induction m as [|m IH]; [reflexivity|].
  rewrite seq_S, !map_app, concat_app, IH. cbn [map concat plus].
  rewrite app_nil_r. unfold slice.
  replace (m * 5 + 5 - m * 5) with 5 by lia.
  replace (S m * 5) with (m * 5 + 5) by lia.
  now rewrite take_take_drop.
Qed.

Lemma batched_all {A : Type} (l : list A) :
  batched l (batchStarts 5 (length l)) = l.
Proof.
  unfold batchStarts. rewrite take_slices. apply take_ge.
  pose proof (Nat.div_mod (length l + (5 - 1)) 5) as H.
  pose proof (Nat.mod_upper_bound (length l + (5 - 1)) 5) as H'. lia.
Qed.

Lemma uploadBlob_item api owner repoName idx file v :
  snd (uploadBlob api owner repoName idx file 3 0) = Returned v ->
  exists sha, v = Some (mkTreeItem (upPath file) (upMode file) "blob" sha).
Proof.
  pose proof (uploadBlob_cases api owner repoName idx file) as H.
  cbv zeta in H. rewrite H.
  destruct (createBlob api idx 0); [|intros [= <-]; eauto].
  destruct (createBlob api idx 1); [|intros [= <-]; eauto].
  destruct (createBlob api idx 2); [discriminate | intros [= <-]; eauto].
Qed.

Lemma snd_promiseAll_cons {A : Type} (t : Run A) (tasks : list (Run A)) l :
  snd (promiseAll (t :: tasks)) = Returned l ->
  exists a l', l = a :: l' /\ snd t = Returned a
               /\ snd (promiseAll tasks) = Returned l'.
Proof.
  destruct t as [tr r]. cbn [promiseAll]. destruct (promiseAll tasks) as [tr' rs].
  cbn [snd]. destruct r as [e|a]; [discriminate|].
  destruct rs as [e|l']; [discriminate|]. intros [= <-]. eauto.
Qed.

Lemma batch_items api owner repoName (batch : list Upload) :
  forall (idxOf : nat -> nat) pushed,
    snd (promiseAll (imap (fun k file =>
                             uploadBlob api owner repoName (idxOf k) file 3 0)
                          batch)) = Returned pushed ->
    map itemKey (omap id pushed) = map uploadKey batch
    /\ Forall (fun it => itemType it = ("blob" : jsstring)) (omap id pushed).
Proof.
  induction batch as [|file batch IH]; intros idxOf pushed.
  - cbn. intros [= <-]. split; [reflexivity | constructor].
  - cbn [imap]. intros H. apply snd_promiseAll_cons in H.
    destruct H as (v & l' & -> & Hv & Hl').
    apply uploadBlob_item in Hv. destruct Hv as (sha & ->).
    apply (IH (fun k => idxOf (S k))) in Hl'. destruct Hl' as [IH1 IH2].
    cbn [omap list_omap id map]. split; [now rewrite <- IH1|].
    constructor; [reflexivity | exact IH2].
Qed.

Section BlobPhase.

Variable percent : nat -> nat -> Z.

Lemma uploadBatches_items api owner repoName files starts : forall treeItems,
  snd (uploadBatches percent api owner repoName files starts) = Returned treeItems ->
  map itemKey treeItems = map uploadKey (batched files starts)
  /\ Forall (fun it => itemType it = ("blob" : jsstring)) treeItems.
Proof.
  induction starts as [|i starts IH]; intros treeItems; cbn [uploadBatches].
  - intros [= <-]. split; [reflexivity | constructor].
  - cbv zeta. rewrite snd_bind.
    destruct (snd (promiseAll _)) as [e|pushed] eqn:Ep; [discriminate|].
    rewrite snd_bind. cbn [snd onStatus]. rewrite snd_bind.
    destruct (snd (uploadBatches percent api owner repoName files starts))
      as [e|others] eqn:Eo; [discriminate|].
    cbn. intros [= <-].
    apply (batch_items api owner repoName _ (fun k => i + k)) in Ep.
    destruct Ep as [Hp1 Hp2]. destruct (IH others eq_refl) as [Ho1 Ho2].
    unfold batched in *. cbn [map concat]. rewrite !map_app, Hp1, Ho1.
    split; [reflexivity | now apply Forall_app].
Qed.

Lemma Sends_uploadBatches R api owner repoName files starts :
  (forall content, R (CreateBlob owner repoName content)) ->
  Sends R (uploadBatches percent api owner repoName files starts).
Proof.
  intros HR. induction starts as [|i starts IH]; cbn [uploadBatches];
    [apply Sends_ret|].
  apply Sends_bind.
  - apply Sends_promiseAll, Forall_imap_all. intros k file.
    apply Sends_uploadBlob, HR.
  - intros pushed _. apply Sends_bind; [apply Sends_onStatus|].
    intros _ _. apply Sends_bind; [exact IH | intros others _; apply Sends_ret].
Qed.

Ltac tree_walk :=
  repeat
    first
      [ apply Sends_ret
      | apply Sends_nil
      | apply Sends_throw
      | apply Sends_wait
      | apply Sends_onStatus
      | apply Sends_send; exact I
      | apply Sends_uploadBatches; intros ?; exact I
      | apply Sends_bind; [|intros ? ?]
      | apply Sends_tryCatch; [|intros ?]
      | match goal with
        | |- Sends _ (match ?x with _ => _ end) => destruct x
        | |- Sends _ (let '(_, _) := ?x in _) => destruct x
        | |- Sends _ (if ?b then _ else _) => destruct b
        end
      | progress cbv zeta ].

(** The tree that a deployment asks the provider to create lists exactly
    the prepared files: one blob for each of them, under its path and with
    its mode, the blobs of a batch in the order in which their uploads were
    completed. *)
Theorem tree_lists_the_prepared_files (api : GitHub)
    (token repoName descr : jsstring) (isPrivate : bool)
    (analysis : ZipAnalysis) (customDomain : option jsstring)
    (patches : option (list AutoFixPatch)) :
  Sends (treeHolds (prepareFiles analysis customDomain patches))
        (deployZipToGitHub percent api token repoName descr isPrivate analysis
                           customDomain patches).
Proof.
  unfold deployZipToGitHub, setUpRepository, readHead, enablePages, reportFailure.
  tree_walk.
  apply Sends_send. cbn [treeHolds].
  match goal with
  | H : snd (uploadBatches _ _ _ _ _ _) = Returned _ |- _ =>
      apply uploadBatches_items in H; destruct H as [Hkeys Hblob]
  end.
  rewrite batched_all in Hkeys. split; [|assumption].
  now rewrite Hkeys.
Qed.

End BlobPhase.

(** On a provider that answers every request, the tree of two files and
    two patches, one of them for a new file, has three blobs. *)
Lemma healthy_run_sends_the_tree :
  exists tree baseTree,
    In (CreateTree "octocat" "site" tree baseTree)
       (requests (fst (deployZipToGitHub roundedPercent healthyGitHub "tok"
                         "site" "" false twoFileAnalysis None (Some twoPatches))))
    /\ map itemPath tree
       = ["index.html" : jsstring; "a.css" : jsstring;
          ".github/workflows/deploy.yml" : jsstring].
Proof.
  eexists. eexists. split.
  - vm_compute. do 7 right. left. reflexivity.
  - reflexivity.
Qed.

(** *** The number of blob requests *)

Lemma blobCount_app tr tr' : blobCount (tr ++ tr') = blobCount tr + blobCount tr'.
Proof. unfold blobCount. now rewrite List.filter_app, length_app. Qed.

Lemma blobCount_quiet {A : Type} (m : Run A) :
  Sends notBlob m -> blobCount (fst m) = 0.
Proof.
  unfold Sends, blobCount. induction 1 as [|a tr Ha _ IH]; [reflexivity|].
  destruct a as [s|[]|ms]; cbn in *; try assumption. contradiction.
Qed.

Lemma blobCount_bind_quiet {A B : Type} n (m : Run A) (k : A -> Run B) :
  Sends notBlob m -> (forall a, blobCount (fst (k a)) <= n) ->
  blobCount (fst (m ≫= k)) <= n.
Proof.
  intros Hm Hk. rewrite fst_bind, blobCount_app, (blobCount_quiet m Hm).
  destruct (snd m); [cbn; lia | apply Hk].
Qed.

Lemma blobCount_bind_then_quiet {A B : Type} n (m : Run A) (k : A -> Run B) :
  blobCount (fst m) <= n -> (forall a, Sends notBlob (k a)) ->
  blobCount (fst (m ≫= k)) <= n.
Proof.
  intros Hm Hk. rewrite fst_bind, blobCount_app.
  destruct (snd m) as [e|a]; [cbn; lia|].
  rewrite (blobCount_quiet (k a) (Hk a)). lia.
Qed.

Lemma blobCount_bind_add {A B : Type} n1 n2 (m : Run A) (k : A -> Run B) :
  blobCount (fst m) <= n1 -> (forall a, blobCount (fst (k a)) <= n2) ->
  blobCount (fst (m ≫= k)) <= n1 + n2.
Proof.
  intros Hm Hk. rewrite fst_bind, blobCount_app.
  destruct (snd m) as [e|a]; [cbn; lia|]. specialize (Hk a). lia.
Qed.

Lemma blobCount_reported {A : Type} n (m : Run A) :
  blobCount (fst m) <= n -> blobCount (fst (tryCatch m reportFailure)) <= n.
Proof.
  intros H. rewrite tryCatch_reportFailure. destruct (snd m); cbn [fst]; [|exact H].
  rewrite blobCount_app. cbn. lia.
Qed.

Lemma blobCount_uploadBlob api owner repoName idx file :
  blobCount (fst (uploadBlob api owner repoName idx file 3 0)) <= 3.
Proof.
  pose proof (uploadBlob_cases api owner repoName idx file) as H.
  cbv zeta in H. rewrite H.
  destruct (createBlob api idx 0); [|cbn; lia].
  destruct (createBlob api idx 1); [|cbn; lia].
  destruct (createBlob api idx 2); cbn; lia.
Qed.

Lemma blobCount_tasks {A B : Type} (l : list A) : forall f : nat -> A -> Run B,
  (forall k x, blobCount (fst (f k x)) <= 3) ->
  blobCount (concat (map fst (imap f l))) <= 3 * length l.
Proof.
  induction l as [|x l IH]; intros f Hf; [cbn; lia|].
  cbn [imap map concat length]. rewrite blobCount_app.
  apply (Nat.le_trans _ (3 + 3 * length l)); [|lia].
  apply Nat.add_le_mono; [apply Hf | apply IH; intros k y; apply Hf].
Qed.

Lemma blobCount_batch api owner repoName (batch : list Upload)
    (idxOf : nat -> nat) :
  blobCount (fst (promiseAll
                    (imap (fun k file =>
                             uploadBlob api owner repoName (idxOf k) file 3 0)
                          batch)))
  <= 3 * length batch.
Proof.
  rewrite fst_promiseAll. apply blobCount_tasks. intros k file.
  apply blobCount_uploadBlob.
Qed.

Section BlobBudget.

Variable percent : nat -> nat -> Z.

Lemma blobCount_uploadBatches api owner repoName files starts :
  blobCount (fst (uploadBatches percent api owner repoName files starts))
  <= 3 * length (batched files starts).
Proof.
  induction starts as [|i starts IH]; cbn [uploadBatches]; [cbn; lia|].
  cbv zeta. unfold batched in *. cbn [map concat]. rewrite length_app.
  rewrite Nat.mul_add_distr_l. apply blobCount_bind_add.
  - apply (blobCount_batch api owner repoName (slice files i (i + 5))
                           (fun k => i + k)).
  - intros pushed. apply blobCount_bind_quiet; [apply Sends_onStatus|].
    intros _. apply blobCount_bind_then_quiet; [exact IH|].
    intros others. apply Sends_ret.
Qed.

Ltac budget_walk :=
  repeat
    first
      [ apply blobCount_bind_then_quiet;
          [ rewrite <- (batched_all (prepareFiles _ _ _)) at 3;
            apply blobCount_uploadBatches
          | intros ?; solve [sends] ]
      | apply blobCount_bind_quiet; [solve [sends] | intros ?]
      | match goal with
        | |- blobCount (fst (let '(_, _) := ?x in _)) <= _ => destruct x
        end
      | progress cbv zeta ].

(** However the provider answers, a deployment sends at most three blob
    requests for each prepared file. *)
Theorem blob_requests_are_bounded (api : GitHub)
    (token repoName descr : jsstring) (isPrivate : bool)
    (analysis : ZipAnalysis) (customDomain : option jsstring)
    (patches : option (list AutoFixPatch)) :
  blobCount (fst (deployZipToGitHub percent api token repoName descr isPrivate
                                    analysis customDomain patches))
  <= 3 * length (prepareFiles analysis customDomain patches).
Proof.
  unfold deployZipToGitHub. apply blobCount_reported.
  unfold setUpRepository, readHead, enablePages. budget_walk.
Qed.

End BlobBudget.

(** ** The hashes of the content-addressed backend *)





(** ** The hexadecimal rendering of a digest *)

Lemma hex_of_byte b :
  padStart2 (toString16 b)
  = [hexDigit (Byte.to_N b / 16); hexDigit (Byte.to_N b mod 16)]
  /\ byteOfHex (hexDigit (Byte.to_N b / 16)) (hexDigit (Byte.to_N b mod 16)) = b.
Proof. destruct b; split; vm_compute; reflexivity. Qed.

Lemma unhex_hexOf bs : unhex (hexOf bs) = bs.
Proof.
  induction bs as [|b bs IH]; [reflexivity|].
  unfold hexOf in *. cbn [map concat].
  destruct (hex_of_byte b) as [-> Hb]. cbn [app unhex]. now rewrite Hb, IH.
Qed.

Lemma hexOf_length bs : length (hexOf bs) = 2 * length bs.
Proof.
  induction bs as [|b bs IH]; [reflexivity|].
  unfold hexOf in *. cbn [map concat].
  destruct (hex_of_byte b) as [-> _]. cbn [app length]. rewrite IH. lia.
Qed.

(** [calculateSHA256] writes every byte of the digest as two digits, so the
    text is twice as long as the digest and gives the digest back: two
    contents get the same text exactly when their digests are equal. *)
Theorem hex_rendering_is_faithful (digest : list Byte.byte -> list Byte.byte)
    (content content' : list Byte.byte) :
  length (calculateSHA256 digest content) = 2 * length (digest content)
  /\ unhex (calculateSHA256 digest content) = digest content
  /\ (calculateSHA256 digest content = calculateSHA256 digest content'
      <-> digest content = digest content').
Proof.
  unfold calculateSHA256. split; [apply hexOf_length|].
  split; [apply unhex_hexOf|]. split.
  - intros H. apply (f_equal unhex) in H. now rewrite !unhex_hexOf in H.
  - now intros ->.
Qed.

(** ** The deploy handler of the page *)

Lemma quiet_events {A : Type} k (m : Run A) :
  Within k m -> List.filter isError (events (fst m)) = [].
Proof.
  intros H. apply errorCount_Within in H. unfold errorCount in H.
  now apply length_zero_iff_nil in H.
Qed.

Section DeployHandler.

Variable now : jsstring * jsstring.
Variable percent : nat -> nat -> Z.
Variable sha256 : list Byte.byte -> jsstring.
Variable gitHub : GitHub.
Variable firebaseHosting : Firebase.

Lemma deployment_body st p a :
  exists body,
    App.deployment percent sha256 gitHub firebaseHosting st p a
    = tryCatch body reportFailure
    /\ Within 9 body.
Proof.
  destruct p; cbn [App.deployment];
    [apply Within_githubBody | apply Within_firebaseBody].
Qed.

Lemma deployment_ends st p a url :
  snd (App.deployment percent sha256 gitHub firebaseHosting st p a) = Returned url ->
  last (events (fst (App.deployment percent sha256 gitHub firebaseHosting st p a)))
  = Some (completionEvent url).
Proof.
  destruct p; cbn [App.deployment]; intros H.
  - now apply deployZipToGitHub_ends in H.
  - now apply deployZipToFirebase_ends in H.
Qed.

(** What the page shows after a deployment.  When the deployment returns,
    the log is the sequence of its events, without an error entry and with
    the success event last; the page is at step 5 with the address, and the
    history begins with the new record and holds fifty records at most.
    When it throws, the log ends with two error entries, the one of the
    backend and the one the handler adds; the page stays at step 4 with the
    message, and the address and the history are as before.  In both cases
    the page is no longer deploying. *)
Theorem page_after_a_deployment (st : App.State) (f : App.File)
    (a : ZipAnalysis) (p : App.Provider)
    (Hfile : App.file st = Some f) (Hanalysis : App.analysis st = Some a)
    (Hprovider : App.provider st = Some p)
    (Htoken : Js.truthy (App.token st) = true)
    (Hname : Js.truthy (App.repoName st) = true) :
  let run := App.deployment percent sha256 gitHub firebaseHosting st p a in
  let st' := App.handleDeploy now percent sha256 gitHub firebaseHosting st in
  App.isDeploying st' = false
  /\ match snd run with
     | Returned url =>
         App.step st' = 5 /\ App.deployedUrl st' = Some url
         /\ App.error st' = None
         /\ App.logs st' = events (fst run)
         /\ List.filter isError (App.logs st') = []
         /\ last (App.logs st') = Some (completionEvent url)
         /\ head (App.history st')
            = Some (App.mkRecord (fst now) p (App.repoName st) url (snd now))
         /\ length (App.history st') <= 50
     | Threw err =>
         App.step st' = 4 /\ App.deployedUrl st' = App.deployedUrl st
         /\ App.history st' = App.history st
         /\ App.error st'
            = Some (Js.orElse (message err) "Deployment failed")
         /\ (exists quiet,
               App.logs st' = quiet ++ [failureEvent err; App.failedEntry err]
               /\ List.filter isError quiet = [])
         /\ List.filter isError (App.logs st')
            = [failureEvent err; App.failedEntry err]
     end.
Proof.
  intros run st'. subst st'. unfold App.handleDeploy.
  rewrite Hfile, Hanalysis, Hprovider, Htoken, Hname. cbn [negb orb].
  fold run. pose proof (deployment_ends st p a) as Hend. fold run in Hend.
  destruct (deployment_body st p a) as (body & Hbody & Hquiet). fold run in Hbody.
  apply quiet_events in Hquiet. rewrite tryCatch_reportFailure in Hbody.
  destruct (snd run) as [err|url] eqn:Erun.
  - cbn [App.isDeploying App.step App.deployedUrl App.history App.error App.logs].
    assert (Hev : events (fst run) = events (fst body) ++ [failureEvent err]).
    { rewrite Hbody in Erun |- *. destruct (snd body) as [e|u]; [|discriminate].
      cbn [fst snd] in *. injection Erun as ->. now rewrite events_app. }
    split; [reflexivity|]. repeat (split; [reflexivity|]).
    rewrite Hev, <- app_assoc. split.
    + exists (events (fst body)). split; [reflexivity | assumption].
    + rewrite List.filter_app, Hquiet. reflexivity.
  - cbn [App.isDeploying App.step App.deployedUrl App.history App.error App.logs].
    assert (Hev : events (fst run) = events (fst body)).
    { rewrite Hbody in Erun |- *. destruct (snd body) as [e|u]; [discriminate|].
      reflexivity. }
    split; [reflexivity|]. repeat (split; [reflexivity|]).
    split; [now rewrite Hev|]. split; [now apply Hend|].
    unfold App.saveToHistory. rewrite Hprovider. cbn [take head].
    split; [reflexivity|]. cbn [length]. rewrite length_take. lia.
Qed.

End DeployHandler.

Lemma page_after_a_deployment_witness :
  App.step (App.handleDeploy ("1" : jsstring, "2026" : jsstring) roundedPercent
              (fun _ => "h" : jsstring) healthyGitHub healthyFirebase
              App.readyState) = 5
  /\ App.isDeploying (App.handleDeploy ("1" : jsstring, "2026" : jsstring)
                        roundedPercent (fun _ => "h" : jsstring) healthyGitHub
                        healthyFirebase App.readyState) = false.
Proof.
  split; [vm_compute; reflexivity|].
  refine (proj1 (page_after_a_deployment ("1" : jsstring, "2026" : jsstring)
                   roundedPercent (fun _ => "h" : jsstring) healthyGitHub
                   healthyFirebase App.readyState _ twoFileAnalysis App.github
                   _ _ _ _ _)); reflexivity.
Defined.

(** ** The remembered token *)

Lemma handle_keeps_the_copy st i :
  (Credentials.rememberToken st = true
   /\ Credentials.deployToken st = Some (Credentials.token st)
   \/ Credentials.rememberToken st = false
      /\ (Credentials.deployToken st = None
          \/ Credentials.deployToken st = Some [])) ->
  let st' := Credentials.handle st i in
  Credentials.rememberToken st' = true
  /\ Credentials.deployToken st' = Some (Credentials.token st')
  \/ Credentials.rememberToken st' = false
     /\ (Credentials.deployToken st' = None
         \/ Credentials.deployToken st' = Some []).
Proof.
  intros H. destruct i as [newToken | [|]]; cbn.
  - destruct H as [[-> _] | [-> H]]; [left | right]; tauto.
  - left. tauto.
  - right. tauto.
Qed.

(** The copy of the token in [localStorage] follows the token field and the
    box beside it: after the first render and any sequence of changes of the
    field and of the box, a non-empty text is stored exactly when the box is
    ticked and the text is the token of the page.  A login message is not
    stored: a listener that accepts a message sets the token of the page and
    leaves the entry as it is, so with the box ticked and a token other than
    the one of the page the entry no longer holds the token of the page. *)
Theorem stored_token_follows_the_field (saved : option jsstring)
    (inputs : list Credentials.Input) :
  let st := fold_left Credentials.handle inputs (Credentials.mounted saved) in
  (forall t, t <> [] ->
     Credentials.deployToken st = Some t
     <-> Credentials.rememberToken st = true /\ Credentials.token st = t)
  /\ (forall expected data,
        let after := Credentials.handleMessage expected st data in
        Credentials.deployToken (fst after) = Credentials.deployToken st
        /\ Credentials.rememberToken (fst after) = Credentials.rememberToken st
        /\ (snd after = true ->
            exists t, Credentials.dataToken <$> data = Some (Some t)
                      /\ t <> [] /\ Credentials.token (fst after) = t
                      /\ Credentials.step (fst after) = 2
                      /\ (Credentials.rememberToken st = true ->
                          t <> Credentials.token st ->
                          Credentials.deployToken (fst after)
                          <> Some (Credentials.token (fst after))))).
Proof.
  intros st.
  assert (Hinv : Credentials.rememberToken st = true
                 /\ Credentials.deployToken st = Some (Credentials.token st)
                 \/ Credentials.rememberToken st = false
                    /\ (Credentials.deployToken st = None
                        \/ Credentials.deployToken st = Some [])).
  { subst st. apply fold_left_invariant.
    - intros s i Hs. now apply handle_keeps_the_copy.
    - destruct saved as [[|c s]|]; cbn; tauto. }
  split.
  - intros t Ht. destruct Hinv as [[Hr Hd] | [Hr [Hd | Hd]]]; rewrite Hr, Hd.
    + split; [intros [= <-]; tauto | intros [_ ->]; reflexivity].
    + split; [discriminate | intros [[=] _]].
    + split; [intros [= <-]; contradiction | intros [[=] _]].
  - intros expected [[[ty|] [tok|]]|]; cbn; try (repeat split; discriminate).
    destruct (Js.strictEq ty expected && Js.truthy tok) eqn:E; cbn;
      [|repeat split; discriminate].
    repeat split. intros _. exists tok. apply andb_true_iff in E.
    destruct E as [_ E]. split; [reflexivity|].
    split; [intros ->; discriminate|]. split; [reflexivity|].
    split; [reflexivity|]. intros Hr Hne Heq.
    destruct Hinv as [[_ Hd] | [Hr' _]]; [|congruence].
    rewrite Hd in Heq. congruence.
Qed.

(** ** The server *)












(** ** The file tree *)

Lemma split_no_separator s c : Forall (fun part => ~ In c part) (Tree.split s c).
Proof.
  induction s as [|d s IH]; cbn [Tree.split]; [repeat constructor; intros []|].
  destruct (Ascii.eqb d c) eqn:E.
  - constructor; [intros [] | exact IH].
  - destruct (Tree.split s c) as [|part parts]; [repeat constructor|].
    + intros [H | []]. subst d. now rewrite Ascii.eqb_refl in E.
    + apply Forall_cons in IH. destruct IH as [Hp Hps]. constructor; [|exact Hps].
      intros [H | H]; [|now apply Hp]. subst d. now rewrite Ascii.eqb_refl in E.
Qed.

Lemma join_last placed part :
  join "/" (placed ++ [part]) = part
  \/ exists before, join "/" (placed ++ [part]) = before ++ Js.slash :: part.
Proof.
  induction placed as [|x placed IH]; [now left|]. right.
  cbn [app join]. destruct (placed ++ [part]) as [|y l] eqn:E;
    [now destruct placed|].
  destruct IH as [-> | (before & ->)].
  - exists x. reflexivity.
  - exists (x ++ "/" ++ before). now rewrite <- !app_assoc.
Qed.

Lemma last_part_unique (b1 b2 n1 n2 : jsstring) :
  ~ In Js.slash n1 -> ~ In Js.slash n2 ->
  b1 ++ Js.slash :: n1 = b2 ++ Js.slash :: n2 -> n1 = n2.
Proof.
  intros H1 H2 E. apply (f_equal (@rev ascii)) in E.
  rewrite !rev_app_distr in E. cbn [rev] in E. rewrite <- !app_assoc in E.
  cbn [app] in E.
  assert (Hr : forall (u v x y : jsstring),
             ~ In Js.slash u -> ~ In Js.slash v ->
             u ++ Js.slash :: x = v ++ Js.slash :: y -> u = v).
  { induction u as [|c u IH]; intros v x y Hu Hv Huv.
    - destruct v as [|d v]; [reflexivity|]. cbn in Huv. injection Huv as Hd _.
      exfalso. apply Hv. left. congruence.
    - destruct v as [|d v].
      + cbn in Huv. injection Huv as Hc _. exfalso. apply Hu. left. congruence.
      + cbn in Huv. injection Huv as -> Huv. f_equal.
        apply (IH v x y); [| |assumption]; intros H; [apply Hu | apply Hv]; now right. }
  apply (Hr (rev n1) (rev n2)) in E.
  - now apply rev_inj in E.
  - now rewrite <- in_rev.
  - now rewrite <- in_rev.
Qed.

Lemma keyed_path_inj n1 n2 :
  Tree.keyed n1 -> Tree.keyed n2 -> Tree.path n1 = Tree.path n2 ->
  Tree.name n1 = Tree.name n2.
Proof.
  intros [H1 [E1 | (b1 & E1)]] [H2 [E2 | (b2 & E2)]] E; rewrite E1, E2 in E.
  - exact E.
  - exfalso. apply H1. rewrite E, in_app_iff. right. now left.
  - exfalso. apply H2. rewrite <- E, in_app_iff. right. now left.
  - now apply last_part_unique in E.
Qed.

Lemma distinct_paths level :
  Forall Tree.keyed level -> NoDup (map Tree.name level) ->
  NoDup (map Tree.path level).
Proof.
  induction level as [|n level IH]; intros Hk Hn; [constructor|].
  apply Forall_cons in Hk. destruct Hk as [Hkn Hk]. cbn [map] in *.
  apply NoDup_cons in Hn. destruct Hn as [Hx Hn]. apply NoDup_cons.
  split; [|now apply IH]. intros Hin.
  apply list_elem_of_In, in_map_iff in Hin. destruct Hin as (m & Hm & Hin).
  apply Hx. apply list_elem_of_In, in_map_iff. exists m. split; [|assumption].
  rewrite List.Forall_forall in Hk. symmetry.
  apply keyed_path_inj; [assumption | now apply Hk | now symmetry].
Qed.

Lemma each_Forall (l : list Tree.TreeNode) :
  (fix each (l : list Tree.TreeNode) : Prop :=
     match l with
     | [] => True
     | x :: l' => Tree.distinctBelow x /\ each l'
     end) l
  <-> Forall Tree.distinctBelow l.
Proof.
  induction l as [|x l IH]; [split; [constructor | reflexivity]|].
  rewrite Forall_cons, <- IH. reflexivity.
Qed.

Lemma distinctBelow_unfold node :
  Tree.distinctBelow node
  <-> Tree.keyed node
      /\ match Tree.children node with
         | Some below => Tree.distinctSiblings below
         | None => True
         end.
Proof.
  destruct node as [nm p t sz [below|]]; cbn [Tree.distinctBelow Tree.children];
    [|reflexivity].
  unfold Tree.distinctSiblings. now rewrite each_Forall.
Qed.

Lemma distinctBelow_keyed level :
  Forall Tree.distinctBelow level -> Forall Tree.keyed level.
Proof.
  intros H. eapply Forall_impl; [exact H|].
  intros n Hn. now apply distinctBelow_unfold in Hn.
Qed.

Lemma distinctSiblings_intro level :
  NoDup (map Tree.name level) -> Forall Tree.distinctBelow level ->
  Tree.distinctSiblings level.
Proof.
  intros Hn Hb. split; [assumption|]. split; [|assumption].
  apply distinct_paths; [now apply distinctBelow_keyed | assumption].
Qed.

Lemma map_name_alter (g : Tree.TreeNode -> Tree.TreeNode) i level :
  (forall n, Tree.name (g n) = Tree.name n) ->
  map Tree.name (alter g i level) = map Tree.name level.
Proof.
  intros Hg. revert i. induction level as [|n level IH]; intros i; [reflexivity|].
  destruct i as [|i]; cbn; [now rewrite Hg | now rewrite IH].
Qed.

Lemma place_distinct fileSize parts : forall placed level,
  Forall (fun part => ~ In Js.slash part) parts ->
  Tree.distinctSiblings level ->
  Tree.distinctSiblings (Tree.place fileSize placed parts level).
Proof.
  induction parts as [|part rest IH]; intros placed level Hparts Hlevel;
    [exact Hlevel|].
  apply Forall_cons in Hparts. destruct Hparts as [Hpart Hrest].
  destruct Hlevel as (Hn & _ & Hb). cbn [Tree.place]. cbv zeta.
  assert (Hnew : forall t sz ch,
             match ch with
             | Some below => Tree.distinctSiblings below
             | None => True
             end ->
             Tree.distinctBelow
               (Tree.mkNode part (join "/" (placed ++ [part])) t sz ch)).
  { intros t sz ch Hch. apply distinctBelow_unfold. split; [|exact Hch].
    split; [exact Hpart|]. cbn [Tree.path Tree.name]. apply join_last. }
  destruct (list_find (fun node => Tree.name node = part) level)
    as [[i existingNode]|] eqn:Ef.
  - apply list_find_Some in Ef. destruct Ef as (Hi & Hname & _).
    destruct rest as [|next rest']; cbn [negb];
      [now apply distinctSiblings_intro|].
    destruct (Tree.children existingNode) as [below|] eqn:Ec.
    + apply distinctSiblings_intro.
      * rewrite map_name_alter; [assumption | reflexivity].
      * apply Forall_alter; [assumption|]. intros n Hn' Hdn.
        assert (n = existingNode) by congruence. subst n.
        apply distinctBelow_unfold in Hdn. destruct Hdn as [Hk Hch].
        rewrite Ec in Hch. apply distinctBelow_unfold. split; [exact Hk|].
        cbn [Tree.children]. now apply IH.
    + apply IH; [assumption | now apply distinctSiblings_intro].
  - assert (Hfresh : ~ In part (map Tree.name level)).
    { intros Hin. apply in_map_iff in Hin. destruct Hin as (n & Hnm & Hin).
      apply list_elem_of_In, list_elem_of_lookup in Hin. destruct Hin as (i & Hi).
      apply list_find_None in Ef. rewrite Forall_lookup in Ef.
      now apply (Ef i n Hi). }
    assert (Hnames : forall node, Tree.name node = part ->
                       NoDup (map Tree.name (level ++ [node]))).
    { intros node Hnode. rewrite map_app. cbn [map]. rewrite Hnode.
      apply NoDup_app. split; [assumption|]. split; [|apply NoDup_singleton].
      intros x Hx Hx'. apply list_elem_of_In in Hx, Hx'.
      destruct Hx' as [<- | []]. contradiction. }
    destruct rest as [|next rest'].
    + apply distinctSiblings_intro; [now apply Hnames|].
      apply Forall_app. split; [assumption|]. constructor; [|constructor].
      now apply Hnew.
    + apply distinctSiblings_intro; [now apply Hnames|].
      apply Forall_app. split; [assumption|]. constructor; [|constructor].
      apply Hnew. apply IH; [assumption|].
      apply distinctSiblings_intro; constructor.
Qed.

(** In the tree that [buildTree] returns no two nodes of one level have the
    same name or the same path, so the paths can serve as keys of sibling
    elements; the name of every node is the last part of its path.  This
    holds for every list of files, also when a path is given twice or when
    one path names both a file and a folder. *)
Theorem tree_siblings_are_distinct (files : list (jsstring * Z)) :
  Tree.distinctSiblings (Tree.buildTree files).
Proof.
  unfold Tree.buildTree.
  apply (fold_left_invariant Tree.distinctSiblings).
  - intros root [filePath fileSize] Hroot. apply place_distinct; [|assumption].
    apply split_no_separator.
  - apply distinctSiblings_intro; constructor.
Qed.

Lemma join_split s : join "/" (Tree.split s Js.slash) = s.
Proof.
  induction s as [|d s IH]; [reflexivity|]. cbn [Tree.split].
  destruct (Ascii.eqb d Js.slash) eqn:E.
  - apply Ascii.eqb_eq in E. subst d.
    destruct (Tree.split s Js.slash) as [|part parts] eqn:Es.
    + pose proof (f_equal (@length jsstring) Es) as Hl. destruct s; discriminate.
    + cbn [join]. cbn [join] in IH. now rewrite IH.
  - destruct (Tree.split s Js.slash) as [|part parts] eqn:Es.
    + destruct s; cbn in Es; [discriminate|destruct (Ascii.eqb _ _); [discriminate|]].
      destruct (Tree.split s Js.slash); discriminate.
    + destruct parts as [|part' parts']; cbn [join] in *; now rewrite <- IH.
Qed.

Lemma everyBelow_unfold P node :
  Tree.everyBelow P node
  <-> P node
      /\ match Tree.children node with
         | Some below => Forall (Tree.everyBelow P) below
         | None => True
         end.
Proof.
  destruct node as [nm p t sz [below|]]; cbn [Tree.everyBelow Tree.children];
    [|reflexivity].
  assert (H : forall l,
             (fix each (l : list Tree.TreeNode) : Prop :=
                match l with
                | [] => True
                | x :: l' => Tree.everyBelow P x /\ each l'
                end) l <-> Forall (Tree.everyBelow P) l).
  { induction l as [|x l IH]; [split; [constructor | reflexivity]|].
    rewrite Forall_cons, <- IH. reflexivity. }
  now rewrite H.
Qed.

Lemma place_shows files fileSize parts : forall placed level,
  (exists filePath,
     In (filePath, fileSize) files
     /\ join "/" (placed ++ parts)
        = (if Js.startsWith filePath "/" then drop 1 filePath else filePath)) ->
  Forall (Tree.everyBelow (Tree.shows files)) level ->
  Forall (Tree.everyBelow (Tree.shows files))
         (Tree.place fileSize placed parts level).
Proof.
  induction parts as [|part rest IH]; intros placed level Hfile Hlevel;
    [exact Hlevel|].
  cbn [Tree.place]. cbv zeta.
  assert (Hrest : exists filePath,
             In (filePath, fileSize) files
             /\ join "/" ((placed ++ [part]) ++ rest)
                = (if Js.startsWith filePath "/"
                   then drop 1 filePath else filePath)).
  { rewrite <- app_assoc. exact Hfile. }
  destruct (list_find (fun node => Tree.name node = part) level)
    as [[i existingNode]|] eqn:Ef.
  - destruct rest as [|next rest']; cbn [negb]; [exact Hlevel|].
    destruct (Tree.children existingNode) as [below|] eqn:Ec; [|now apply IH].
    apply list_find_Some in Ef. destruct Ef as (Hi & _ & _).
    apply Forall_alter; [assumption|]. intros n Hn Hs.
    assert (n = existingNode) by congruence. subst n.
    apply everyBelow_unfold in Hs. destruct Hs as [Hnode Hbelow].
    rewrite Ec in Hbelow. apply everyBelow_unfold. cbn [Tree.children]. split.
    + unfold Tree.shows in *. cbn [Tree.type Tree.children Tree.size].
      destruct (Tree.type existingNode); [|split; [discriminate | tauto]].
      destruct Hnode as [Hnone _]. congruence.
    + now apply IH.
  - destruct rest as [|next rest'];
      (apply Forall_app; split; [assumption|]; constructor; [|constructor];
       apply everyBelow_unfold; cbn [Tree.children]).
    + split; [|exact I]. unfold Tree.shows. cbn [Tree.type Tree.children].
      split; [reflexivity|]. destruct Hfile as (filePath & Hin & Hpath).
      exists filePath, fileSize. cbn [Tree.path Tree.size]. now repeat split.
    + split; [split; [discriminate | reflexivity]|].
      apply IH; [assumption | constructor].
Qed.

Lemma fold_place_shows files : forall rest root,
  incl rest files ->
  Forall (Tree.everyBelow (Tree.shows files)) root ->
  Forall (Tree.everyBelow (Tree.shows files))
         (fold_left
            (fun root '(filePath, fileSize) =>
               let cleanPath :=
                 if Js.startsWith filePath "/" then drop 1 filePath
                 else filePath in
               Tree.place fileSize [] (Tree.split cleanPath Js.slash) root)
            rest root).
Proof.
  induction rest as [|[filePath fileSize] rest IH]; intros root Hincl Hroot;
    [exact Hroot|].
  cbn [fold_left]. apply IH; [intros x Hx; apply Hincl; now right|].
  cbv zeta. apply place_shows; [|assumption].
  exists filePath. split; [apply Hincl; now left|].
  cbn [app]. apply join_split.
Qed.

(** The tree that [buildTree] returns shows nothing that the list does not
    hold: at every depth a node of type file has no array of children and
    carries the size and the whole path, less a leading slash, of one file
    of the list; a node of type folder has an array of children and no
    size. *)
Theorem tree_shows_only_listed_files (files : list (jsstring * Z)) :
  Forall (Tree.everyBelow (Tree.shows files)) (Tree.buildTree files).
Proof.
  unfold Tree.buildTree. apply fold_place_shows; [apply incl_refl | constructor].
Qed.
